(** * geo-data: the registry access layer, the data filter and the code generator

    A shallow embedding of [packages/cli/src/utils/schemas.ts],
    [packages/cli/src/utils/registry.ts], [packages/cli/src/utils/helpers.ts],
    [packages/cli/src/utils/config.ts], [packages/cli/src/commands/update.ts]
    and [packages/cli/src/commands/add.ts],
    followed by the properties the specification states about them and by
    further properties of the code.

    Conventions of the embedding:
    - a JavaScript object used as a dictionary ([Record<string, string>]) is a
      finite map [gmap string _] of its own enumerable properties; property
      lookup [o[k]] on such a map is [o !! k], with [None] for [undefined];
      where the program reads a key it takes from its input through the
      prototype chain ([name[lang]] in [filterCountryData],
      [registry.countries[code]] in the commands), the members of
      [Object.prototype] are embedded too: [Proto.get], [countries_get];
    - an untyped payload ([unknown], as produced by [JSON.parse]) is a [json]
      value; a value that may also be [undefined] is an [option json];
    - numbers are JSON number literals, kept as rationals: the program only
      copies them and tests them against [undefined]; [NaN] and the
      infinities, which a JSON payload cannot carry, and the sign of zero
      are outside the embedding;
    - the embedding of [z.record] treats a payload key [__proto__] as any
      other key, where zod leaves it out of its result; the statements that
      depend on the difference exclude the key ([no_own_proto]);
    - [async] functions are run to completion one after the other, so they are
      functions in a state-and-exception monad over the cache directory, the
      warning log and the list of network requests;
    - [filterCountryData] is embedded three times: as a function on records
      of string maps, which is what [JSON.stringify] writes of its result; as
      a program on a heap of such records, where what it reads, allocates and
      writes can be told apart; and, in [Proto], on objects read through the
      prototype chain, where a result can hold a function of
      [Object.prototype] under a key of its own. *)

From Stdlib Require Import QArith Ascii.
From stdpp Require Import gmap strings list fin_maps sorting pretty.

Local Open Scope string_scope.
Local Open Scope Z_scope.

(** ** JavaScript values *)

Module Js.

(** [Boolean(s)] for a string: only the empty string is falsy. *)
Definition truthy (s : string) : bool := negb (String.eqb s "").

(** [Boolean(o[k])] for a property of a [Record<string, string>]. *)
Definition truthy_prop (v : option string) : bool :=
  match v with
  | Some s => truthy s
  | None => false
  end.

(** [s.startsWith(p)] *)
Definition startsWith (s p : string) : bool := String.prefix p s.

(** [s.endsWith(p)] *)
Definition endsWith (s p : string) : bool :=
  String.prefix (String.rev p) (String.rev s).

(** [s.replace(pat, by)] with a string pattern: the first occurrence only. *)
Fixpoint replace (s pat by_ : string) : string :=
  if String.prefix pat s
  then by_ ++ String.substring (String.length pat) (String.length s) s
  else match s with
       | EmptyString => EmptyString
       | String c s' => String c (replace s' pat by_)
       end.

(** [s.toUpperCase()] on ASCII text: the letters [a]..[z] are raised, every
    other byte is kept. *)
Definition toUpperCase_char (c : ascii) : ascii :=
  let n := N_of_ascii c in
  if ((97 <=? n) && (n <=? 122))%N then ascii_of_N (n - 32) else c.

Fixpoint toUpperCase (s : string) : string :=
  match s with
  | EmptyString => EmptyString
  | String c s' => String (toUpperCase_char c) (toUpperCase s')
  end.

End Js.

(** ** Untyped payloads *)

#[warnings="-register-all"]
Inductive json : Type :=
  | JNull
  | JBool (b : bool)
  | JNum (n : Q)
  | JStr (s : string)
  | JArr (items : list json)
  | JObj (props : list (string * json)).

(** [Boolean(v)] for a parsed JSON value, as tested by [if (cached)] and
    [if (stale)]. *)
Definition json_truthy (v : json) : bool :=
  match v with
  | JNull => false
  | JBool b => b
  | JNum n => negb (Qnum n =? 0)
  | JStr s => Js.truthy s
  | JArr _ => true
  | JObj _ => true
  end.

(** [o[k]] on the property list of an object; [None] is [undefined]. *)
Fixpoint prop (k : string) (props : list (string * json)) : option json :=
  match props with
  | [] => None
  | (k', v) :: rest => if String.eqb k k' then Some v else prop k rest
  end.

(** ** schemas.ts *)

Record City := {
  city_name : gmap string string;
  latitude : option Q;
  longitude : option Q
}.

Record Region := {
  region_code : string;
  region_name : gmap string string;
  cities : list City
}.

Record CountryData := {
  code : string;
  iso3 : option string;
  name : gmap string string;
  phone : string;
  currency : string;
  timezone : string;
  flag : string;
  regions : list Region
}.

Record IndexName := {
  en : string;
  ar : option string
}.

Record IndexEntry := {
  entry_name : IndexName;
  entry_flag : string;
  entry_languages : list string
}.

Record RegistryIndex := {
  version : string;
  countries : gmap string IndexEntry
}.

(** [GeoDataConfig] of config.ts, the type [ConfigSchema] validates. *)
Record GeoDataConfig := {
  schema_url : option string;
  outputDir : string;
  languages : list string;
  includeCoordinates : bool;
  typescript : bool
}.

(** The zod combinators the schemas are built from. A schema takes the value
    found at a property ([None] when the property is missing) and returns the
    parsed value, or [None] when [safeParse] reports a failure. *)
Module Zod.

Definition schema (A : Type) : Type := option json → option A.

Definition string_ : schema string := λ v,
  match v with
  | Some (JStr s) => Some s
  | _ => None
  end.

Definition number : schema Q := λ v,
  match v with
  | Some (JNum n) => Some n
  | _ => None
  end.

Definition optional {A} (s : schema A) : schema (option A) := λ v,
  match v with
  | None => Some None
  | Some _ => Some <$> s v
  end.

Definition array {A} (s : schema A) : schema (list A) := λ v,
  match v with
  | Some (JArr items) => mapM (λ item, s (Some item)) items
  | _ => None
  end.

(** [z.record(z.string(), s)] *)
Definition record {A} (s : schema A) : schema (gmap string A) := λ v,
  match v with
  | Some (JObj props) =>
      list_to_map <$> mapM (λ kv, pair kv.1 <$> s (Some kv.2)) props
  | _ => None
  end.

(** [z.object({...})]: the shape reads the properties it names; unknown
    keys are dropped from the result. *)
Definition object {A} (shape : list (string * json) → option A) : schema A := λ v,
  match v with
  | Some (JObj props) => shape props
  | _ => None
  end.

End Zod.

Definition CitySchema : Zod.schema City :=
  Zod.object (λ o,
    n ← Zod.record Zod.string_ (prop "name" o);
    lat ← Zod.optional Zod.number (prop "latitude" o);
    lon ← Zod.optional Zod.number (prop "longitude" o);
    Some {| city_name := n; latitude := lat; longitude := lon |}).

Definition RegionSchema : Zod.schema Region :=
  Zod.object (λ o,
    c ← Zod.string_ (prop "code" o);
    n ← Zod.record Zod.string_ (prop "name" o);
    cs ← Zod.array CitySchema (prop "cities" o);
    Some {| region_code := c; region_name := n; cities := cs |}).

Definition CountryDataSchema : Zod.schema CountryData :=
  Zod.object (λ o,
    c ← Zod.string_ (prop "code" o);
    i ← Zod.optional Zod.string_ (prop "iso3" o);
    n ← Zod.record Zod.string_ (prop "name" o);
    p ← Zod.string_ (prop "phone" o);
    cu ← Zod.string_ (prop "currency" o);
    tz ← Zod.string_ (prop "timezone" o);
    f ← Zod.string_ (prop "flag" o);
    rs ← Zod.array RegionSchema (prop "regions" o);
    Some {| code := c; iso3 := i; name := n; phone := p; currency := cu;
            timezone := tz; flag := f; regions := rs |}).

Definition IndexNameSchema : Zod.schema IndexName :=
  Zod.object (λ o,
    e ← Zod.string_ (prop "en" o);
    a ← Zod.optional Zod.string_ (prop "ar" o);
    Some {| en := e; ar := a |}).

Definition IndexEntrySchema : Zod.schema IndexEntry :=
  Zod.object (λ o,
    n ← IndexNameSchema (prop "name" o);
    f ← Zod.string_ (prop "flag" o);
    ls ← Zod.array Zod.string_ (prop "languages" o);
    Some {| entry_name := n; entry_flag := f; entry_languages := ls |}).

Definition RegistryIndexSchema : Zod.schema RegistryIndex :=
  Zod.object (λ o,
    v ← Zod.string_ (prop "version" o);
    cs ← Zod.record IndexEntrySchema (prop "countries" o);
    Some {| version := v; countries := cs |}).

(** What [fs.writeJson] persists for a typed value and [fs.readJson] reads
    back: [JSON.stringify] leaves out the properties that are [undefined]. *)
Module ToJson.

Definition optional_prop {A} (k : string) (f : A → json) (v : option A)
  : list (string * json) :=
  match v with
  | Some x => [(k, f x)]
  | None => []
  end.

Definition record {A} (f : A → json) (m : gmap string A) : json :=
  JObj (prod_map id f <$> map_to_list m).

Definition city (c : City) : json :=
  JObj ([("name", record JStr (city_name c))]
        ++ optional_prop "latitude" JNum (latitude c)
        ++ optional_prop "longitude" JNum (longitude c)).

Definition region (r : Region) : json :=
  JObj [("code", JStr (region_code r));
        ("name", record JStr (region_name r));
        ("cities", JArr (city <$> cities r))].

Definition countryData (d : CountryData) : json :=
  JObj ([("code", JStr (code d))]
        ++ optional_prop "iso3" JStr (iso3 d)
        ++ [("name", record JStr (name d));
            ("phone", JStr (phone d));
            ("currency", JStr (currency d));
            ("timezone", JStr (timezone d));
            ("flag", JStr (flag d));
            ("regions", JArr (region <$> regions d))]).

Definition indexName (n : IndexName) : json :=
  JObj ([("en", JStr (en n))] ++ optional_prop "ar" JStr (ar n)).

Definition indexEntry (e : IndexEntry) : json :=
  JObj [("name", indexName (entry_name e));
        ("flag", JStr (entry_flag e));
        ("languages", JArr (JStr <$> entry_languages e))].

Definition registryIndex (r : RegistryIndex) : json :=
  JObj [("version", JStr (version r));
        ("countries", record indexEntry (countries r))].

End ToJson.

(** ** registry.ts: filterCountryData *)

(** The closure [filterName] of [filterCountryData], on the own string
    entries of the name: the loop over [config.languages] copies the truthy
    entries, then English is added when the copy has no truthy [en] and the
    original has one. What the reads find up the prototype chain is in
    [Proto.filterName]. *)
Definition filterName (config : GeoDataConfig) (name : gmap string string)
  : gmap string string :=
  let filtered :=
    foldl (λ (filtered : gmap string string) lang,
             match name !! lang with
             | Some v => if Js.truthy v then <[lang := v]> filtered else filtered
             | None => filtered
             end)
          ∅ (languages config) in
  match name !! "en" with
  | Some v =>
      if negb (Js.truthy_prop (filtered !! "en")) && Js.truthy v
      then <["en" := v]> filtered
      else filtered
  | None => filtered
  end.

(** The callback of [region.cities.map]. *)
Definition filterCity (config : GeoDataConfig) (city : City) : City :=
  let filteredCity := {| city_name := filterName config (city_name city);
                         latitude := None; longitude := None |} in
  match includeCoordinates config, latitude city, longitude city with
  | true, Some lat, Some lon =>
      {| city_name := city_name filteredCity;
         latitude := Some lat; longitude := Some lon |}
  | _, _, _ => filteredCity
  end.

(** The callback of [data.regions.map]. *)
Definition filterRegion (config : GeoDataConfig) (region : Region) : Region :=
  {| region_code := region_code region;
     region_name := filterName config (region_name region);
     cities := filterCity config <$> cities region |}.

Definition filterCountryData (data : CountryData) (config : GeoDataConfig)
  : CountryData :=
  {| code := code data;
     iso3 := iso3 data;
     name := filterName config (name data);
     phone := phone data;
     currency := currency data;
     timezone := timezone data;
     flag := flag data;
     regions := filterRegion config <$> regions data |}.

(** ** registry.ts: filterCountryData and the prototype chain *)

(** The records above keep the own, string-valued properties of a name
    object, which is what the schemas return and what [JSON.stringify]
    writes. [filterName] reads [name[lang]] through the prototype chain, so
    for a language that names a member of [Object.prototype] it finds
    something even where the object has no such key, and copies it. This
    embedding keeps what it finds; [written_filterCountryData] below relates
    it to the one on records. *)

(** The names of the members of [Object.prototype] that are functions. The
    remaining member, [__proto__], is an accessor: read, it gives
    [Object.prototype] itself. *)
Definition Object_prototype_functions : list string :=
  ["constructor"; "hasOwnProperty"; "isPrototypeOf"; "propertyIsEnumerable";
   "toLocaleString"; "toString"; "valueOf"; "__defineGetter__";
   "__defineSetter__"; "__lookupGetter__"; "__lookupSetter__"].

Module Proto.

(** What a property of a name object can hold: a string, the function that
    [Object.prototype] has under [member], or [Object.prototype]. *)
Inductive value : Type :=
  | Str (s : string)
  | Fn (member : string)
  | ObjectPrototype.

#[global] Instance value_eq_dec : EqDecision value.
Proof. solve_decision. Defined.

(** Objects are truthy. *)
Definition truthy (v : value) : bool :=
  match v with
  | Str s => Js.truthy s
  | Fn _ | ObjectPrototype => true
  end.

Definition truthy_prop (v : option value) : bool :=
  match v with
  | Some v => truthy v
  | None => false
  end.

(** [o[k]] for an object [o] whose prototype is [Object.prototype]: the own
    property when there is one, the inherited member otherwise. *)
Definition get (o : gmap string value) (k : string) : option value :=
  match o !! k with
  | Some v => Some v
  | None =>
      if String.eqb k "__proto__" then Some ObjectPrototype
      else if bool_decide (k ∈ Object_prototype_functions) then Some (Fn k)
      else None
  end.

(** [o[k] = v] for an object [o] that has no own [__proto__]. Under
    [__proto__] the assignment runs the setter of [Object.prototype], which
    creates no property: it ignores a string, and given [Object.prototype]
    it sets the prototype to what it already is. (Given a function it would
    change the prototype; no name object holds a function under an own
    [__proto__]: the schemas return strings, and this assignment never
    creates the key.) *)
Definition set (o : gmap string value) (k : string) (v : value) : gmap string value :=
  if String.eqb k "__proto__" then o else <[k := v]> o.

Record City := {
  city_name : gmap string value;
  latitude : option Q;
  longitude : option Q
}.

Record Region := {
  region_code : string;
  region_name : gmap string value;
  cities : list City
}.

Record CountryData := {
  code : string;
  iso3 : option string;
  name : gmap string value;
  phone : string;
  currency : string;
  timezone : string;
  flag : string;
  regions : list Region
}.

Definition filterName (config : GeoDataConfig) (name : gmap string value)
  : gmap string value :=
  let filtered :=
    foldl (λ (filtered : gmap string value) lang,
             match get name lang with
             | Some v => if truthy v then set filtered lang v else filtered
             | None => filtered
             end)
          ∅ (languages config) in
  match get name "en" with
  | Some v =>
      if negb (truthy_prop (get filtered "en")) && truthy v
      then set filtered "en" v
      else filtered
  | None => filtered
  end.

Definition filterCity (config : GeoDataConfig) (city : City) : City :=
  let filteredCity := {| city_name := filterName config (city_name city);
                         latitude := None; longitude := None |} in
  match includeCoordinates config, latitude city, longitude city with
  | true, Some lat, Some lon =>
      {| city_name := city_name filteredCity;
         latitude := Some lat; longitude := Some lon |}
  | _, _, _ => filteredCity
  end.

Definition filterRegion (config : GeoDataConfig) (region : Region) : Region :=
  {| region_code := region_code region;
     region_name := filterName config (region_name region);
     cities := filterCity config <$> cities region |}.

Definition filterCountryData (data : CountryData) (config : GeoDataConfig)
  : CountryData :=
  {| code := code data;
     iso3 := iso3 data;
     name := filterName config (name data);
     phone := phone data;
     currency := currency data;
     timezone := timezone data;
     flag := flag data;
     regions := filterRegion config <$> regions data |}.

(** What [JSON.stringify] writes of a name object: its own properties that
    hold strings. *)
Definition written (o : gmap string value) : gmap string string :=
  omap (λ v, match v with Str s => Some s | _ => None end) o.

End Proto.

(** A value of the schemas' types as the object it is. *)
Definition object_of_city (c : City) : Proto.City :=
  {| Proto.city_name := Proto.Str <$> city_name c;
     Proto.latitude := latitude c;
     Proto.longitude := longitude c |}.

Definition object_of_region (r : Region) : Proto.Region :=
  {| Proto.region_code := region_code r;
     Proto.region_name := Proto.Str <$> region_name r;
     Proto.cities := object_of_city <$> cities r |}.

Definition object_of_data (d : CountryData) : Proto.CountryData :=
  {| Proto.code := code d;
     Proto.iso3 := iso3 d;
     Proto.name := Proto.Str <$> name d;
     Proto.phone := phone d;
     Proto.currency := currency d;
     Proto.timezone := timezone d;
     Proto.flag := flag d;
     Proto.regions := object_of_region <$> regions d |}.

(** What [JSON.stringify] writes of a dataset. *)
Definition written_city (c : Proto.City) : City :=
  {| city_name := Proto.written (Proto.city_name c);
     latitude := Proto.latitude c;
     longitude := Proto.longitude c |}.

Definition written_region (r : Proto.Region) : Region :=
  {| region_code := Proto.region_code r;
     region_name := Proto.written (Proto.region_name r);
     cities := written_city <$> Proto.cities r |}.

Definition written_data (d : Proto.CountryData) : CountryData :=
  {| code := Proto.code d;
     iso3 := Proto.iso3 d;
     name := Proto.written (Proto.name d);
     phone := Proto.phone d;
     currency := Proto.currency d;
     timezone := Proto.timezone d;
     flag := Proto.flag d;
     regions := written_region <$> Proto.regions d |}.


(** ** registry.ts: cache, network and the two resolvers *)

(** A thrown JavaScript [Error]. *)
Inductive error : Type :=
  | Error (message : string).

Inductive outcome (A : Type) : Type :=
  | Returned (a : A)
  | Thrown (e : error).
Arguments Returned {A} a.
Arguments Thrown {A} e.

(** A file [<cacheKey>.json] of [CACHE_DIR]: its modification time in
    milliseconds and the JSON value [fs.readJson] finds in it. *)
Record cache_file := {
  mtimeMs : Z;
  contents : json
}.

(** The three calls to [p.log.warn] of registry.ts; the text of the zod issue
    appended to the last two is left out. *)
Inductive warning : Type :=
  | NetworkUnavailable
  | IndexFailedValidation
  | CountryFailedValidation (code : string).

(** What the functions of registry.ts change: the cache directory (keyed by
    [cacheKey]), the warnings logged so far and the URLs handed to the global
    [fetch] so far. *)
Record world := {
  cache : gmap string cache_file;
  warnings : list warning;
  requests : list string
}.

(** What they read and do not change: [process.env.GEO_DATA_REGISTRY] or the
    CDN default, the clock, [path.join], the local files [fs.readJson] reads
    outside the cache, and the remote end. A call is taken to run at one
    instant, [Date_now], which is also the modification time of the cache
    files it writes. [fetch_ url] is what [fetch(url)], the [response.ok]
    test and [response.json()] come to together: a payload, or an error
    (unreachable host, non-success status, the 30 s abort, a body that is
    not JSON). *)
Record env := {
  REGISTRY_BASE : string;
  Date_now : Z;
  path_join : list string → string;
  readJson : string → outcome json;
  fetch_ : string → outcome json
}.

Definition M (A : Type) : Type := world → outcome A * world.

#[global] Instance M_ret : MRet M := λ A a w, (Returned a, w).

#[global] Instance M_bind : MBind M := λ A B k m w,
  match m w with
  | (Returned a, w') => k a w'
  | (Thrown e, w') => (Thrown e, w')
  end.

Definition throw {A} (e : error) : M A := λ w, (Thrown e, w).

(** [try { m } catch (error) { handler }] *)
Definition try_catch {A} (m : M A) (handler : error → M A) : M A := λ w,
  match m w with
  | (Returned a, w') => (Returned a, w')
  | (Thrown e, w') => handler e w'
  end.

(** [p.log.warn(...)] *)
Definition warn (msg : warning) : M unit := λ w,
  (Returned tt,
   {| cache := cache w; warnings := warnings w ++ [msg]; requests := requests w |}).

Definition isRemoteRegistry (url : string) : bool :=
  Js.startsWith url "http://" || Js.startsWith url "https://".

(** [path.isAbsolute] on POSIX. *)
Definition path_isAbsolute (p : string) : bool := Js.startsWith p "/".

(** [return null] is [JNull]: the caller only tests the result for
    truthiness. *)
Definition readCache (E : env) (cacheKey : string) (maxAgeMs : Z) : M json := λ w,
  match cache w !! cacheKey with
  | Some stat =>
      if bool_decide (Date_now E - mtimeMs stat < maxAgeMs)
      then (Returned (contents stat), w)
      else (Returned JNull, w)
  | None => (Returned JNull, w)
  end.

Definition writeCache (E : env) (cacheKey : string) (data : json) : M unit := λ w,
  (Returned tt,
   {| cache := <[cacheKey := {| mtimeMs := Date_now E; contents := data |}]> (cache w);
      warnings := warnings w;
      requests := requests w |}).

Definition readStaleCache (cacheKey : string) : M json := λ w,
  match cache w !! cacheKey with
  | Some stat => (Returned (contents stat), w)
  | None => (Returned JNull, w)
  end.

Definition fetchJson (E : env) (urlOrPath : string) : M json := λ w,
  if path_isAbsolute urlOrPath || Js.startsWith urlOrPath "."
  then (readJson E urlOrPath, w)
  else (fetch_ E urlOrPath,
        {| cache := cache w; warnings := warnings w;
           requests := requests w ++ [urlOrPath] |}).

Definition fetchRegistry (E : env) : M (option RegistryIndex) :=
  let url := if isRemoteRegistry (REGISTRY_BASE E)
             then REGISTRY_BASE E ++ "/index.json"
             else path_join E [REGISTRY_BASE E; "index.json"] in
  data ← (if isRemoteRegistry (REGISTRY_BASE E)
          then
            cached ← readCache E "registry-index" (60 * 60 * 1000);
            if json_truthy cached
            then mret cached
            else
              try_catch (fetchJson E url)
                (λ error,
                  stale ← readStaleCache "registry-index";
                  if json_truthy stale
                  then _ ← warn NetworkUnavailable; mret stale
                  else throw error)
          else fetchJson E url);
  match RegistryIndexSchema (Some data) with
  | None => _ ← warn IndexFailedValidation; mret None
  | Some result_data =>
      _ ← (if isRemoteRegistry (REGISTRY_BASE E)
           then writeCache E "registry-index" (ToJson.registryIndex result_data)
           else mret tt);
      mret (Some result_data)
  end.

Definition fetchCountry (E : env) (code : string) (config : GeoDataConfig)
  : M (option CountryData) :=
  let url := if isRemoteRegistry (REGISTRY_BASE E)
             then REGISTRY_BASE E ++ "/countries/" ++ code ++ ".json"
             else path_join E [REGISTRY_BASE E; "countries"; code ++ ".json"] in
  raw ← (if isRemoteRegistry (REGISTRY_BASE E)
         then
           cached ← readCache E ("country-" ++ code) (24 * 60 * 60 * 1000);
           if json_truthy cached
           then mret cached
           else
             try_catch (fetchJson E url)
               (λ error,
                 stale ← readStaleCache ("country-" ++ code);
                 if json_truthy stale
                 then _ ← warn NetworkUnavailable; mret stale
                 else throw error)
         else fetchJson E url);
  match CountryDataSchema (Some raw) with
  | None => _ ← warn (CountryFailedValidation code); mret None
  | Some result_data =>
      _ ← (if isRemoteRegistry (REGISTRY_BASE E)
           then writeCache E ("country-" ++ code) (ToJson.countryData result_data)
           else mret tt);
      mret (Some (filterCountryData result_data config))
  end.

(** [fs.remove(CACHE_DIR)] *)
Definition clearCache : M unit := λ w,
  (Returned tt, {| cache := ∅; warnings := warnings w; requests := requests w |}).


(** ** registry.ts: filterCountryData on the JavaScript heap *)

(** The records above are values; the objects [filterCountryData] receives
    are not: the caller holds references to them and may read them again. So
    the function is embedded a second time, on a heap of objects, with every
    allocation, property read and property write of the source. An address is
    an index in the heap; allocation appends. The objects of the heap hold
    the entries of their own, as the records do; what a read finds up the
    prototype chain is in [Proto]. *)
Module Heap.

Inductive value : Type :=
  | VUndefined
  | VNum (n : Q)
  | VStr (s : string)
  | VRef (l : nat).

(** A plain object with its own properties, or an array. *)
Inductive object : Type :=
  | Obj (props : gmap string value)
  | Arr (items : list value).

(** A computation on the heap; [None] is a [TypeError] (a property read on
    [undefined], [.map] on something that is not an array) or an access the
    embedding does not cover (a property of a string or a number). *)
Definition HeapM (A : Type) : Type := list object → option (A * list object).

#[global] Instance HeapM_ret : MRet HeapM := λ A a h, Some (a, h).

#[global] Instance HeapM_bind : MBind HeapM := λ A B k m h,
  match m h with
  | Some (a, h') => k a h'
  | None => None
  end.

(** An object or array literal: a new object at the next address. *)
Definition alloc (o : object) : HeapM value := λ h,
  Some (VRef (length h), (h ++ [o])%list).

(** [v[k]] *)
Definition get (v : value) (k : string) : HeapM value := λ h,
  match v with
  | VRef l =>
      match h !! l with
      | Some (Obj props) => Some (default VUndefined (props !! k), h)
      | _ => None
      end
  | _ => None
  end.

(** [v[k] = x] *)
Definition set (v : value) (k : string) (x : value) : HeapM unit := λ h,
  match v with
  | VRef l =>
      match h !! l with
      | Some (Obj props) => Some (tt, <[l := Obj (<[k := x]> props)]> h)
      | _ => None
      end
  | _ => None
  end.

(** The own properties [{...v}] spreads. *)
Definition spread (v : value) : HeapM (gmap string value) := λ h,
  match v with
  | VRef l =>
      match h !! l with
      | Some (Obj props) => Some (props, h)
      | _ => None
      end
  | _ => None
  end.

(** The elements [v.map] goes through. *)
Definition elements (v : value) : HeapM (list value) := λ h,
  match v with
  | VRef l =>
      match h !! l with
      | Some (Arr items) => Some (items, h)
      | _ => None
      end
  | _ => None
  end.

(** [Boolean(v)] *)
Definition truthy (v : value) : bool :=
  match v with
  | VUndefined => false
  | VNum n => negb (Qnum n =? 0)
  | VStr s => Js.truthy s
  | VRef _ => true
  end.

(** [v !== undefined] *)
Definition defined (v : value) : bool :=
  match v with
  | VUndefined => false
  | _ => true
  end.

(** [for (const x of xs) body(x)] *)
Fixpoint for_of {A} (xs : list A) (body : A → HeapM unit) : HeapM unit :=
  match xs with
  | [] => mret tt
  | x :: xs' => _ ← body x; for_of xs' body
  end.

(** [xs.map(f)]: the callback runs on each element in turn; the array of the
    results is allocated by the caller of [map_]. *)
Fixpoint map_ (f : value → HeapM value) (xs : list value) : HeapM (list value) :=
  match xs with
  | [] => mret []
  | x :: xs' => y ← f x; ys ← map_ f xs'; mret (y :: ys)
  end.

Definition filterName (config : GeoDataConfig) (name : value) : HeapM value :=
  filtered ← alloc (Obj ∅);
  _ ← for_of (languages config) (λ lang,
         v ← get name lang;
         if truthy v then set filtered lang v else mret tt);
  filtered_en ← get filtered "en";
  name_en ← get name "en";
  _ ← (if negb (truthy filtered_en) && truthy name_en
       then set filtered "en" name_en
       else mret tt);
  mret filtered.

Definition filterCity (config : GeoDataConfig) (city : value) : HeapM value :=
  city_name ← get city "name";
  filtered_name ← filterName config city_name;
  filteredCity ← alloc (Obj {[ "name" := filtered_name ]});
  lat ← get city "latitude";
  lon ← get city "longitude";
  _ ← (if includeCoordinates config && defined lat && defined lon
       then _ ← set filteredCity "latitude" lat; set filteredCity "longitude" lon
       else mret tt);
  mret filteredCity.

Definition filterRegion (config : GeoDataConfig) (region : value) : HeapM value :=
  props ← spread region;
  region_name ← get region "name";
  filtered_name ← filterName config region_name;
  region_cities ← get region "cities";
  items ← elements region_cities;
  filtered ← map_ (filterCity config) items;
  cities ← alloc (Arr filtered);
  alloc (Obj (<["cities" := cities]> (<["name" := filtered_name]> props))).

Definition filterCountryData (data : value) (config : GeoDataConfig) : HeapM value :=
  props ← spread data;
  data_name ← get data "name";
  filtered_name ← filterName config data_name;
  data_regions ← get data "regions";
  items ← elements data_regions;
  filtered ← map_ (filterRegion config) items;
  regions ← alloc (Arr filtered);
  alloc (Obj (<["regions" := regions]> (<["name" := filtered_name]> props))).

(** How the typed values lie in a heap. Every object of the representation
    is at an address not below [lo]. *)
Definition is_name (lo : nat) (h : list object) (v : value) (m : gmap string string)
  : Prop :=
  ∃ l, v = VRef l ∧ (lo ≤ l)%nat ∧ h !! l = Some (Obj (VStr <$> m)).

Definition is_array {A} (is_item : nat → list object → value → A → Prop)
    (lo : nat) (h : list object) (v : value) (xs : list A) : Prop :=
  ∃ l items, v = VRef l ∧ (lo ≤ l)%nat ∧ h !! l = Some (Arr items) ∧
             Forall2 (is_item lo h) items xs.

Definition is_city (lo : nat) (h : list object) (v : value) (c : City) : Prop :=
  ∃ l props vname,
    v = VRef l ∧ (lo ≤ l)%nat ∧ h !! l = Some (Obj props) ∧
    props !! "name" = Some vname ∧ is_name lo h vname (city_name c) ∧
    props !! "latitude" = VNum <$> latitude c ∧
    props !! "longitude" = VNum <$> longitude c.

Definition is_region (lo : nat) (h : list object) (v : value) (r : Region) : Prop :=
  ∃ l props vname vcities,
    v = VRef l ∧ (lo ≤ l)%nat ∧ h !! l = Some (Obj props) ∧
    props !! "code" = Some (VStr (region_code r)) ∧
    props !! "name" = Some vname ∧ is_name lo h vname (region_name r) ∧
    props !! "cities" = Some vcities ∧ is_array is_city lo h vcities (cities r).

Definition is_country (lo : nat) (h : list object) (v : value) (d : CountryData)
  : Prop :=
  ∃ l props vname vregions,
    v = VRef l ∧ (lo ≤ l)%nat ∧ h !! l = Some (Obj props) ∧
    props !! "code" = Some (VStr (code d)) ∧
    props !! "iso3" = VStr <$> iso3 d ∧
    props !! "name" = Some vname ∧ is_name lo h vname (name d) ∧
    props !! "phone" = Some (VStr (phone d)) ∧
    props !! "currency" = Some (VStr (currency d)) ∧
    props !! "timezone" = Some (VStr (timezone d)) ∧
    props !! "flag" = Some (VStr (flag d)) ∧
    props !! "regions" = Some vregions ∧ is_array is_region lo h vregions (regions d).

End Heap.

(** ** helpers.ts: getInstalledCountries *)

(** The argument is what [fs.readdir(outputDir)] comes to: the names in the
    directory, in the order the file system lists them, or a rejection, which
    [.catch(() => [])] turns into the empty list. *)
Definition getInstalledCountries (readdir : outcome (list string)) : list string :=
  let files := match readdir with
               | Returned files => files
               | Thrown _ => []
               end in
  (λ f, Js.replace f ".json" "") <$>
    filter (λ f, Js.endsWith f ".json" && negb (String.eqb f "index.json")) files.

(** ** codegen.ts *)

(** The order of [Array.prototype.sort] without a comparator, on ASCII
    strings: lexicographic by character code. *)
Definition code_le (a b : string) : Prop := String.leb a b.

(** Modelled from the spec: codegen.ts, the file of [generateIndex], is missing
    from the sources; only its tests are there, and they mock
    [getInstalledCountries]. By §4.6 the generator "lists the dataset files
    currently materialized in [config.outputDir] (excluding the index/summary
    file itself), sorts their codes for deterministic output, and emits a
    single accessor module"; the output mode chooses between the two variants
    and "does not change semantics". The module is represented by what its
    text is generated from: the sorted codes and the output mode. *)
Record AccessorModule := {
  module_codes : list string;
  module_typescript : bool
}.

Definition generateIndex (config : GeoDataConfig) (readdir : outcome (list string))
  : AccessorModule :=
  {| module_codes := merge_sort code_le (getInstalledCountries readdir);
     module_typescript := typescript config |}.


(** ** schemas.ts: ConfigSchema and VALID_LANGUAGES *)

Definition VALID_LANGUAGES : list string :=
  ["en"; "ar"; "de"; "es"; "fr"; "hi"; "it"; "ja"; "ko"; "nl"; "pl"; "pt";
   "pt-BR"; "ru"; "tr"; "uk"; "zh"].

(** The first issue of a failed [ConfigSchema.safeParse]: one of the two
    messages the schema gives to [min(1, ...)], or the issue zod raises on its
    own for a missing or wrongly typed value under a key of the shape (the
    empty key stands for a payload that is not an object). *)
Inductive issue : Type :=
  | TooSmall (message : string)
  | InvalidType (key : string).

(** zod visits the keys of the shape in the order they are written, so the
    first issue is that of the first key that fails; the nesting below follows
    that order. *)
Definition ConfigSchema (v : option json) : issue + GeoDataConfig :=
  match v with
  | Some (JObj o) =>
      match Zod.optional Zod.string_ (prop "$schema" o) with
      | None => inl (InvalidType "$schema")
      | Some schema_ =>
          match Zod.string_ (prop "outputDir" o) with
          | None => inl (InvalidType "outputDir")
          | Some dir =>
              if (String.length dir <? 1)%nat
              then inl (TooSmall "outputDir must be a non-empty string")
              else
                match prop "languages" o with
                | Some (JArr items) =>
                    if (length items <? 1)%nat
                    then inl (TooSmall "languages must be a non-empty array")
                    else
                      match Zod.array Zod.string_ (Some (JArr items)) with
                      | None => inl (InvalidType "languages")
                      | Some langs =>
                          match prop "includeCoordinates" o with
                          | Some (JBool coords) =>
                              match prop "typescript" o with
                              | Some (JBool ts) =>
                                  inr {| schema_url := schema_;
                                         outputDir := dir;
                                         languages := langs;
                                         includeCoordinates := coords;
                                         typescript := ts |}
                              | _ => inl (InvalidType "typescript")
                              end
                          | _ => inl (InvalidType "includeCoordinates")
                          end
                      end
                | _ => inl (InvalidType "languages")
                end
          end
      end
  | _ => inl (InvalidType "")
  end.

(** What [fs.writeJson(CONFIG_FILE, config)] of the [init] command persists. *)
Definition configToJson (c : GeoDataConfig) : json :=
  JObj (ToJson.optional_prop "$schema" JStr (schema_url c)
        ++ [("outputDir", JStr (outputDir c));
            ("languages", JArr (JStr <$> languages c));
            ("includeCoordinates", JBool (includeCoordinates c));
            ("typescript", JBool (typescript c))]).

(** ** config.ts and the functions of helpers.ts that call it *)

(** The calls to the terminal made by config.ts, helpers.ts and the commands:
    [p.log.warn], [p.log.error], [p.log.message], [p.log.info], [intro],
    [console.log()], [s.start] and [s.stop] of the spinner (their texts are
    left out), [p.note], [outro] and [cancel]. *)
Inductive ui_event : Type :=
  | LogWarn (message : string)
  | LogError (message : string)
  | Intro (message : string)
  | ConsoleLog
  | LogMessage (message : string)
  | SpinnerStart
  | SpinnerStop
  | Note (message title : string)
  | Outro (message : string)
  | LogInfo (message : string)
  | Cancel (message : string).

(** What these functions read: [geo-data.json] in the working directory
    (absent, or what [fs.readJson] makes of it: a JSON value or an error),
    and the text zod gives to the issues it raises on its own. *)
Record config_env := {
  config_file : option (outcome json);
  zod_message : string → string
}.

(** A computation that logs to the terminal and may throw. *)
Definition Ui (A : Type) : Type := list ui_event → outcome A * list ui_event.

#[global] Instance Ui_ret : MRet Ui := λ A a log, (Returned a, log).

#[global] Instance Ui_bind : MBind Ui := λ A B k m log,
  match m log with
  | (Returned a, log') => k a log'
  | (Thrown e, log') => (Thrown e, log')
  end.

Definition ui_throw {A} (e : error) : Ui A := λ log, (Thrown e, log).

Definition ui_try {A} (m : Ui A) (handler : error → Ui A) : Ui A := λ log,
  match m log with
  | (Returned a, log') => (Returned a, log')
  | (Thrown e, log') => handler e log'
  end.

Definition ui (e : ui_event) : Ui unit := λ log, (Returned tt, (log ++ [e])%list).

(** [for (const x of xs) body(x)] *)
Fixpoint ui_for {A} (xs : list A) (body : A → Ui unit) : Ui unit :=
  match xs with
  | [] => mret tt
  | x :: xs' => _ ← body x; ui_for xs' body
  end.

(** The double quote, which the messages below put around a language. *)
Definition dquote : string := String "034"%char EmptyString.

Definition CONFIG_FILE : string := "geo-data.json".

(** [result.error.issues[0]?.message]: there is always a first issue. *)
Definition issue_message (C : config_env) (i : issue) : string :=
  match i with
  | TooSmall message => message
  | InvalidType key => zod_message C key
  end.

(** helpers.ts. Everything thrown in this embedding is an [Error]. *)
Definition errorMessage (e : error) : string :=
  match e with
  | Error message => message
  end.

Definition validateConfig (C : config_env) (config : option json) : Ui GeoDataConfig :=
  match ConfigSchema config with
  | inl i => ui_throw (Error (issue_message C i))
  | inr data =>
      _ ← ui_for (languages data) (λ lang,
             if bool_decide (lang ∈ VALID_LANGUAGES)
             then mret tt
             else ui (LogWarn ("Unknown language code " ++ dquote ++ lang ++ dquote)));
      mret data
  end.

Inductive ConfigResult : Type :=
  | ConfigOk (config : GeoDataConfig)
  | ConfigNotFound
  | ConfigInvalid (error : string).

Definition getConfigResult (C : config_env) : Ui ConfigResult :=
  match config_file C with
  | None => mret ConfigNotFound
  | Some read =>
      ui_try
        (raw ← (λ log, (read, log));
         config ← validateConfig C (Some raw);
         mret (ConfigOk config))
        (λ error, mret (ConfigInvalid (errorMessage error)))
  end.

Definition getConfig (C : config_env) : Ui (option GeoDataConfig) :=
  result ← getConfigResult C;
  match result with
  | ConfigOk config => mret (Some config)
  | ConfigInvalid error =>
      _ ← ui (LogError ("Error reading " ++ CONFIG_FILE ++ ": " ++ error));
      mret None
  | ConfigNotFound => mret None
  end.

(** helpers.ts *)
Definition requireConfig (C : config_env) (commandName : string)
  : Ui (option GeoDataConfig) :=
  result ← getConfigResult C;
  match result with
  | ConfigOk config => mret (Some config)
  | ConfigNotFound =>
      _ ← ui (Intro commandName);
      _ ← ui (LogError "No geo-data.json found. Run 'npx geo-data init' first.");
      _ ← ui ConsoleLog;
      mret None
  | ConfigInvalid error =>
      _ ← ui (Intro commandName);
      _ ← ui (LogError ("Invalid geo-data.json: " ++ error));
      _ ← ui ConsoleLog;
      mret None
  end.

(** What [registry.countries[code]] gives. [registry.countries] is a plain
    object, so the read goes through its prototype chain: an own entry, or a
    function of [Object.prototype], or [Object.prototype] itself (under
    [__proto__]), or [undefined]. The last alone is falsy. *)
Inductive country_info : Type :=
  | Listed (info : IndexEntry)
  | InheritedFunction (member : string)
  | InheritedPrototype
  | NotListed.

Definition countries_get (registry : RegistryIndex) (code : string) : country_info :=
  match countries registry !! code with
  | Some info => Listed info
  | None =>
      if String.eqb code "__proto__" then InheritedPrototype
      else if bool_decide (code ∈ Object_prototype_functions)
           then InheritedFunction code
           else NotListed
  end.

Definition info_truthy (info : country_info) : bool :=
  match info with
  | NotListed => false
  | _ => true
  end.

(** Reading a property of [undefined]. *)
Definition TypeError : error := Error "Cannot read properties of undefined".

(** [`${info.flag} ${info.name.en}`], the text the commands give the spinner.
    A function has no [flag] and its [name] is a string, which has no [en]:
    both read as [undefined]. [Object.prototype] has no [name], so reading
    [info.name.en] throws; so does reading [info.flag] of [undefined]. *)
Definition info_label (info : country_info) : outcome string :=
  match info with
  | Listed i => Returned (entry_flag i ++ " " ++ en (entry_name i))
  | InheritedFunction _ => Returned "undefined undefined"
  | InheritedPrototype => Thrown TypeError
  | NotListed => Thrown TypeError
  end.

(** helpers.ts. [info] is [registry.countries[code]]; when it is truthy its
    flag and English name are read. [code.toUpperCase()] is taken on ASCII
    codes. *)
Definition formatCountryDisplay (code : string) (info : country_info) : outcome string :=
  match info with
  | Listed i =>
      Returned (entry_flag i ++ " " ++ Js.toUpperCase code ++ " - " ++ en (entry_name i))
  | InheritedFunction _ =>
      Returned ("undefined " ++ Js.toUpperCase code ++ " - undefined")
  | InheritedPrototype => Thrown TypeError
  | NotListed => Returned (Js.toUpperCase code)
  end.

(** [xs.map(f)] for an [f] that may throw: the first throw ends it. *)
Fixpoint map_throwing {A B} (f : A → outcome B) (xs : list A) : outcome (list B) :=
  match xs with
  | [] => Returned []
  | x :: xs' =>
      match f x with
      | Thrown e => Thrown e
      | Returned b =>
          match map_throwing f xs' with
          | Thrown e => Thrown e
          | Returned bs => Returned (b :: bs)
          end
      end
  end.

(** ** commands/update.ts *)

(** [CommandOptions] of helpers.ts; a flag that is not given is falsy. *)
Record CommandOptions := {
  force : bool;
  dryRun : bool
}.

(** A file of [config.outputDir]: a data file with the JSON value
    [fs.writeJson] put there, the accessor module [generateIndex] emitted, or
    anything else. *)
Inductive file : Type :=
  | JsonFile (data : json)
  | ModuleFile (m : AccessorModule)
  | OtherFile (text : string).

(** What a command changes: the world of registry.ts, the files of
    [config.outputDir] by name (a directory that does not exist holds no
    file), [process.exitCode] and the terminal. *)
Record process := {
  registry_world : world;
  output_files : gmap string file;
  exitCode : option Z;
  terminal : list ui_event
}.

(** What it reads besides [env] and [config_env]: the error with which
    [fs.readdir] of the output directory rejects, if it does, the error with
    which [fs.writeJson] rejects for a file name, if it does, the error with
    which [fs.ensureDir] of the output directory rejects, if it does, and
    the error with which the write of the accessor module rejects, if it
    does. *)
Record fs_env := {
  readdir_error : option error;
  writeJson_error : string → option error;
  ensureDir_error : option error;
  writeIndex_error : option error
}.

Definition Cmd (A : Type) : Type := process → outcome A * process.

#[global] Instance Cmd_ret : MRet Cmd := λ A a s, (Returned a, s).

#[global] Instance Cmd_bind : MBind Cmd := λ A B k m s,
  match m s with
  | (Returned a, s') => k a s'
  | (Thrown e, s') => (Thrown e, s')
  end.

Definition cmd_try {A} (m : Cmd A) (handler : error → Cmd A) : Cmd A := λ s,
  match m s with
  | (Returned a, s') => (Returned a, s')
  | (Thrown e, s') => handler e s'
  end.

(** A call into registry.ts. *)
Definition in_registry {A} (m : M A) : Cmd A := λ s,
  let '(r, w) := m (registry_world s) in
  (r, {| registry_world := w; output_files := output_files s;
         exitCode := exitCode s; terminal := terminal s |}).

(** A call into config.ts or helpers.ts. *)
Definition in_terminal {A} (m : Ui A) : Cmd A := λ s,
  let '(r, log) := m (terminal s) in
  (r, {| registry_world := registry_world s; output_files := output_files s;
         exitCode := exitCode s; terminal := log |}).

Definition say (e : ui_event) : Cmd unit := in_terminal (ui e).

(** [process.exitCode = n] *)
Definition set_exitCode (n : Z) : Cmd unit := λ s,
  (Returned tt,
   {| registry_world := registry_world s; output_files := output_files s;
      exitCode := Some n; terminal := terminal s |}).

(** [fs.readdir(config.outputDir)]. The names are listed in the order of the
    keys of the map; [update] and the generator sort what they make of the
    list. *)
Definition readdir (F : fs_env) (files : gmap string file) : outcome (list string) :=
  match readdir_error F with
  | Some e => Thrown e
  | None => Returned (map_to_list files).*1
  end.

(** [fs.writeJson(path.join(config.outputDir, name), data, { spaces: 2 })] *)
Definition writeJson (F : fs_env) (name : string) (data : json) : Cmd unit := λ s,
  match writeJson_error F name with
  | Some e => (Thrown e, s)
  | None =>
      (Returned tt,
       {| registry_world := registry_world s;
          output_files := <[name := JsonFile data]> (output_files s);
          exitCode := exitCode s; terminal := terminal s |})
  end.

(** Modelled from the spec: the effect of [await generateIndex(config)] of
    codegen.ts, which is missing from the sources. By §4.6 the generator
    lists the dataset files of the output directory and emits a single
    accessor module; its name, [index.ts] or [index.js], is the one [update]
    shows while the call runs. By §7 a file-system error during the index
    write is surfaced directly: the call then throws and writes nothing. *)
Definition run_generateIndex (F : fs_env) (config : GeoDataConfig) : Cmd unit := λ s,
  let ext := if typescript config then "ts" else "js" in
  match writeIndex_error F with
  | Some e => (Thrown e, s)
  | None =>
      (Returned tt,
       {| registry_world := registry_world s;
          output_files :=
            <["index." ++ ext
              := ModuleFile (generateIndex config (readdir F (output_files s)))]>
              (output_files s);
          exitCode := exitCode s; terminal := terminal s |})
  end.

Definition cmd_throw {A} (e : error) : Cmd A := λ s, (Thrown e, s).

(** A computation that only returns or throws. *)
Definition cmd_of {A} (r : outcome A) : Cmd A := λ s, (r, s).

Definition newline : string := String "010"%char EmptyString.

(** The loop of [update] over the sorted codes; [updated] is the counter.
    The text of the spinner is built before the inner [try]. *)
Fixpoint update_each (E : env) (F : fs_env) (config : GeoDataConfig)
    (registry : RegistryIndex) (codes : list string) (updated : nat) : Cmd nat :=
  match codes with
  | [] => mret updated
  | code :: rest =>
      let info := countries_get registry code in
      if negb (info_truthy info)
      then update_each E F config registry rest updated
      else
        label ← cmd_of (info_label info);
        _ ← say SpinnerStart;
        updated' ← cmd_try
          (countryData ← in_registry (fetchCountry E code config);
           match countryData with
           | None => _ ← say SpinnerStop; mret updated
           | Some countryData =>
               _ ← writeJson F (code ++ ".json") (ToJson.countryData countryData);
               _ ← say SpinnerStop;
               mret (S updated)
           end)
          (λ error, _ ← say SpinnerStop; mret updated);
        update_each E F config registry rest updated'
  end.

Definition update (C : config_env) (E : env) (F : fs_env) (options : CommandOptions)
  : Cmd unit :=
  config ← in_terminal (requireConfig C "Update Countries");
  match config with
  | None => set_exitCode 1
  | Some config =>
      _ ← say (Intro "Update Countries");
      _ ← say SpinnerStart;
      cmd_try
        (installed ← (λ s, (Returned (getInstalledCountries (readdir F (output_files s))), s));
         if (length installed =? 0)%nat
         then
           _ ← say SpinnerStop;
           _ ← say (LogWarn "No countries installed");
           _ ← say (LogMessage "Run: npx geo-data add sa ae");
           _ ← say ConsoleLog;
           set_exitCode 1
         else
           registry ← in_registry (fetchRegistry E);
           match registry with
           | None =>
               _ ← say SpinnerStop;
               _ ← say (LogError "Could not load registry — invalid data from remote");
               _ ← say ConsoleLog;
               set_exitCode 1
           | Some registry =>
               _ ← say SpinnerStop;
               if dryRun options
               then
                 list ← cmd_of (map_throwing
                                  (λ code, formatCountryDisplay code
                                             (countries_get registry code))
                                  (merge_sort code_le installed));
                 _ ← say (Note (String.concat newline list) "Would update (dry run)");
                 say ConsoleLog
               else
                 updated ← update_each E F config registry (merge_sort code_le installed) 0;
                 _ ← say SpinnerStart;
                 _ ← run_generateIndex F config;
                 _ ← say SpinnerStop;
                 say (Outro ("Updated " ++ pretty updated ++ " "
                             ++ if (updated =? 1)%nat then "country" else "countries"))
           end)
        (λ error,
          _ ← say SpinnerStop;
          _ ← set_exitCode 1;
          _ ← say (LogError (errorMessage error));
          say ConsoleLog)
  end.

(** ** commands/add.ts *)

(** What [add] asks: the answer to [p.confirm] for a message ([None] when the
    prompt is cancelled), and [findBestMatch] of string-similarity, reduced
    to what [add] reads of it: the best target when its rating is above
    0.3, or the error the library throws. *)
Record prompt_env := {
  confirm : string → option bool;
  findBestMatch : string → list string → outcome (option string)
}.

(** [s.toLowerCase()] on ASCII text. *)
Definition toLowerCase_char (c : ascii) : ascii :=
  let n := N_of_ascii c in
  if ((65 <=? n) && (n <=? 90))%N then ascii_of_N (n + 32) else c.

Fixpoint toLowerCase (s : string) : string :=
  match s with
  | EmptyString => EmptyString
  | String c s' => String (toLowerCase_char c) (toLowerCase s')
  end.

(** [for (const x of xs) body(x)] *)
Fixpoint cmd_for {A} (xs : list A) (body : A → Cmd unit) : Cmd unit :=
  match xs with
  | [] => mret tt
  | x :: xs' => _ ← body x; cmd_for xs' body
  end.

(** [fs.ensureDir(config.outputDir)] *)
Definition ensureDir (F : fs_env) : Cmd unit := λ s,
  match ensureDir_error F with
  | Some e => (Thrown e, s)
  | None => (Returned tt, s)
  end.

(** The loop of [add] over the codes; [added] and [failed] are the two arrays
    it pushes to. The text of the spinner is built before the inner [try]. *)
Fixpoint add_each (E : env) (F : fs_env) (config : GeoDataConfig)
    (registry : RegistryIndex) (codes : list string) (added failed : list string)
  : Cmd (list string * list string) :=
  match codes with
  | [] => mret (added, failed)
  | code :: rest =>
      label ← cmd_of (info_label (countries_get registry code));
      _ ← say SpinnerStart;
      ok ← cmd_try
        (countryData ← in_registry (fetchCountry E code config);
         match countryData with
         | None => _ ← say SpinnerStop; mret false
         | Some countryData =>
             _ ← ensureDir F;
             _ ← writeJson F (code ++ ".json") (ToJson.countryData countryData);
             _ ← say SpinnerStop;
             mret true
         end)
        (λ error, _ ← say SpinnerStop; mret false);
      if ok : bool
      then add_each E F config registry rest (added ++ [code]) failed
      else add_each E F config registry rest added (failed ++ [code])
  end.

(** The codes [add] goes on with after the check for existing files: all of
    them, or the new ones when the user does not confirm the overwrite;
    [None] when it returns there. *)
Definition add_confirm (P : prompt_env) (registry : RegistryIndex)
    (options : CommandOptions) (codes existing : list string)
  : Cmd (option (list string)) :=
  if (0 <? length existing)%nat && negb (force options) && negb (dryRun options)
  then
    existingList ← cmd_of (map_throwing
                             (λ code, formatCountryDisplay code
                                        (countries_get registry code))
                             existing);
    _ ← say (Note (String.concat newline existingList) "Already installed");
    match confirm P "Overwrite existing countries?" with
    | Some true => mret (Some codes)
    | _ =>
        let newCodes := filter (λ c, c ∉ existing) codes in
        if (length newCodes =? 0)%nat
        then _ ← say (Cancel "Nothing to add"); mret None
        else mret (Some newCodes)
    end
  else mret (Some codes).

(** [existing] collects the codes for which [fs.pathExists] finds the file
    [<code>.json] of the output directory. A code names that file; codes with
    a path separator are not modelled. *)
Definition add (C : config_env) (E : env) (F : fs_env) (P : prompt_env)
    (countryCodes : list string) (options : CommandOptions) : Cmd unit :=
  config ← in_terminal (requireConfig C "Add Countries");
  match config with
  | None => set_exitCode 1
  | Some config =>
      _ ← say (Intro "Add Countries");
      let codes := toLowerCase <$> countryCodes in
      _ ← say SpinnerStart;
      cmd_try
        (registry ← in_registry (fetchRegistry E);
         match registry with
         | None =>
             _ ← say SpinnerStop;
             _ ← say (LogError "Could not load registry — invalid data from remote");
             _ ← say ConsoleLog;
             set_exitCode 1
         | Some registry =>
             let invalid :=
               filter (λ c, info_truthy (countries_get registry c) = false) codes in
             if (0 <? length invalid)%nat
             then
               _ ← say SpinnerStop;
               let allCodes := (map_to_list (countries registry)).*1 in
               _ ← cmd_for invalid (λ code,
                      _ ← say (LogError ("Unknown country code: " ++ Js.toUpperCase code));
                      match_ ← cmd_of (findBestMatch P (toLowerCase code) allCodes);
                      match match_ with
                      | Some suggested =>
                          match countries_get registry suggested with
                          | Listed info =>
                              say (LogInfo ("Did you mean " ++ entry_flag info ++ " "
                                            ++ Js.toUpperCase suggested ++ " ("
                                            ++ en (entry_name info) ++ ")?"))
                          | InheritedFunction _ =>
                              say (LogInfo ("Did you mean undefined "
                                            ++ Js.toUpperCase suggested ++ " (undefined)?"))
                          | InheritedPrototype | NotListed => cmd_throw TypeError
                          end
                      | None => mret tt
                      end);
               _ ← say (LogMessage "Run: npx geo-data list");
               _ ← say ConsoleLog;
               set_exitCode 1
             else
               existing ← (λ s,
                 (Returned (filter (λ code, is_Some (output_files s !! (code ++ ".json")))
                              codes), s));
               _ ← say SpinnerStop;
               codes ← add_confirm P registry options codes existing;
               match codes with
               | None => mret tt
               | Some codes =>
                   if dryRun options
                   then
                     list ← cmd_of (map_throwing
                                      (λ code, formatCountryDisplay code
                                                 (countries_get registry code))
                                      codes);
                     _ ← say (Note (String.concat newline list) "Would add (dry run)");
                     _ ← say (LogInfo ("Target: " ++ outputDir config ++ "/"));
                     say ConsoleLog
                   else
                     '(added, failed) ← add_each E F config registry codes [] [];
                     _ ← (if (0 <? length added)%nat
                          then
                            _ ← say SpinnerStart;
                            _ ← run_generateIndex F config;
                            say SpinnerStop
                          else mret tt);
                     _ ← (if (0 <? length failed)%nat
                          then
                            _ ← set_exitCode 1;
                            say (LogWarn ("Failed: "
                                          ++ String.concat ", " (Js.toUpperCase <$> failed)))
                          else mret tt);
                     if (0 <? length added)%nat
                     then
                       _ ← say (Note ("import { getCities } from '" ++ outputDir config ++ "';")
                                  "Usage");
                       say (Outro ("Added " ++ pretty (length added) ++ " "
                                   ++ if (length added =? 1)%nat
                                      then "country" else "countries"))
                     else mret tt
               end
         end)
        (λ error,
          _ ← say SpinnerStop;
          _ ← set_exitCode 1;
          _ ← say (LogError (errorMessage error));
          say ConsoleLog)
  end.

(** ** Fixtures of registry.test.ts *)

Definition makeConfig (langs : list string) (coords : bool) : GeoDataConfig :=
  {| schema_url := None;
     outputDir := "./src/data/geo";
     languages := langs;
     includeCoordinates := coords;
     typescript := true |}.

Definition makeSampleCountry : CountryData :=
  {| code := "sa";
     iso3 := Some "SAU";
     name := {[ "en" := "Saudi Arabia"; "ar" := "المملكة العربية السعودية";
                "fr" := "Arabie saoudite" ]};
     phone := "+966";
     currency := "SAR";
     timezone := "Asia/Riyadh";
     flag := "🇸🇦";
     regions :=
       [ {| region_code := "01";
            region_name := {[ "en" := "Riyadh Region"; "ar" := "منطقة الرياض";
                              "fr" := "Région de Riyad" ]};
            cities :=
              [ {| city_name := {[ "en" := "Riyadh"; "ar" := "الرياض"; "fr" := "Riyad" ]};
                   latitude := Some (247136 # 10000)%Q;
                   longitude := Some (466753 # 10000)%Q |};
                {| city_name := {[ "en" := "Diriyah"; "ar" := "الدرعية" ]};
                   latitude := Some (247343 # 10000)%Q;
                   longitude := Some (465725 # 10000)%Q |} ] |} ] |}.

Definition makeCountryWithZeroCoords : CountryData :=
  {| code := "test";
     iso3 := None;
     name := {[ "en" := "Test Country" ]};
     phone := "+0";
     currency := "TST";
     timezone := "UTC";
     flag := "🏳️";
     regions :=
       [ {| region_code := "01";
            region_name := {[ "en" := "Test Region" ]};
            cities :=
              [ {| city_name := {[ "en" := "Zero City" ]};
                   latitude := Some (0 # 1)%Q;
                   longitude := Some (0 # 1)%Q |};
                {| city_name := {[ "en" := "Equator City" ]};
                   latitude := Some (0 # 1)%Q;
                   longitude := Some (466753 # 10000)%Q |} ] |} ] |}.

(** A city on the equator whose longitude is not recorded, and a dataset
    holding it: both are accepted by the schemas. *)
Definition equatorOnly : City :=
  {| city_name := {[ "en" := "Equator Only" ]};
     latitude := Some (0 # 1)%Q;
     longitude := None |}.

Definition countryWithEquatorOnly : CountryData :=
  {| code := "test";
     iso3 := None;
     name := {[ "en" := "Test Country" ]};
     phone := "+0";
     currency := "TST";
     timezone := "UTC";
     flag := "";
     regions :=
       [ {| region_code := "01";
            region_name := {[ "en" := "Test Region" ]};
            cities := [ equatorOnly ] |} ] |}.

(** A dataset whose English country name is the empty string. *)
Definition countryWithEmptyEnglish : CountryData :=
  {| code := "xx";
     iso3 := None;
     name := {[ "en" := ""; "fr" := "Pays" ]};
     phone := "+0";
     currency := "TST";
     timezone := "UTC";
     flag := "";
     regions := [] |}.

(** [makeCountryWithZeroCoords] with its first city only, and a heap in which
    it lies at address 7. *)
Definition zeroCityCountry : CountryData :=
  {| code := "test";
     iso3 := None;
     name := {[ "en" := "Test Country" ]};
     phone := "+0";
     currency := "TST";
     timezone := "UTC";
     flag := "🏳️";
     regions :=
       [ {| region_code := "01";
            region_name := {[ "en" := "Test Region" ]};
            cities :=
              [ {| city_name := {[ "en" := "Zero City" ]};
                   latitude := Some (0 # 1)%Q;
                   longitude := Some (0 # 1)%Q |} ] |} ] |}.

Definition zeroCityHeap : list Heap.object :=
  [ Heap.Obj (Heap.VStr <$> {[ "en" := "Test Country" ]});
    Heap.Obj (Heap.VStr <$> {[ "en" := "Test Region" ]});
    Heap.Obj (Heap.VStr <$> {[ "en" := "Zero City" ]});
    Heap.Obj {[ "name" := Heap.VRef 2;
                "latitude" := Heap.VNum (0 # 1)%Q;
                "longitude" := Heap.VNum (0 # 1)%Q ]};
    Heap.Arr [Heap.VRef 3];
    Heap.Obj {[ "code" := Heap.VStr "01";
                "name" := Heap.VRef 1;
                "cities" := Heap.VRef 4 ]};
    Heap.Arr [Heap.VRef 5];
    Heap.Obj {[ "code" := Heap.VStr "test";
                "name" := Heap.VRef 0;
                "phone" := Heap.VStr "+0";
                "currency" := Heap.VStr "TST";
                "timezone" := Heap.VStr "UTC";
                "flag" := Heap.VStr "🏳️";
                "regions" := Heap.VRef 6 ]} ].


(** ** Worlds for the scenarios of the specification *)

(** The default of [REGISTRY_BASE]. *)
Definition cdn : string :=
  "https://cdn.jsdelivr.net/gh/H4ck3r-x0/geo-data@main/registry".

Definition hour : Z := 60 * 60 * 1000.

(** A reachable registry that answers every request with [payload]. *)
Definition online (now : Z) (payload : json) : env :=
  {| REGISTRY_BASE := cdn;
     Date_now := now;
     path_join := String.concat "/";
     readJson := λ _, Thrown (Error "ENOENT");
     fetch_ := λ _, Returned payload |}.

(** An unreachable registry. *)
Definition offline (now : Z) : env :=
  {| REGISTRY_BASE := cdn;
     Date_now := now;
     path_join := String.concat "/";
     readJson := λ _, Thrown (Error "ENOENT");
     fetch_ := λ _, Thrown (Error "fetch failed") |}.

Definition emptyWorld : world :=
  {| cache := ∅; warnings := []; requests := [] |}.

(** A cache holding one file, written at [mtime]. *)
Definition worldWith (cacheKey : string) (mtime : Z) (data : json) : world :=
  {| cache := {[ cacheKey := {| mtimeMs := mtime; contents := data |} ]};
     warnings := [];
     requests := [] |}.

Definition sampleIndex : RegistryIndex :=
  {| version := "0.0.1";
     countries :=
       {[ "sa" := {| entry_name := {| en := "Saudi Arabia";
                                      ar := Some "المملكة العربية السعودية" |};
                     entry_flag := "🇸🇦";
                     entry_languages := ["ar"; "en"; "fr"] |} ]} |}.

(** A well-formed JSON document that neither schema accepts. *)
Definition malformed : json := JObj [("version", JNum (1 # 1)%Q)].

(** A registry mirrored in a local directory, every file of which reads as
    [payload]; the network is unreachable. *)
Definition localMirror (now : Z) (payload : json) : env :=
  {| REGISTRY_BASE := "/srv/geo-data/registry";
     Date_now := now;
     path_join := String.concat "/";
     readJson := λ _, Returned payload;
     fetch_ := λ _, Thrown (Error "fetch failed") |}.

(** A project whose [geo-data.json] holds [c]. *)
Definition project (c : GeoDataConfig) : config_env :=
  {| config_file := Some (Returned (configToJson c));
     zod_message := λ _, "Invalid input" |}.

(** A reachable registry that serves [index] and the dataset of one country,
    and answers every other request with an error. *)
Definition serving (now : Z) (index : RegistryIndex) (code : string)
    (data : CountryData) : env :=
  {| REGISTRY_BASE := cdn;
     Date_now := now;
     path_join := String.concat "/";
     readJson := λ _, Thrown (Error "ENOENT");
     fetch_ := λ url,
       if String.eqb url (cdn ++ "/index.json")
       then Returned (ToJson.registryIndex index)
       else if String.eqb url (cdn ++ "/countries/" ++ code ++ ".json")
            then Returned (ToJson.countryData data)
            else Thrown (Error "Failed to fetch") |}.

(** A file system on which every operation succeeds. *)
Definition disk : fs_env :=
  {| readdir_error := None; writeJson_error := λ _, None; ensureDir_error := None;
     writeIndex_error := None |}.

(** An output directory with two installed countries, one of them unknown
    to [sampleIndex], and a stray file. *)
Definition twoInstalled : process :=
  {| registry_world := emptyWorld;
     output_files :=
       {[ "sa.json" := JsonFile JNull;
          "xx.json" := JsonFile JNull;
          "README.md" := OtherFile "geo data" ]};
     exitCode := None;
     terminal := [] |}.

(** A user who declines every prompt, and a matcher that finds nothing. *)
Definition declining : prompt_env :=
  {| confirm := λ _, Some false; findBestMatch := λ _ _, Returned None |}.

(** ** Vocabulary of the properties *)

(** The entry of [name] at [k] when it is truthy: what the loop of
    [filterName] copies. *)
Definition kept (name : gmap string string) (k : string) : option string :=
  match name !! k with
  | Some v => if Js.truthy v then Some v else None
  | None => None
  end.

(** The English entry of [orig], when it is a non-empty string, is found
    unchanged in [new]. *)
Definition en_preserved (orig new : gmap string string) : Prop :=
  ∀ v, orig !! "en" = Some v → v ≠ "" → new !! "en" = Some v.


(** A cache file is fresh for [maxAgeMs] at the time of [E]. *)
Definition fresh (E : env) (maxAgeMs : Z) (stat : cache_file) : Prop :=
  Date_now E - mtimeMs stat < maxAgeMs.

Definition no_fresh_entry (E : env) (w : world) (cacheKey : string) (maxAgeMs : Z)
  : Prop :=
  ∀ stat, cache w !! cacheKey = Some stat → ¬ fresh E maxAgeMs stat.

(** [readCache] has nothing to serve: there is no file, or it is too old, or
    what it holds is falsy, so that the caller goes on to fetch. *)
Definition unserved (E : env) (w : world) (cacheKey : string) (maxAgeMs : Z)
  : Prop :=
  ∀ stat, cache w !! cacheKey = Some stat → fresh E maxAgeMs stat →
          json_truthy (contents stat) = false.

(** Every entry under a key the resolvers use holds a payload that passes
    the schema of that key. *)
Definition cache_valid (c : gmap string cache_file) : Prop :=
  (∀ stat, c !! "registry-index" = Some stat →
           is_Some (RegistryIndexSchema (Some (contents stat)))) ∧
  (∀ code stat, c !! ("country-" ++ code) = Some stat →
                is_Some (CountryDataSchema (Some (contents stat)))).

(** The world after one more warning, one more request, one more cache
    write. *)
Definition warned (msg : warning) (w : world) : world :=
  {| cache := cache w; warnings := warnings w ++ [msg]; requests := requests w |}.

Definition requested (url : string) (w : world) : world :=
  {| cache := cache w; warnings := warnings w; requests := requests w ++ [url] |}.

Definition stored (E : env) (cacheKey : string) (data : json) (w : world) : world :=
  {| cache := <[cacheKey := {| mtimeMs := Date_now E; contents := data |}]> (cache w);
     warnings := warnings w;
     requests := requests w |}.

(** The common end of a remote [fetchRegistry]: validate the payload, then
    warn and return [null], or write the cache and return the index. *)
Definition index_outcome (E : env) (data : json) (w : world)
  : outcome (option RegistryIndex) * world :=
  match RegistryIndexSchema (Some data) with
  | None => (Returned None, warned IndexFailedValidation w)
  | Some d => (Returned (Some d), stored E "registry-index" (ToJson.registryIndex d) w)
  end.

(** The same for a remote [fetchCountry]. *)
Definition country_outcome (E : env) (code : string) (config : GeoDataConfig)
    (raw : json) (w : world) : outcome (option CountryData) * world :=
  match CountryDataSchema (Some raw) with
  | None => (Returned None, warned (CountryFailedValidation code) w)
  | Some d =>
      (Returned (Some (filterCountryData d config)),
       stored E ("country-" ++ code) (ToJson.countryData d) w)
  end.

(** The warnings [validateConfig] logs for a list of languages: one for each
    language that is not among [VALID_LANGUAGES], in the order of the list. *)
Definition unknown_language_warnings (langs : list string) : list ui_event :=
  (λ lang, LogWarn ("Unknown language code " ++ dquote ++ lang ++ dquote)) <$>
    filter (λ lang, lang ∉ VALID_LANGUAGES) langs.

(** The world [w] with the cache directory replaced by [c]. *)
Definition with_cache (c : gmap string cache_file) (w : world) : world :=
  {| cache := c; warnings := warnings w; requests := requests w |}.

(** [fetchRegistry] called once in each of the environments [Es], one call
    after the other: the outcomes, and the world at the end. *)
Fixpoint fetchRegistry_each (Es : list env) (w : world)
  : list (outcome (option RegistryIndex)) * world :=
  match Es with
  | [] => ([], w)
  | E :: Es' =>
      let run := fetchRegistry E w in
      let rest := fetchRegistry_each Es' run.2 in
      (run.1 :: rest.1, rest.2)
  end.

(** Each environment of [Es] is a remote one whose clock is less than
    [window] past that of the one before it, the first one less than
    [window] past [t]. *)
Fixpoint each_within (window : Z) (t : Z) (Es : list env) : Prop :=
  match Es with
  | [] => True
  | E :: Es' =>
      isRemoteRegistry (REGISTRY_BASE E) = true ∧
      Date_now E - t < window ∧
      each_within window (Date_now E) Es'
  end.

(** A file name without a dot: a country code as the registry has them. *)
Fixpoint dotless (s : string) : Prop :=
  match s with
  | EmptyString => True
  | String c s' => c ≠ "."%char ∧ dotless s'
  end.

(** The codes of a list that the loop of [update] takes as listed: those
    under which [registry.countries] holds something truthy, up to the first
    one, if any, for which building the text of the spinner throws. *)
Fixpoint listed (registry : RegistryIndex) (codes : list string) : list string :=
  match codes with
  | [] => []
  | code :: rest =>
      match countries_get registry code with
      | NotListed => listed registry rest
      | InheritedPrototype => []
      | _ => code :: listed registry rest
      end
  end.

(** The world after resolving each code of a list in turn. *)
Definition resolve_each (E : env) (config : GeoDataConfig) (codes : list string)
    (w : world) : world :=
  foldl (λ w code, (fetchCountry E code config w).2) w codes.

(** Every data file of the directory is named by a code without a dot. *)
Definition named_by_code (files : gmap string file) : Prop :=
  ∀ f, is_Some (files !! f) → Js.endsWith f ".json" = true →
       ∃ code, dotless code ∧ f = code ++ ".json".

(** The name of the module [generateIndex] writes. *)
Definition index_file (config : GeoDataConfig) : string :=
  "index." ++ if typescript config then "ts" else "js".

(** What [update] starts from: the config it loads, the codes it finds
    installed, the index it resolves and the world after that. *)
Definition update_starts (C : config_env) (E : env) (F : fs_env) (s : process)
    (config : GeoDataConfig) (installed : list string) (registry : RegistryIndex)
    (w1 : world) : Prop :=
  (requireConfig C "Update Countries" (terminal s)).1 = Returned (Some config) ∧
  installed = getInstalledCountries (readdir F (output_files s)) ∧
  installed ≠ [] ∧
  fetchRegistry E (registry_world s) = (Returned (Some registry), w1).

(** What [add] starts from: the config it loads, the index it resolves, the
    world after that, and the codes asked for, all of them listed. *)
Definition add_starts (C : config_env) (E : env) (s : process)
    (countryCodes : list string) (config : GeoDataConfig) (registry : RegistryIndex)
    (w1 : world) : Prop :=
  (requireConfig C "Add Countries" (terminal s)).1 = Returned (Some config) ∧
  fetchRegistry E (registry_world s) = (Returned (Some registry), w1) ∧
  Forall (λ code, is_Some (countries registry !! code)) (toLowerCase <$> countryCodes).

(** The codes whose file is in the output directory. *)
Definition existing_codes (s : process) (codes : list string) : list string :=
  filter (λ code, is_Some (output_files s !! (code ++ ".json"))) codes.

(** The codes [add] goes through: all of them when it is forced or the user
    confirms the overwrite, the new ones otherwise. *)
Definition chosen_codes (P : prompt_env) (options : CommandOptions) (s : process)
    (codes : list string) : list string :=
  if force options || bool_decide (confirm P "Overwrite existing countries?" = Some true)
  then codes
  else filter (λ c, c ∉ existing_codes s codes) codes.

(** What [filterName] keeps of [name[k]]: the value when it is truthy. *)
Definition found (name : gmap string Proto.value) (k : string) : option Proto.value :=
  match Proto.get name k with
  | Some v => if Proto.truthy v then Some v else None
  | None => None
  end.

(** No language of the config that names a function of [Object.prototype]
    finds the empty string under its own name in the map. *)
Definition no_empty_member (config : GeoDataConfig) (name : gmap string string) : Prop :=
  ∀ k, k ∈ languages config → k ∈ Object_prototype_functions → name !! k ≠ Some "".

Definition no_empty_member_region (config : GeoDataConfig) (r : Region) : Prop :=
  no_empty_member config (region_name r) ∧
  Forall (λ c, no_empty_member config (city_name c)) (cities r).

Definition no_empty_member_data (config : GeoDataConfig) (d : CountryData) : Prop :=
  no_empty_member config (name d) ∧
  Forall (no_empty_member_region config) (regions d).

(** The map has no own key [__proto__]. *)
Definition no_own_proto {A} (name : gmap string A) : Prop := name !! "__proto__" = None.

Definition no_own_proto_region (r : Region) : Prop :=
  no_own_proto (region_name r) ∧ Forall (λ c, no_own_proto (city_name c)) (cities r).

Definition no_own_proto_data (d : CountryData) : Prop :=
  no_own_proto (name d) ∧ Forall no_own_proto_region (regions d).

(** What lets [add] past its check of the codes: the config it loads, the
    index it resolves, the world after that, and the codes asked for, under
    each of which [registry.countries] holds something truthy. *)
Definition add_passes (C : config_env) (E : env) (s : process)
    (countryCodes : list string) (config : GeoDataConfig) (registry : RegistryIndex)
    (w1 : world) : Prop :=
  (requireConfig C "Add Countries" (terminal s)).1 = Returned (Some config) ∧
  fetchRegistry E (registry_world s) = (Returned (Some registry), w1) ∧
  Forall (λ code, info_truthy (countries_get registry code) = true)
    (toLowerCase <$> countryCodes).

(** * Properties *)

(** ** The filter *)

Section filter_facts.
Context (config : GeoDataConfig).

Lemma kept_Some name k v :
  kept name k = Some v ↔ name !! k = Some v ∧ Js.truthy v = true.
Proof.
  unfold kept. split.
  - destruct (name !! k) as [u|]; [|done].
    destruct (Js.truthy u) eqn:Hu; [|done]. by intros [= <-].
  - intros [-> ->]. done.
Qed.

Lemma filterName_loop_lookup name (langs : list string) (acc : gmap string string) k :
  foldl (λ (filtered : gmap string string) lang,
           match name !! lang with
           | Some v => if Js.truthy v then <[lang := v]> filtered else filtered
           | None => filtered
           end) acc langs !! k
  = if bool_decide (k ∈ langs)
    then match kept name k with Some v => Some v | None => acc !! k end
    else acc !! k.
Proof.
  revert acc. induction langs as [|lang langs IH]; intros acc; cbn [foldl].
  { by rewrite bool_decide_eq_false_2 by apply not_elem_of_nil. }
  rewrite IH. destruct (decide (k = lang)) as [->|Hne].
  - rewrite (bool_decide_eq_true_2 (lang ∈ lang :: langs)) by left.
    unfold kept. destruct (name !! lang) as [v|] eqn:Hv.
    + destruct (Js.truthy v); [|by case_bool_decide].
      rewrite lookup_insert_eq. by case_bool_decide.
    + by case_bool_decide.
  - assert ((match name !! lang with
             | Some v => if Js.truthy v then <[lang := v]> acc else acc
             | None => acc
             end) !! k = acc !! k) as ->.
    { destruct (name !! lang) as [v|]; [|done].
      destruct (Js.truthy v); [|done]. by rewrite lookup_insert_ne. }
    rewrite (bool_decide_ext (k ∈ lang :: langs) (k ∈ langs)); [done|].
    rewrite elem_of_cons. tauto.
Qed.

(** [filterName] keeps exactly the truthy entries whose key is a configured
    language or [en]. *)
Lemma filterName_lookup name k :
  filterName config name !! k
  = if bool_decide (k ∈ languages config ∨ k = "en") then kept name k else None.
Proof.
  unfold filterName.
  destruct (name !! "en") as [v|] eqn:Hen.
  - rewrite (filterName_loop_lookup name (languages config) ∅ "en").
    rewrite lookup_empty.
    destruct (decide ("en" ∈ languages config)) as [Hin|Hin].
    + rewrite (bool_decide_eq_true_2 _ Hin).
      assert (negb (Js.truthy_prop
                (match kept name "en" with Some v0 => Some v0 | None => None end))
              && Js.truthy v = false) as ->.
      { unfold kept. rewrite Hen.
        destruct (Js.truthy v) eqn:Hv; simpl; by rewrite ?Hv. }
      rewrite filterName_loop_lookup, lookup_empty.
      destruct (decide (k = "en")) as [->|Hk].
      * rewrite !bool_decide_eq_true_2 by auto. by destruct (kept name "en").
      * rewrite (bool_decide_ext (k ∈ languages config ∨ k = "en") (k ∈ languages config))
          by tauto.
        case_bool_decide; [by destruct (kept name k)|done].
    + rewrite (bool_decide_eq_false_2 _ Hin). simpl.
      destruct (Js.truthy v) eqn:Hv.
      * destruct (decide (k = "en")) as [->|Hk].
        -- rewrite lookup_insert_eq, bool_decide_eq_true_2 by auto.
           unfold kept. by rewrite Hen, Hv.
        -- rewrite lookup_insert_ne by done.
           rewrite filterName_loop_lookup, lookup_empty.
           rewrite (bool_decide_ext (k ∈ languages config ∨ k = "en") (k ∈ languages config))
             by tauto.
           case_bool_decide; [by destruct (kept name k)|done].
      * rewrite filterName_loop_lookup, lookup_empty.
        destruct (decide (k = "en")) as [->|Hk].
        -- rewrite bool_decide_eq_false_2 by done.
           rewrite bool_decide_eq_true_2 by auto.
           unfold kept. by rewrite Hen, Hv.
        -- rewrite (bool_decide_ext (k ∈ languages config ∨ k = "en") (k ∈ languages config))
             by tauto.
           case_bool_decide; [by destruct (kept name k)|done].
  - rewrite filterName_loop_lookup, lookup_empty.
    destruct (decide (k = "en")) as [->|Hk].
    + rewrite (bool_decide_eq_true_2 ("en" ∈ languages config ∨ _)) by auto.
      unfold kept. rewrite Hen. by case_bool_decide.
    + rewrite (bool_decide_ext (k ∈ languages config ∨ k = "en") (k ∈ languages config))
        by tauto.
      case_bool_decide; [by destruct (kept name k)|done].
Qed.

End filter_facts.

(** ** The filter and the prototype chain *)

Section proto_facts.
Context (config : GeoDataConfig).

Lemma en_not_function : "en" ∉ Object_prototype_functions.
Proof. by apply (proj1 (bool_decide_eq_false _)). Qed.

Lemma get_en (o : gmap string Proto.value) : Proto.get o "en" = o !! "en".
Proof. unfold Proto.get. by destruct (o !! "en"). Qed.

Lemma get_own (o : gmap string Proto.value) k v :
  o !! k = Some v → Proto.get o k = Some v.
Proof. unfold Proto.get. by intros ->. Qed.

Lemma found_truthy name k v : found name k = Some v → Proto.truthy v = true.
Proof.
  unfold found. destruct (Proto.get name k) as [u|]; [|done].
  destruct (Proto.truthy u) eqn:Hu; [|done]. by intros [= <-].
Qed.

Lemma found_Some name k v :
  found name k = Some v ↔ Proto.get name k = Some v ∧ Proto.truthy v = true.
Proof.
  unfold found. split.
  - destruct (Proto.get name k) as [u|]; [|done].
    destruct (Proto.truthy u) eqn:Hu; [|done]. by intros [= <-].
  - by intros [-> ->].
Qed.

Lemma set_lookup (o : gmap string Proto.value) lang v k :
  Proto.set o lang v !! k
  = if bool_decide (k = lang ∧ k ≠ "__proto__") then Some v else o !! k.
Proof.
  unfold Proto.set. destruct (String.eqb lang "__proto__") eqn:Hp.
  - apply String.eqb_eq in Hp as ->. rewrite bool_decide_eq_false_2; [done|tauto].
  - apply String.eqb_neq in Hp. destruct (decide (k = lang)) as [->|Hne].
    + by rewrite lookup_insert_eq, bool_decide_eq_true_2.
    + rewrite lookup_insert_ne by done. rewrite bool_decide_eq_false_2; [done|tauto].
Qed.

Lemma proto_loop_lookup name (langs : list string) (acc : gmap string Proto.value) k :
  foldl (λ (filtered : gmap string Proto.value) lang,
           match Proto.get name lang with
           | Some v => if Proto.truthy v then Proto.set filtered lang v else filtered
           | None => filtered
           end) acc langs !! k
  = if bool_decide (k ∈ langs ∧ k ≠ "__proto__")
    then match found name k with Some v => Some v | None => acc !! k end
    else acc !! k.
Proof.
  revert acc. induction langs as [|lang langs IH]; intros acc; cbn [foldl].
  { rewrite bool_decide_eq_false_2; [done|]. intros [?%elem_of_nil _]. done. }
  rewrite IH.
  assert ((match Proto.get name lang with
           | Some v => if Proto.truthy v then Proto.set acc lang v else acc
           | None => acc
           end) !! k
          = if bool_decide (k = lang ∧ k ≠ "__proto__")
            then match found name k with Some v => Some v | None => acc !! k end
            else acc !! k) as ->.
  { clear IH. unfold found.
    destruct (decide (k = lang ∧ k ≠ "__proto__")) as [[-> Hk]|Hk].
    - rewrite bool_decide_eq_true_2 by done.
      destruct (Proto.get name lang) as [v|]; [|done].
      destruct (Proto.truthy v); [|done].
      rewrite set_lookup. by rewrite bool_decide_eq_true_2 by done.
    - rewrite bool_decide_eq_false_2 by done.
      destruct (Proto.get name lang) as [v|]; [|done].
      destruct (Proto.truthy v); [|done].
      rewrite set_lookup. by rewrite bool_decide_eq_false_2 by done. }
  destruct (decide (k = lang ∧ k ≠ "__proto__")) as [[-> Hk]|Hne].
  - rewrite (bool_decide_eq_true_2 (lang = lang ∧ _)) by done.
    rewrite (bool_decide_eq_true_2 (lang ∈ lang :: langs ∧ _))
      by (split; [by left|done]).
    case_bool_decide; by destruct (found name lang).
  - rewrite (bool_decide_eq_false_2 (k = lang ∧ _)) by done.
    rewrite (bool_decide_ext (k ∈ lang :: langs ∧ k ≠ "__proto__")
               (k ∈ langs ∧ k ≠ "__proto__")); [done|].
    rewrite elem_of_cons. tauto.
Qed.

(** [filterName] keeps exactly what [name[k]] finds truthy for a configured
    language or [en], and never an own [__proto__]. *)
Lemma proto_filterName_lookup name k :
  Proto.filterName config name !! k
  = if bool_decide ((k ∈ languages config ∨ k = "en") ∧ k ≠ "__proto__")
    then found name k else None.
Proof.
  unfold Proto.filterName. rewrite !get_en.
  set (loop := foldl _ ∅ (languages config)).
  assert (∀ k', loop !! k'
                = if bool_decide (k' ∈ languages config ∧ k' ≠ "__proto__")
                  then found name k' else None) as Hloop.
  { intros k'. unfold loop. rewrite proto_loop_lookup, lookup_empty.
    case_bool_decide; [by destruct (found name k')|done]. }
  assert (found name "en" = match name !! "en" with
                            | Some v => if Proto.truthy v then Some v else None
                            | None => None
                            end) as Hen.
  { unfold found. by rewrite get_en. }
  assert (∀ b : bool,
            (if b then found name k else None)
            = (if bool_decide ((k ∈ languages config ∨ k = "en") ∧ k ≠ "__proto__")
               then found name k else None) ↔
            (found name k = None ∨
             (b = true ↔ (k ∈ languages config ∨ k = "en") ∧ k ≠ "__proto__"))) as Hif.
  { intros b. case_bool_decide as Hc; destruct b, (found name k); split;
      intros; try done; try tauto; try (by left); try (by right).
    all: match goal with H : _ ∨ _ |- _ => destruct H as [?|H]; [done|] end.
    all: try (destruct Hc; by apply H). all: try (by apply H in Hc). }
  destruct (name !! "en") as [v|] eqn:Hv.
  2: { rewrite Hloop. apply Hif. destruct (decide (k = "en")) as [->|Hk].
       - left. by rewrite Hen.
       - right. rewrite bool_decide_eq_true. tauto. }
  rewrite (Hloop "en").
  destruct (Proto.truthy v) eqn:Ht.
  2: { rewrite andb_false_r, Hloop. apply Hif. destruct (decide (k = "en")) as [->|Hk].
       - left. by rewrite Hen.
       - right. rewrite bool_decide_eq_true. tauto. }
  rewrite andb_true_r.
  destruct (decide ("en" ∈ languages config)) as [Hin|Hin].
  - rewrite (bool_decide_eq_true_2 ("en" ∈ _ ∧ _)) by done.
    rewrite Hen. cbn [Proto.truthy_prop negb]. rewrite Ht. cbn [negb].
    rewrite Hloop. apply Hif. right. rewrite bool_decide_eq_true.
    split; [tauto|]. intros [[?| ->] ?]; [done|]. done.
  - rewrite (bool_decide_eq_false_2 ("en" ∈ _ ∧ _)) by tauto.
    cbn [Proto.truthy_prop negb]. rewrite set_lookup.
    destruct (decide (k = "en")) as [->|Hk].
    + rewrite !bool_decide_eq_true_2 by (split; [auto|done]). by rewrite Hen.
    + rewrite (bool_decide_eq_false_2 (k = "en" ∧ _)) by tauto.
      rewrite Hloop. apply Hif. right. rewrite bool_decide_eq_true. tauto.
Qed.

End proto_facts.

Section proto_strings.
Context (config : GeoDataConfig).

(** On a map of strings, [name[k]] finds nothing truthy only where the key is
    missing and names no member, or where it holds the empty string. *)
Lemma found_strings (name : gmap string string) k :
  found (Proto.Str <$> name) k
  = match name !! k with
    | Some s => if Js.truthy s then Some (Proto.Str s) else None
    | None =>
        if String.eqb k "__proto__" then Some Proto.ObjectPrototype
        else if bool_decide (k ∈ Object_prototype_functions) then Some (Proto.Fn k)
        else None
    end.
Proof.
  unfold found, Proto.get. rewrite lookup_fmap.
  destruct (name !! k) as [s|]; cbn; [done|].
  destruct (String.eqb k "__proto__"); [done|]. by case_bool_decide.
Qed.

Lemma written_found (name : gmap string string) k :
  found (Proto.Str <$> name) k
    ≫= (λ v, match v with Proto.Str s => Some s | _ => None end)
  = kept name k.
Proof.
  rewrite found_strings. unfold kept. destruct (name !! k) as [s|]; cbn.
  - by destruct (Js.truthy s).
  - destruct (String.eqb k "__proto__"); [done|]. by case_bool_decide.
Qed.

(** The filter on records is what [JSON.stringify] writes of the filtered
    object. *)
Lemma written_filterName (name : gmap string string) :
  no_own_proto name →
  Proto.written (Proto.filterName config (Proto.Str <$> name)) = filterName config name.
Proof.
  intros Hproto. apply map_eq. intros k. unfold Proto.written.
  rewrite lookup_omap, proto_filterName_lookup, filterName_lookup.
  destruct (decide (k = "__proto__")) as [->|Hk].
  - rewrite bool_decide_eq_false_2 by tauto. cbn.
    case_bool_decide; [|done]. unfold kept. unfold no_own_proto in Hproto.
    by rewrite Hproto.
  - rewrite (bool_decide_ext ((k ∈ languages config ∨ k = "en") ∧ k ≠ "__proto__")
               (k ∈ languages config ∨ k = "en")) by tauto.
    case_bool_decide; [|done]. apply written_found.
Qed.

End proto_strings.

Section proto_narrower.
Context (c1 c2 : GeoDataConfig).
Context (Hlangs : languages c1 ⊆ languages c2).
Context (Hcoords : includeCoordinates c1 = true → includeCoordinates c2 = true).

Lemma proto_filterName_narrower (name : gmap string string) :
  no_empty_member c1 name →
  Proto.filterName c1 (Proto.filterName c2 (Proto.Str <$> name))
  = Proto.filterName c1 (Proto.Str <$> name).
Proof using Hlangs.
  intros Hname. apply map_eq. intros k. rewrite !proto_filterName_lookup.
  case_bool_decide as Hk; [|done].
  unfold found at 1. unfold Proto.get. rewrite proto_filterName_lookup.
  rewrite bool_decide_eq_true_2.
  2: { destruct Hk as [[Hk| ->] Hp]; (split; [|done]); [left; by apply Hlangs|by right]. }
  destruct (found (Proto.Str <$> name) k) as [v|] eqn:Hfound.
  { by rewrite (found_truthy _ _ _ Hfound). }
  destruct Hk as [Hk Hp]. apply String.eqb_neq in Hp. rewrite Hp.
  case_bool_decide as Hmember; [|done]. exfalso.
  rewrite found_strings in Hfound. destruct (name !! k) as [s|] eqn:Hs.
  - destruct Hk as [Hk| ->]; [|by destruct en_not_function].
    apply (Hname k Hk Hmember). rewrite Hs. f_equal.
    unfold Js.truthy in Hfound. destruct (String.eqb s "") eqn:Heq; [|done].
    by apply String.eqb_eq in Heq.
  - rewrite Hp in Hfound. by rewrite bool_decide_eq_true_2 in Hfound.
Qed.

Lemma proto_filterCity_narrower (city : City) :
  no_empty_member c1 (city_name city) →
  Proto.filterCity c1 (Proto.filterCity c2 (object_of_city city))
  = Proto.filterCity c1 (object_of_city city).
Proof using Hlangs Hcoords.
  intros Hname. unfold Proto.filterCity, object_of_city.
  cbn [Proto.city_name Proto.latitude Proto.longitude].
  destruct (includeCoordinates c1) eqn:H1.
  - rewrite (Hcoords eq_refl).
    destruct (latitude city), (longitude city); cbn;
      by rewrite proto_filterName_narrower.
  - destruct (includeCoordinates c2), (latitude city), (longitude city); cbn;
      by rewrite proto_filterName_narrower.
Qed.

Lemma proto_filterRegion_narrower (r : Region) :
  no_empty_member_region c1 r →
  Proto.filterRegion c1 (Proto.filterRegion c2 (object_of_region r))
  = Proto.filterRegion c1 (object_of_region r).
Proof using Hlangs Hcoords.
  intros [Hname Hcities]. unfold Proto.filterRegion, object_of_region.
  cbn [Proto.region_code Proto.region_name Proto.cities].
  rewrite proto_filterName_narrower by done. f_equal.
  rewrite <- !list_fmap_compose. apply Forall_fmap_ext.
  eapply Forall_impl; [exact Hcities|]. intros city Hcity. unfold compose.
  by apply proto_filterCity_narrower.
Qed.

End proto_narrower.

Lemma written_filterCity (c : GeoDataConfig) (city : City) :
  no_own_proto (city_name city) →
  written_city (Proto.filterCity c (object_of_city city)) = filterCity c city.
Proof.
  intros Hname. unfold written_city, Proto.filterCity, filterCity, object_of_city.
  cbn [Proto.city_name Proto.latitude Proto.longitude].
  destruct (includeCoordinates c), (latitude city), (longitude city);
    cbn [Proto.city_name Proto.latitude Proto.longitude city_name];
    by rewrite written_filterName.
Qed.

Lemma written_filterRegion (c : GeoDataConfig) (r : Region) :
  no_own_proto_region r →
  written_region (Proto.filterRegion c (object_of_region r)) = filterRegion c r.
Proof.
  intros [Hname Hcities]. unfold written_region, Proto.filterRegion, filterRegion.
  unfold object_of_region. cbn [Proto.region_code Proto.region_name Proto.cities].
  rewrite written_filterName by done. f_equal.
  rewrite <- !list_fmap_compose. apply Forall_fmap_ext.
  eapply Forall_impl; [exact Hcities|]. intros city Hcity. unfold compose.
  by apply written_filterCity.
Qed.

(** The filter on records is what [JSON.stringify] writes of the object the
    program returns, for a dataset whose names have no own [__proto__]. *)
Lemma written_filterCountryData (d : CountryData) (c : GeoDataConfig) :
  no_own_proto_data d →
  written_data (Proto.filterCountryData (object_of_data d) c) = filterCountryData d c.
Proof.
  intros [Hname Hregions]. unfold written_data, Proto.filterCountryData.
  unfold filterCountryData, object_of_data.
  cbn [Proto.name Proto.regions Proto.code Proto.iso3 Proto.phone Proto.currency
       Proto.timezone Proto.flag].
  rewrite written_filterName by done. f_equal.
  rewrite <- !list_fmap_compose. apply Forall_fmap_ext.
  eapply Forall_impl; [exact Hregions|]. intros r Hr. unfold compose.
  by apply written_filterRegion.
Qed.






(** ** The tests of registry.test.ts and helpers.test.ts, replayed *)

Example filters_to_requested_languages_plus_English :
  let result := filterCountryData makeSampleCountry (makeConfig ["ar"] true) in
  name result = {[ "en" := "Saudi Arabia"; "ar" := "المملكة العربية السعودية" ]} ∧
  (region_name <$> regions result !! 0%nat)
  = Some {[ "en" := "Riyadh Region"; "ar" := "منطقة الرياض" ]} ∧
  (city_name <$> (regions result !! 0%nat ≫= λ r, cities r !! 0%nat))
  = Some {[ "en" := "Riyadh"; "ar" := "الرياض" ]}.
Proof. repeat split; vm_compute; reflexivity. Qed.

Example handles_missing_language_names :
  name (filterCountryData makeSampleCountry (makeConfig ["ja"] true))
  = {[ "en" := "Saudi Arabia" ]}.
Proof. vm_compute. reflexivity. Qed.

Example removes_coordinates_when_not_included :
  (regions (filterCountryData makeSampleCountry (makeConfig ["en"] false))
     ≫= λ r, (λ c, (latitude c, longitude c)) <$> cities r)
  = [(None, None); (None, None)].
Proof. reflexivity. Qed.

Example preserves_coordinates_when_both_are_zero :
  (regions (filterCountryData makeCountryWithZeroCoords (makeConfig ["en"] true))
     ≫= λ r, (λ c, (latitude c, longitude c)) <$> cities r)
  = [(Some (0 # 1)%Q, Some (0 # 1)%Q); (Some (0 # 1)%Q, Some (466753 # 10000)%Q)].
Proof. reflexivity. Qed.

Example returns_country_codes_from_json_files :
  getInstalledCountries (Returned ["sa.json"; "us.json"; "index.json"]) = ["sa"; "us"] ∧
  getInstalledCountries (Returned ["index.json"]) = [] ∧
  getInstalledCountries (Returned ["sa.json"; "index.ts"; "readme.md"]) = ["sa"] ∧
  getInstalledCountries (Thrown (Error "ENOENT")) = [].
Proof. repeat split; reflexivity. Qed.

(** The listing is returned in the order of [fs.readdir]: nothing in
    [getInstalledCountries] sorts it. *)
Example installed_countries_in_listing_order :
  getInstalledCountries (Returned ["us.json"; "sa.json"]) = ["us"; "sa"].
Proof. reflexivity. Qed.

(** ** English fallback *)

Lemma truthy_nonempty v : v ≠ "" → Js.truthy v = true.
Proof.
  intros Hv. unfold Js.truthy. apply negb_true_iff. by apply String.eqb_neq.
Qed.

Lemma filterName_en_preserved config name :
  en_preserved name (filterName config name).
Proof.
  intros v Hen Hv. rewrite filterName_lookup.
  rewrite bool_decide_eq_true_2 by auto.
  apply kept_Some. auto using truthy_nonempty.
Qed.

Lemma filterCity_name config city :
  city_name (filterCity config city) = filterName config (city_name city).
Proof.
  unfold filterCity.
  by destruct (includeCoordinates config), (latitude city), (longitude city).
Qed.

Lemma filterRegion_cities config r :
  cities (filterRegion config r) = filterCity config <$> cities r.
Proof. reflexivity. Qed.

Lemma filterCountryData_regions d config :
  regions (filterCountryData d config) = filterRegion config <$> regions d.
Proof. reflexivity. Qed.

(** C6 (amended). For every dataset and config, each name map of the
    projection (the country's, each region's, each city's) holds [en] with the
    original value whenever the corresponding name map of the dataset held
    [en] with a non-empty value, whether or not [en] is a configured
    language. *)
Theorem english_fallback (d : CountryData) (c : GeoDataConfig) :
  en_preserved (name d) (name (filterCountryData d c)) ∧
  Forall2 (λ r r',
             en_preserved (region_name r) (region_name r') ∧
             Forall2 (λ city city', en_preserved (city_name city) (city_name city'))
                     (cities r) (cities r'))
          (regions d) (regions (filterCountryData d c)).
Proof.
  split; [apply filterName_en_preserved|]. rewrite filterCountryData_regions.
  apply Forall2_fmap_r, Forall_Forall2_diag, Forall_forall. intros r _.
  split; [apply filterName_en_preserved|]. rewrite filterRegion_cities.
  apply Forall2_fmap_r, Forall_Forall2_diag, Forall_forall. intros city _.
  unfold compose. rewrite filterCity_name. apply filterName_en_preserved.
Qed.

(** The fallback at work on the sample country of the tests, with a config
    that does not list English. *)
Lemma english_fallback_sample :
  name (filterCountryData makeSampleCountry (makeConfig ["fr"] true)) !! "en"
  = Some "Saudi Arabia".
Proof.
  apply (proj1 (english_fallback makeSampleCountry (makeConfig ["fr"] true))).
  - reflexivity.
  - discriminate.
Defined.

(** C6 as first stated fails: an English name that is the empty string is in
    the dataset and not in its projection, because [filterName] tests
    [name.en] for truthiness. *)
Lemma english_fallback_empty_name_dropped :
  name countryWithEmptyEnglish !! "en" = Some "" ∧
  name (filterCountryData countryWithEmptyEnglish (makeConfig ["en"] true)) !! "en"
  = None.
Proof. split; reflexivity. Qed.

(** ** Coordinates *)

Lemma filterCity_coordinates c city :
  includeCoordinates c = true →
  match latitude city, longitude city with
  | Some lat, Some lon =>
      latitude (filterCity c city) = Some lat ∧
      longitude (filterCity c city) = Some lon
  | _, _ =>
      latitude (filterCity c city) = None ∧
      longitude (filterCity c city) = None
  end.
Proof.
  intros Hc. unfold filterCity. rewrite Hc.
  by destruct (latitude city), (longitude city).
Qed.

(** C5 (amended). With [includeCoordinates = true], a city that carries both
    coordinates keeps both with their exact values, zero included; a city
    that carries only one of them keeps none: the two are copied together or
    not at all. *)
Theorem coordinates_kept_as_pair (d : CountryData) (c : GeoDataConfig)
    (i j : nat) (r : Region) (city : City) :
  includeCoordinates c = true →
  regions d !! i = Some r →
  cities r !! j = Some city →
  ∃ r' city',
    regions (filterCountryData d c) !! i = Some r' ∧
    cities r' !! j = Some city' ∧
    match latitude city, longitude city with
    | Some lat, Some lon => latitude city' = Some lat ∧ longitude city' = Some lon
    | _, _ => latitude city' = None ∧ longitude city' = None
    end.
Proof.
  intros Hc Hr Hcity.
  exists (filterRegion c r), (filterCity c city). split; [|split].
  - by rewrite filterCountryData_regions, list_lookup_fmap, Hr.
  - by rewrite filterRegion_cities, list_lookup_fmap, Hcity.
  - by apply filterCity_coordinates.
Qed.

(** The equator city of the tests: latitude [0] survives. *)
Lemma coordinates_kept_as_pair_zero :
  ∃ r' city',
    regions (filterCountryData makeCountryWithZeroCoords (makeConfig ["en"] true)) !! 0%nat
    = Some r' ∧
    cities r' !! 1%nat = Some city' ∧
    latitude city' = Some (0 # 1)%Q ∧
    longitude city' = Some (466753 # 10000)%Q.
Proof.
  exact (coordinates_kept_as_pair makeCountryWithZeroCoords (makeConfig ["en"] true)
           0 1 _ _ eq_refl eq_refl eq_refl).
Defined.

(** C5 as first stated fails: a city with latitude [0] and no longitude
    loses its latitude although [includeCoordinates] is true. *)
Lemma lone_zero_latitude_dropped :
  let d' := filterCountryData countryWithEquatorOnly (makeConfig ["en"] true) in
  latitude equatorOnly = Some (0 # 1)%Q ∧
  (cities <$> regions countryWithEquatorOnly !! 0%nat) = Some [equatorOnly] ∧
  (latitude <$> (regions d' !! 0%nat ≫= λ r, cities r !! 0%nat)) = Some None.
Proof. repeat split; reflexivity. Qed.

(** ** Schemas: what was written to the cache parses back *)

Section roundtrip.

Lemma mapM_fmap_retract {A B} (g : B → option A) (h : A → B) (l : list A) :
  (∀ x, g (h x) = Some x) → mapM g (h <$> l) = Some l.
Proof.
  intros Hgh. apply mapM_Some. apply Forall2_fmap_l.
  apply Forall_Forall2_diag, Forall_forall. intros x _. apply Hgh.
Qed.

Lemma array_toJson {A} (s : Zod.schema A) (f : A → json) (l : list A) :
  (∀ x, s (Some (f x)) = Some x) →
  Zod.array s (Some (JArr (f <$> l))) = Some l.
Proof. intros Hs. unfold Zod.array. by apply mapM_fmap_retract. Qed.

Lemma record_toJson {A} (s : Zod.schema A) (f : A → json) (m : gmap string A) :
  (∀ x, s (Some (f x)) = Some x) →
  Zod.record s (Some (ToJson.record f m)) = Some m.
Proof.
  intros Hs. unfold Zod.record, ToJson.record.
  rewrite mapM_fmap_retract.
  - simpl. by rewrite list_to_map_to_list.
  - intros [k x]. simpl. by rewrite Hs.
Qed.

Lemma string_toJson s : Zod.string_ (Some (JStr s)) = Some s.
Proof. reflexivity. Qed.

Ltac parse_step :=
  cbn -[Zod.record Zod.array ToJson.record];
  rewrite ?(record_toJson _ _ _ string_toJson).

Lemma CitySchema_toJson c : CitySchema (Some (ToJson.city c)) = Some c.
Proof.
  destruct c as [n [lat|] [lon|]]; unfold CitySchema, ToJson.city;
    by repeat parse_step.
Qed.

Lemma RegionSchema_toJson r : RegionSchema (Some (ToJson.region r)) = Some r.
Proof.
  destruct r as [c n cs]. unfold RegionSchema, ToJson.region.
  repeat parse_step. rewrite (array_toJson _ _ _ CitySchema_toJson).
  by repeat parse_step.
Qed.

Lemma CountryDataSchema_toJson d :
  CountryDataSchema (Some (ToJson.countryData d)) = Some d.
Proof.
  destruct d as [c [i|] n p cu tz f rs];
    unfold CountryDataSchema, ToJson.countryData;
    repeat parse_step; rewrite (array_toJson _ _ _ RegionSchema_toJson);
    by repeat parse_step.
Qed.

Lemma IndexEntrySchema_toJson e :
  IndexEntrySchema (Some (ToJson.indexEntry e)) = Some e.
Proof.
  destruct e as [[e [a|]] f ls]; unfold IndexEntrySchema, ToJson.indexEntry;
    repeat parse_step; rewrite (array_toJson _ _ _ string_toJson);
    by repeat parse_step.
Qed.

Lemma RegistryIndexSchema_toJson r :
  RegistryIndexSchema (Some (ToJson.registryIndex r)) = Some r.
Proof.
  destruct r as [v cs]. unfold RegistryIndexSchema, ToJson.registryIndex.
  repeat parse_step. rewrite (record_toJson _ _ _ IndexEntrySchema_toJson).
  by repeat parse_step.
Qed.

End roundtrip.

(** ** The resolvers against a remote registry *)

Ltac unfold_M :=
  unfold mbind, M_bind, mret, M_ret, try_catch, throw, warn, writeCache,
    readStaleCache.

Ltac run_remote Hremote :=
  unfold fetchRegistry, fetchCountry, index_outcome, country_outcome;
  rewrite Hremote; unfold_M.

Section remote.
Context (E : env) (Hremote : isRemoteRegistry (REGISTRY_BASE E) = true).

Lemma remote_starts_with_h : ∃ rest, REGISTRY_BASE E = String "h"%char rest.
Proof using Hremote.
  unfold isRemoteRegistry, Js.startsWith in Hremote.
  destruct (REGISTRY_BASE E) as [|c rest]; [done|].
  exists rest. cbn [String.prefix] in Hremote.
  destruct (Ascii.ascii_dec "h" c) as [<-|Hc]; [done|].
  destruct (Ascii.ascii_dec "h" c); done.
Qed.

(** A URL under a remote base is neither absolute nor dotted, so [fetchJson]
    goes to the network. *)
Lemma fetchJson_remote rest w :
  fetchJson E (REGISTRY_BASE E ++ rest) w
  = (fetch_ E (REGISTRY_BASE E ++ rest), requested (REGISTRY_BASE E ++ rest) w).
Proof using Hremote.
  destruct remote_starts_with_h as [base' ->]. reflexivity.
Qed.

Lemma readCache_fresh w cacheKey maxAgeMs stat :
  cache w !! cacheKey = Some stat → fresh E maxAgeMs stat →
  readCache E cacheKey maxAgeMs w = (Returned (contents stat), w).
Proof.
  intros Hstat Hfresh. unfold readCache. rewrite Hstat.
  by rewrite bool_decide_eq_true_2.
Qed.

Lemma readCache_no_fresh w cacheKey maxAgeMs :
  no_fresh_entry E w cacheKey maxAgeMs →
  readCache E cacheKey maxAgeMs w = (Returned JNull, w).
Proof.
  intros Hno. unfold readCache. destruct (cache w !! cacheKey) as [stat|] eqn:Hs; [|done].
  rewrite bool_decide_eq_false_2; [done|]. by apply Hno.
Qed.

Lemma no_fresh_unserved w cacheKey maxAgeMs :
  no_fresh_entry E w cacheKey maxAgeMs → unserved E w cacheKey maxAgeMs.
Proof. intros Hno stat Hstat Hfresh. by destruct (Hno stat Hstat). Qed.

Lemma readCache_unserved w cacheKey maxAgeMs :
  unserved E w cacheKey maxAgeMs →
  ∃ v, readCache E cacheKey maxAgeMs w = (Returned v, w) ∧ json_truthy v = false.
Proof.
  intros Hun. unfold readCache.
  destruct (cache w !! cacheKey) as [stat|] eqn:Hs; [|by exists JNull].
  case_bool_decide as Hfresh; [|by exists JNull].
  exists (contents stat). split; [done|]. by apply Hun.
Qed.

(** *** The four paths of [fetchRegistry] *)

Lemma fetchRegistry_hit w stat :
  cache w !! "registry-index" = Some stat →
  fresh E (60 * 60 * 1000) stat →
  json_truthy (contents stat) = true →
  fetchRegistry E w = index_outcome E (contents stat) w.
Proof using Hremote.
  intros Hstat Hfresh Htruthy. run_remote Hremote.
  rewrite (readCache_fresh _ _ _ _ Hstat Hfresh), Htruthy.
  by destruct (RegistryIndexSchema _).
Qed.

Lemma fetchRegistry_fetched w payload :
  unserved E w "registry-index" (60 * 60 * 1000) →
  fetch_ E (REGISTRY_BASE E ++ "/index.json") = Returned payload →
  fetchRegistry E w
  = index_outcome E payload (requested (REGISTRY_BASE E ++ "/index.json") w).
Proof using Hremote.
  intros Hun Hfetch. run_remote Hremote.
  destruct (readCache_unserved _ _ _ Hun) as (v & -> & ->).
  rewrite fetchJson_remote, Hfetch. by destruct (RegistryIndexSchema _).
Qed.

Lemma fetchRegistry_stale w err stat :
  no_fresh_entry E w "registry-index" (60 * 60 * 1000) →
  fetch_ E (REGISTRY_BASE E ++ "/index.json") = Thrown err →
  cache w !! "registry-index" = Some stat →
  json_truthy (contents stat) = true →
  fetchRegistry E w
  = index_outcome E (contents stat)
      (warned NetworkUnavailable (requested (REGISTRY_BASE E ++ "/index.json") w)).
Proof using Hremote.
  intros Hno Hfetch Hstat Htruthy. run_remote Hremote.
  rewrite (readCache_no_fresh _ _ _ Hno). cbn [json_truthy].
  rewrite fetchJson_remote, Hfetch. cbn [cache requested]. rewrite Hstat, Htruthy.
  by destruct (RegistryIndexSchema _).
Qed.

Lemma fetchRegistry_thrown w err :
  fetch_ E (REGISTRY_BASE E ++ "/index.json") = Thrown err →
  cache w !! "registry-index" = None →
  fetchRegistry E w
  = (Thrown err, requested (REGISTRY_BASE E ++ "/index.json") w).
Proof using Hremote.
  intros Hfetch Hnone. run_remote Hremote.
  unfold readCache. rewrite Hnone. cbn [json_truthy].
  rewrite fetchJson_remote, Hfetch. cbn [cache requested]. by rewrite Hnone.
Qed.

(** *** The four paths of [fetchCountry] *)

Lemma fetchCountry_hit code config w stat :
  cache w !! ("country-" ++ code) = Some stat →
  fresh E (24 * 60 * 60 * 1000) stat →
  json_truthy (contents stat) = true →
  fetchCountry E code config w = country_outcome E code config (contents stat) w.
Proof using Hremote.
  intros Hstat Hfresh Htruthy. run_remote Hremote.
  rewrite (readCache_fresh _ _ _ _ Hstat Hfresh), Htruthy.
  by destruct (CountryDataSchema _).
Qed.

Lemma fetchCountry_fetched code config w payload :
  unserved E w ("country-" ++ code) (24 * 60 * 60 * 1000) →
  fetch_ E (REGISTRY_BASE E ++ "/countries/" ++ code ++ ".json") = Returned payload →
  fetchCountry E code config w
  = country_outcome E code config payload
      (requested (REGISTRY_BASE E ++ "/countries/" ++ code ++ ".json") w).
Proof using Hremote.
  intros Hun Hfetch. run_remote Hremote.
  destruct (readCache_unserved _ _ _ Hun) as (v & -> & ->).
  rewrite fetchJson_remote, Hfetch. by destruct (CountryDataSchema _).
Qed.

Lemma fetchCountry_stale code config w err stat :
  no_fresh_entry E w ("country-" ++ code) (24 * 60 * 60 * 1000) →
  fetch_ E (REGISTRY_BASE E ++ "/countries/" ++ code ++ ".json") = Thrown err →
  cache w !! ("country-" ++ code) = Some stat →
  json_truthy (contents stat) = true →
  fetchCountry E code config w
  = country_outcome E code config (contents stat)
      (warned NetworkUnavailable
         (requested (REGISTRY_BASE E ++ "/countries/" ++ code ++ ".json") w)).
Proof using Hremote.
  intros Hno Hfetch Hstat Htruthy. run_remote Hremote.
  rewrite (readCache_no_fresh _ _ _ Hno). cbn [json_truthy].
  rewrite fetchJson_remote, Hfetch. cbn [cache requested]. rewrite Hstat, Htruthy.
  by destruct (CountryDataSchema _).
Qed.

Lemma fetchCountry_thrown code config w err :
  fetch_ E (REGISTRY_BASE E ++ "/countries/" ++ code ++ ".json") = Thrown err →
  cache w !! ("country-" ++ code) = None →
  fetchCountry E code config w
  = (Thrown err, requested (REGISTRY_BASE E ++ "/countries/" ++ code ++ ".json") w).
Proof using Hremote.
  intros Hfetch Hnone. run_remote Hremote.
  unfold readCache. rewrite Hnone. cbn [json_truthy].
  rewrite fetchJson_remote, Hfetch. cbn [cache requested]. by rewrite Hnone.
Qed.

(** *** Every run follows one of the paths *)

(** Whatever the cache and the network hold, a remote [fetchRegistry] either
    throws with the cache as it was, or ends as [index_outcome] on some
    payload with the cache as it was. *)
Lemma fetchRegistry_cases w :
  (∃ err w', cache w' = cache w ∧ requests w' = (requests w ++ [(REGISTRY_BASE E ++ "/index.json")%string])%list ∧
             fetchRegistry E w = (Thrown err, w')) ∨
  (∃ data w', cache w' = cache w ∧ fetchRegistry E w = index_outcome E data w').
Proof using Hremote.
  run_remote Hremote. unfold readCache.
  destruct (cache w !! "registry-index") as [stat|] eqn:Hstat.
  - destruct (bool_decide (Date_now E - mtimeMs stat < 60 * 60 * 1000));
      [destruct (json_truthy (contents stat)) eqn:Htruthy|].
    + right. exists (contents stat), w. split; [done|].
      by destruct (RegistryIndexSchema _).
    + rewrite fetchJson_remote.
      destruct (fetch_ E _) as [payload|err].
      * right. eexists payload, _. split; [|by destruct (RegistryIndexSchema _)]. done.
      * cbn [cache requested]. rewrite Hstat, Htruthy. left. by exists err, (requested (REGISTRY_BASE E ++ "/index.json") w).
    + cbn [json_truthy]. rewrite fetchJson_remote.
      destruct (fetch_ E _) as [payload|err].
      * right. eexists payload, _. split; [|by destruct (RegistryIndexSchema _)]. done.
      * cbn [cache requested]. rewrite Hstat.
        destruct (json_truthy (contents stat)).
        -- right. eexists (contents stat), _.
           split; [|by destruct (RegistryIndexSchema _)]. done.
        -- left. by exists err, (requested (REGISTRY_BASE E ++ "/index.json") w).
  - cbn [json_truthy]. rewrite fetchJson_remote.
    destruct (fetch_ E _) as [payload|err].
    + right. eexists payload, _. split; [|by destruct (RegistryIndexSchema _)]. done.
    + cbn [cache requested]. rewrite Hstat. left. by exists err, (requested (REGISTRY_BASE E ++ "/index.json") w).
Qed.

(** The same for [fetchCountry]; the payload and the world it is validated
    in do not depend on the config. *)
Lemma fetchCountry_cases code w :
  (∃ err w', cache w' = cache w ∧
             requests w' = (requests w ++ [(REGISTRY_BASE E ++ "/countries/" ++ code ++ ".json")%string])%list ∧
             ∀ config, fetchCountry E code config w = (Thrown err, w')) ∨
  (∃ raw w', cache w' = cache w ∧
             ∀ config, fetchCountry E code config w = country_outcome E code config raw w').
Proof using Hremote.
  run_remote Hremote. unfold readCache.
  destruct (cache w !! ("country-" ++ code)) as [stat|] eqn:Hstat.
  - destruct (bool_decide (Date_now E - mtimeMs stat < 24 * 60 * 60 * 1000));
      [destruct (json_truthy (contents stat)) eqn:Htruthy|].
    + right. exists (contents stat), w. split; [done|]. intros config.
      by destruct (CountryDataSchema _).
    + rewrite fetchJson_remote.
      destruct (fetch_ E _) as [payload|err].
      * right. exists payload, (requested (REGISTRY_BASE E ++ "/countries/" ++ code ++ ".json") w).
        split; [done|]. intros config.
        by destruct (CountryDataSchema _).
      * cbn [cache requested]. rewrite Hstat, Htruthy. left.
           by exists err, (requested (REGISTRY_BASE E ++ "/countries/" ++ code ++ ".json") w).
    + cbn [json_truthy]. rewrite fetchJson_remote.
      destruct (fetch_ E _) as [payload|err].
      * right. exists payload, (requested (REGISTRY_BASE E ++ "/countries/" ++ code ++ ".json") w).
        split; [done|]. intros config.
        by destruct (CountryDataSchema _).
      * cbn [cache requested]. rewrite Hstat.
        destruct (json_truthy (contents stat)).
        -- right.
           exists (contents stat), (warned NetworkUnavailable (requested (REGISTRY_BASE E ++ "/countries/" ++ code ++ ".json") w)).
           split; [done|]. intros config.
           by destruct (CountryDataSchema _).
        -- left.
           by exists err, (requested (REGISTRY_BASE E ++ "/countries/" ++ code ++ ".json") w).
  - cbn [json_truthy]. rewrite fetchJson_remote.
    destruct (fetch_ E _) as [payload|err].
    + right. exists payload, (requested (REGISTRY_BASE E ++ "/countries/" ++ code ++ ".json") w).
        split; [done|]. intros config.
      by destruct (CountryDataSchema _).
    + cbn [cache requested]. rewrite Hstat. left.
           by exists err, (requested (REGISTRY_BASE E ++ "/countries/" ++ code ++ ".json") w).
Qed.

End remote.

(** ** The resolvers against a local registry *)

Lemma fetchRegistry_local_cache E w :
  isRemoteRegistry (REGISTRY_BASE E) = false →
  cache (fetchRegistry E w).2 = cache w.
Proof.
  intros Hlocal. unfold fetchRegistry. rewrite Hlocal. unfold_M. unfold fetchJson.
  destruct (path_isAbsolute _ || Js.startsWith _ ".").
  - destruct (readJson E _) as [data|]; [|done]. by destruct (RegistryIndexSchema _).
  - destruct (fetch_ E _) as [data|]; [|done]. by destruct (RegistryIndexSchema _).
Qed.

Lemma fetchCountry_local_cache E code config w :
  isRemoteRegistry (REGISTRY_BASE E) = false →
  cache (fetchCountry E code config w).2 = cache w.
Proof.
  intros Hlocal. unfold fetchCountry. rewrite Hlocal. unfold_M. unfold fetchJson.
  destruct (path_isAbsolute _ || Js.startsWith _ ".").
  - destruct (readJson E _) as [data|]; [|done]. by destruct (CountryDataSchema _).
  - destruct (fetch_ E _) as [data|]; [|done]. by destruct (CountryDataSchema _).
Qed.

(** ** The cache invariant *)

Lemma object_truthy {A} (shape : list (string * json) → option A) data :
  is_Some (Zod.object shape (Some data)) → json_truthy data = true.
Proof. intros [x Hx]. by destruct data. Qed.

Lemma cache_valid_index c now d :
  cache_valid c →
  cache_valid (<["registry-index" :=
                   {| mtimeMs := now; contents := ToJson.registryIndex d |}]> c).
Proof.
  intros [Hi Hc]. split.
  - intros stat. rewrite lookup_insert_eq. intros [= <-].
    cbn [contents]. by rewrite RegistryIndexSchema_toJson.
  - intros code stat. rewrite lookup_insert_ne by done. apply Hc.
Qed.

Lemma cache_valid_country c now code d :
  cache_valid c →
  cache_valid (<["country-" ++ code :=
                   {| mtimeMs := now; contents := ToJson.countryData d |}]> c).
Proof.
  intros [Hi Hc]. split.
  - intros stat. rewrite lookup_insert_ne by done. apply Hi.
  - intros code' stat.
    destruct (decide ("country-" ++ code = "country-" ++ code')) as [->|Hne].
    + rewrite lookup_insert_eq. intros [= <-].
      cbn [contents]. by rewrite CountryDataSchema_toJson.
    + rewrite lookup_insert_ne by done. apply Hc.
Qed.

Lemma index_outcome_valid E data w :
  cache_valid (cache w) → cache_valid (cache (index_outcome E data w).2).
Proof.
  intros Hv. unfold index_outcome.
  destruct (RegistryIndexSchema _); [|done]. by apply cache_valid_index.
Qed.

Lemma country_outcome_valid E code config raw w :
  cache_valid (cache w) → cache_valid (cache (country_outcome E code config raw w).2).
Proof.
  intros Hv. unfold country_outcome.
  destruct (CountryDataSchema _); [|done]. by apply cache_valid_country.
Qed.

Lemma fetchRegistry_valid E w :
  cache_valid (cache w) → cache_valid (cache (fetchRegistry E w).2).
Proof.
  intros Hv. destruct (isRemoteRegistry (REGISTRY_BASE E)) eqn:Hremote.
  - destruct (fetchRegistry_cases E Hremote w)
      as [(err & w' & Hc & _ & ->)|(data & w' & Hc & ->)].
    + cbn [snd]. by rewrite Hc.
    + apply index_outcome_valid. by rewrite Hc.
  - by rewrite fetchRegistry_local_cache.
Qed.

Lemma fetchCountry_valid E code config w :
  cache_valid (cache w) → cache_valid (cache (fetchCountry E code config w).2).
Proof.
  intros Hv. destruct (isRemoteRegistry (REGISTRY_BASE E)) eqn:Hremote.
  - destruct (fetchCountry_cases E Hremote code w)
      as [(err & w' & Hc & _ & Hrun)|(data & w' & Hc & Hrun)]; rewrite Hrun.
    + cbn [snd]. by rewrite Hc.
    + apply country_outcome_valid. by rewrite Hc.
  - by rewrite fetchCountry_local_cache.
Qed.

(** C1. Validate before cache. Against a remote registry, when the cache has
    nothing to serve for the key and the payload fetched for the index, or
    for a country, fails its schema, the resolver returns [null], logs exactly the
    validation warning and leaves the whole cache, the entry of its own key
    included, as it was. And a cache in which every entry passes the schema
    of its key is still such a cache after any run of either resolver. *)
Theorem validate_before_cache (E : env) (w : world) :
  (∀ payload,
     isRemoteRegistry (REGISTRY_BASE E) = true →
     unserved E w "registry-index" (60 * 60 * 1000) →
     fetch_ E (REGISTRY_BASE E ++ "/index.json") = Returned payload →
     RegistryIndexSchema (Some payload) = None →
     ∃ w', fetchRegistry E w = (Returned None, w') ∧
           warnings w' = (warnings w ++ [IndexFailedValidation])%list ∧
           cache w' = cache w) ∧
  (∀ code config payload,
     isRemoteRegistry (REGISTRY_BASE E) = true →
     unserved E w ("country-" ++ code) (24 * 60 * 60 * 1000) →
     fetch_ E (REGISTRY_BASE E ++ "/countries/" ++ code ++ ".json") = Returned payload →
     CountryDataSchema (Some payload) = None →
     ∃ w', fetchCountry E code config w = (Returned None, w') ∧
           warnings w' = (warnings w ++ [CountryFailedValidation code])%list ∧
           cache w' = cache w) ∧
  (cache_valid (cache w) →
     cache_valid (cache (fetchRegistry E w).2) ∧
     ∀ code config, cache_valid (cache (fetchCountry E code config w).2)).
Proof.
  split; [|split].
  - intros payload Hremote Hno Hfetch Hbad.
    rewrite (fetchRegistry_fetched E Hremote w payload Hno Hfetch).
    unfold index_outcome. rewrite Hbad. by eexists.
  - intros code config payload Hremote Hno Hfetch Hbad.
    rewrite (fetchCountry_fetched E Hremote code config w payload Hno Hfetch).
    unfold country_outcome. rewrite Hbad. by eexists.
  - intros Hv. split; [by apply fetchRegistry_valid|].
    intros code config. by apply fetchCountry_valid.
Qed.

Lemma cache_valid_empty : cache_valid ∅.
Proof. split; intros *; by rewrite lookup_empty. Qed.

Lemma unserved_empty E cacheKey maxAgeMs :
  unserved E emptyWorld cacheKey maxAgeMs.
Proof. intros stat. cbn [cache emptyWorld]. by rewrite lookup_empty. Qed.

(** A registry that serves a malformed document, and a cold cache: both
    resolvers return [null] with one warning, nothing is cached, and the
    empty cache stays valid. *)
Lemma validate_before_cache_malformed :
  (∃ w', fetchRegistry (online 0 malformed) emptyWorld = (Returned None, w') ∧
         warnings w' = [IndexFailedValidation] ∧ cache w' = ∅) ∧
  (∃ w', fetchCountry (online 0 malformed) "sa" (makeConfig ["en"] true) emptyWorld
         = (Returned None, w') ∧
         warnings w' = [CountryFailedValidation "sa"] ∧ cache w' = ∅) ∧
  cache_valid (cache (fetchRegistry (online 0 malformed) emptyWorld).2).
Proof.
  destruct (validate_before_cache (online 0 malformed) emptyWorld) as (Hi & Hc & Hv).
  split; [|split].
  - apply (Hi malformed).
    + reflexivity.
    + apply unserved_empty.
    + reflexivity.
    + reflexivity.
  - apply (Hc "sa" (makeConfig ["en"] true) malformed).
    + reflexivity.
    + apply unserved_empty.
    + reflexivity.
    + reflexivity.
  - apply Hv. apply cache_valid_empty.
Defined.

(** ** Network failure *)

Lemma index_valid_truthy data :
  is_Some (RegistryIndexSchema (Some data)) → json_truthy data = true.
Proof. apply object_truthy. Qed.

Lemma country_valid_truthy raw :
  is_Some (CountryDataSchema (Some raw)) → json_truthy raw = true.
Proof. apply object_truthy. Qed.

(** C2 (amended). Against a remote registry, when no fresh entry exists and the
    network fetch fails: (a) if an entry of any age exists for the key and
    its payload passes the schema, exactly one warning is logged and the
    result is computed from that entry (the index itself; for a country its
    projection under the caller's config); (b) if no entry exists, the very
    error of the fetch is thrown to the caller, with no warning and the cache
    as it was. *)
Theorem network_failure_path (E : env) (w : world) (err : error) :
  isRemoteRegistry (REGISTRY_BASE E) = true →
  (no_fresh_entry E w "registry-index" (60 * 60 * 1000) →
   fetch_ E (REGISTRY_BASE E ++ "/index.json") = Thrown err →
   (∀ stat d,
      cache w !! "registry-index" = Some stat →
      RegistryIndexSchema (Some (contents stat)) = Some d →
      ∃ w', fetchRegistry E w = (Returned (Some d), w') ∧
            warnings w' = (warnings w ++ [NetworkUnavailable])%list) ∧
   (cache w !! "registry-index" = None →
      ∃ w', fetchRegistry E w = (Thrown err, w') ∧
            warnings w' = warnings w ∧ cache w' = cache w)) ∧
  (∀ code config,
   no_fresh_entry E w ("country-" ++ code) (24 * 60 * 60 * 1000) →
   fetch_ E (REGISTRY_BASE E ++ "/countries/" ++ code ++ ".json") = Thrown err →
   (∀ stat d,
      cache w !! ("country-" ++ code) = Some stat →
      CountryDataSchema (Some (contents stat)) = Some d →
      ∃ w', fetchCountry E code config w
            = (Returned (Some (filterCountryData d config)), w') ∧
            warnings w' = (warnings w ++ [NetworkUnavailable])%list) ∧
   (cache w !! ("country-" ++ code) = None →
      ∃ w', fetchCountry E code config w = (Thrown err, w') ∧
            warnings w' = warnings w ∧ cache w' = cache w)).
Proof.
  intros Hremote. split.
  - intros Hno Hfetch. split.
    + intros stat d Hstat Hd.
      rewrite (fetchRegistry_stale E Hremote w err stat Hno Hfetch Hstat)
        by (apply index_valid_truthy; by rewrite Hd).
      unfold index_outcome. rewrite Hd. by eexists.
    + intros Hnone. rewrite (fetchRegistry_thrown E Hremote w err Hfetch Hnone).
      by eexists.
  - intros code config Hno Hfetch. split.
    + intros stat d Hstat Hd.
      rewrite (fetchCountry_stale E Hremote code config w err stat Hno Hfetch Hstat)
        by (apply country_valid_truthy; by rewrite Hd).
      unfold country_outcome. rewrite Hd. by eexists.
    + intros Hnone.
      rewrite (fetchCountry_thrown E Hremote code config w err Hfetch Hnone).
      by eexists.
Qed.

Lemma no_fresh_entry_old now cacheKey maxAgeMs mtime data :
  maxAgeMs ≤ now - mtime →
  no_fresh_entry (offline now) (worldWith cacheKey mtime data) cacheKey maxAgeMs.
Proof.
  intros Hold stat. cbn [cache worldWith]. rewrite lookup_singleton_eq.
  intros [= <-]. unfold fresh. cbn [Date_now offline mtimeMs]. lia.
Qed.

(** The scenario of the specification: the index entry is two hours old, the
    window is one hour and the network is unreachable. The stale index is
    returned and exactly one warning is logged. *)
Lemma network_failure_path_stale_index :
  ∃ w', fetchRegistry (offline (2 * hour))
          (worldWith "registry-index" 0 (ToJson.registryIndex sampleIndex))
        = (Returned (Some sampleIndex), w') ∧
        warnings w' = [NetworkUnavailable].
Proof.
  refine (proj1 (proj1 (network_failure_path (offline (2 * hour))
            (worldWith "registry-index" 0 (ToJson.registryIndex sampleIndex))
            (Error "fetch failed") eq_refl) _ eq_refl)
          {| mtimeMs := 0; contents := ToJson.registryIndex sampleIndex |}
          sampleIndex _ _).
  - apply no_fresh_entry_old. vm_compute. discriminate.
  - apply lookup_singleton_eq.
  - apply RegistryIndexSchema_toJson.
Defined.

(** C2 as first stated fails for an entry whose payload does not pass the
    schema: the entry exists, the fetch fails, and the resolver logs two
    warnings and returns [null]. *)
Lemma stale_malformed_entry_two_warnings :
  let E := offline (2 * hour) in
  let w := worldWith "registry-index" 0 malformed in
  cache w !! "registry-index" = Some {| mtimeMs := 0; contents := malformed |} ∧
  no_fresh_entry E w "registry-index" (60 * 60 * 1000) ∧
  fetch_ E (REGISTRY_BASE E ++ "/index.json") = Thrown (Error "fetch failed") ∧
  fetchRegistry E w
  = (Returned None,
     {| cache := cache w;
        warnings := [NetworkUnavailable; IndexFailedValidation];
        requests := [REGISTRY_BASE E ++ "/index.json"] |}).
Proof.
  intros E w. split; [|split; [|split]].
  - apply lookup_singleton_eq.
  - apply no_fresh_entry_old. vm_compute. discriminate.
  - reflexivity.
  - vm_compute. reflexivity.
Qed.

(** ** Cache hits *)

(** C3 (amended). On a cache hit against a remote registry, be it a fresh
    entry or a stale entry used after a failed fetch, the cached payload goes
    through the same schema validation as a fetched one. When it passes, the
    result is computed from it and the entry is written again; when it fails,
    the resolver logs the validation warning and returns [null]. A fresh hit
    makes no request. *)
Theorem cache_hit_revalidated (E : env) (w : world) (stat : cache_file) :
  isRemoteRegistry (REGISTRY_BASE E) = true →
  json_truthy (contents stat) = true →
  (cache w !! "registry-index" = Some stat →
   (fresh E (60 * 60 * 1000) stat →
    fetchRegistry E w
    = match RegistryIndexSchema (Some (contents stat)) with
      | Some d => (Returned (Some d),
                   stored E "registry-index" (ToJson.registryIndex d) w)
      | None => (Returned None, warned IndexFailedValidation w)
      end) ∧
   (∀ err,
    no_fresh_entry E w "registry-index" (60 * 60 * 1000) →
    fetch_ E (REGISTRY_BASE E ++ "/index.json") = Thrown err →
    let w0 := warned NetworkUnavailable
                (requested (REGISTRY_BASE E ++ "/index.json") w) in
    fetchRegistry E w
    = match RegistryIndexSchema (Some (contents stat)) with
      | Some d => (Returned (Some d),
                   stored E "registry-index" (ToJson.registryIndex d) w0)
      | None => (Returned None, warned IndexFailedValidation w0)
      end)) ∧
  (∀ code config,
   cache w !! ("country-" ++ code) = Some stat →
   (fresh E (24 * 60 * 60 * 1000) stat →
    fetchCountry E code config w
    = match CountryDataSchema (Some (contents stat)) with
      | Some d => (Returned (Some (filterCountryData d config)),
                   stored E ("country-" ++ code) (ToJson.countryData d) w)
      | None => (Returned None, warned (CountryFailedValidation code) w)
      end) ∧
   (∀ err,
    no_fresh_entry E w ("country-" ++ code) (24 * 60 * 60 * 1000) →
    fetch_ E (REGISTRY_BASE E ++ "/countries/" ++ code ++ ".json") = Thrown err →
    let w0 := warned NetworkUnavailable
                (requested (REGISTRY_BASE E ++ "/countries/" ++ code ++ ".json") w) in
    fetchCountry E code config w
    = match CountryDataSchema (Some (contents stat)) with
      | Some d => (Returned (Some (filterCountryData d config)),
                   stored E ("country-" ++ code) (ToJson.countryData d) w0)
      | None => (Returned None, warned (CountryFailedValidation code) w0)
      end)).
Proof.
  intros Hremote Htruthy. split.
  - intros Hstat. split.
    + intros Hfresh. by apply fetchRegistry_hit.
    + intros err Hno Hfetch. by apply (fetchRegistry_stale E Hremote w err stat).
  - intros code config Hstat. split.
    + intros Hfresh. by apply fetchCountry_hit.
    + intros err Hno Hfetch.
      by apply (fetchCountry_stale E Hremote code config w err stat).
Qed.

(** A fresh, valid index entry: served without a request, and written again. *)
Lemma cache_hit_revalidated_fresh_index :
  let E := offline (hour / 2) in
  let w := worldWith "registry-index" 0 (ToJson.registryIndex sampleIndex) in
  fetchRegistry E w
  = (Returned (Some sampleIndex),
     stored E "registry-index" (ToJson.registryIndex sampleIndex) w).
Proof.
  intros E w.
  pose proof (proj1 (proj1 (cache_hit_revalidated E w
                 {| mtimeMs := 0; contents := ToJson.registryIndex sampleIndex |}
                 eq_refl eq_refl) (lookup_singleton_eq _ _)) eq_refl) as Hrun.
  cbn [contents] in Hrun. rewrite RegistryIndexSchema_toJson in Hrun. exact Hrun.
Defined.

(** C3 as first stated fails: a fresh entry whose payload does not pass the
    schema is a cache hit (no request is made), and the outcome is the
    "invalid data" one. *)
Lemma fresh_malformed_entry_yields_absent :
  let E := online (hour / 2) (ToJson.registryIndex sampleIndex) in
  let w := worldWith "registry-index" 0 malformed in
  cache w !! "registry-index" = Some {| mtimeMs := 0; contents := malformed |} ∧
  fresh E (60 * 60 * 1000) {| mtimeMs := 0; contents := malformed |} ∧
  fetchRegistry E w
  = (Returned None,
     {| cache := cache w; warnings := [IndexFailedValidation]; requests := [] |}).
Proof.
  intros E w. split; [|split].
  - apply lookup_singleton_eq.
  - vm_compute. reflexivity.
  - vm_compute. reflexivity.
Qed.

(** ** Freshness *)

Section second_resolution.
Context (E1 E2 : env).
Context (Hremote1 : isRemoteRegistry (REGISTRY_BASE E1) = true).
Context (Hremote2 : isRemoteRegistry (REGISTRY_BASE E2) = true).

(** A successful remote [fetchRegistry] has written what it returns. *)
Lemma fetchRegistry_success w r w1 :
  fetchRegistry E1 w = (Returned (Some r), w1) →
  ∃ w', w1 = stored E1 "registry-index" (ToJson.registryIndex r) w'.
Proof using Hremote1.
  destruct (fetchRegistry_cases E1 Hremote1 w)
    as [(err & w' & _ & _ & ->)|(data & w' & _ & ->)]; [done|].
  unfold index_outcome. destruct (RegistryIndexSchema _) as [d|]; [|done].
  intros [= <- <-]. by exists w'.
Qed.

(** A successful remote [fetchCountry] has validated some payload to a
    dataset [d], written [d] whole, and returned the projection of [d]; with
    another config only the projection differs. *)
Lemma fetchCountry_success code config w r w1 :
  fetchCountry E1 code config w = (Returned (Some r), w1) →
  ∃ raw d w',
    CountryDataSchema (Some raw) = Some d ∧
    r = filterCountryData d config ∧
    w1 = stored E1 ("country-" ++ code) (ToJson.countryData d) w' ∧
    ∀ config',
      fetchCountry E1 code config' w = (Returned (Some (filterCountryData d config')), w1).
Proof using Hremote1.
  destruct (fetchCountry_cases E1 Hremote1 code w)
    as [(err & w' & _ & _ & Hrun)|(raw & w' & _ & Hrun)].
  { by rewrite Hrun. }
  rewrite Hrun. unfold country_outcome.
  destruct (CountryDataSchema (Some raw)) as [d|] eqn:Hd; [|done].
  intros [= <- <-]. exists raw, d, w'. repeat split; [done|].
  intros config'. rewrite Hrun. unfold country_outcome. by rewrite Hd.
Qed.

Lemma refetch_index w' r :
  Date_now E2 - Date_now E1 < 60 * 60 * 1000 →
  let w1 := stored E1 "registry-index" (ToJson.registryIndex r) w' in
  fetchRegistry E2 w1
  = (Returned (Some r), stored E2 "registry-index" (ToJson.registryIndex r) w1).
Proof using Hremote2.
  intros Hwindow w1.
  rewrite (fetchRegistry_hit E2 Hremote2 w1
             {| mtimeMs := Date_now E1; contents := ToJson.registryIndex r |}).
  - unfold index_outcome. cbn [contents]. by rewrite RegistryIndexSchema_toJson.
  - apply lookup_insert_eq.
  - exact Hwindow.
  - reflexivity.
Qed.

Lemma refetch_country code config w' d :
  Date_now E2 - Date_now E1 < 24 * 60 * 60 * 1000 →
  let w1 := stored E1 ("country-" ++ code) (ToJson.countryData d) w' in
  fetchCountry E2 code config w1
  = (Returned (Some (filterCountryData d config)),
     stored E2 ("country-" ++ code) (ToJson.countryData d) w1).
Proof using Hremote2.
  intros Hwindow w1.
  rewrite (fetchCountry_hit E2 Hremote2 code config w1
             {| mtimeMs := Date_now E1; contents := ToJson.countryData d |}).
  - unfold country_outcome. cbn [contents]. by rewrite CountryDataSchema_toJson.
  - apply lookup_insert_eq.
  - exact Hwindow.
  - by destruct d as [? [?|] ? ? ? ? ? ?].
Qed.

End second_resolution.

(** C4. Freshness. After a resolution against a remote registry has returned
    data at the time of [E1], a second resolution of the same key at the time
    of [E2], less than the freshness window later (one hour for the index,
    twenty-four for a dataset), makes no network request, whatever the state
    of the network and the caller's config: the list of requests is as the
    first resolution left it, and the result is computed from the cached
    dataset. *)
Theorem fresh_entry_not_refetched (E1 E2 : env) (w : world) :
  isRemoteRegistry (REGISTRY_BASE E1) = true →
  isRemoteRegistry (REGISTRY_BASE E2) = true →
  (∀ r w1,
     fetchRegistry E1 w = (Returned (Some r), w1) →
     Date_now E2 - Date_now E1 < 60 * 60 * 1000 →
     ∃ w2, fetchRegistry E2 w1 = (Returned (Some r), w2) ∧
           requests w2 = requests w1) ∧
  (∀ code config1 config2 r w1,
     fetchCountry E1 code config1 w = (Returned (Some r), w1) →
     Date_now E2 - Date_now E1 < 24 * 60 * 60 * 1000 →
     ∃ d w2, r = filterCountryData d config1 ∧
             fetchCountry E2 code config2 w1
             = (Returned (Some (filterCountryData d config2)), w2) ∧
             requests w2 = requests w1).
Proof.
  intros Hremote1 Hremote2. split.
  - intros r w1 Hrun Hwindow.
    destruct (fetchRegistry_success E1 Hremote1 w r w1 Hrun) as [w' ->].
    rewrite (refetch_index E1 E2 Hremote2 w' r Hwindow). by eexists.
  - intros code config1 config2 r w1 Hrun Hwindow.
    destruct (fetchCountry_success E1 Hremote1 code config1 w r w1 Hrun)
      as (raw & d & w' & Hd & -> & -> & _).
    rewrite (refetch_country E1 E2 Hremote2 code config2 w' d Hwindow).
    by eexists d, _.
Qed.

(** The sample country is resolved while the registry is reachable; twenty-three
    hours later, with the registry unreachable and another config, it is
    served again without any further request. *)
Lemma fresh_entry_not_refetched_sample :
  let E1 := online 0 (ToJson.countryData makeSampleCountry) in
  let E2 := offline (23 * hour) in
  let first := fetchCountry E1 "sa" (makeConfig ["ar"] false) emptyWorld in
  ∃ d w2,
    filterCountryData makeSampleCountry (makeConfig ["ar"] false)
    = filterCountryData d (makeConfig ["ar"] false) ∧
    fetchCountry E2 "sa" (makeConfig ["fr"] true) first.2
    = (Returned (Some (filterCountryData d (makeConfig ["fr"] true))), w2) ∧
    requests w2 = requests first.2.
Proof.
  intros E1 E2 first.
  apply (proj2 (fresh_entry_not_refetched E1 E2 emptyWorld eq_refl eq_refl)
           "sa" (makeConfig ["ar"] false) (makeConfig ["fr"] true)).
  - vm_compute. reflexivity.
  - vm_compute. reflexivity.
Defined.

(** ** What the cache holds *)

(** C10. Every remote [fetchCountry] that returns data has validated a payload
    to a dataset [d], returned the projection of [d] under the caller's
    config, and written [d] itself to the cache: the entry parses back to
    [d], all languages and coordinates included. The config has no part in
    the resulting cache, and a later resolution served from that entry under
    any other config returns the projection of the whole of [d]. *)
Theorem cache_holds_unfiltered_dataset (E : env) (code : string)
    (config : GeoDataConfig) (w : world) (r : CountryData) (w1 : world) :
  isRemoteRegistry (REGISTRY_BASE E) = true →
  fetchCountry E code config w = (Returned (Some r), w1) →
  ∃ raw d,
    CountryDataSchema (Some raw) = Some d ∧
    r = filterCountryData d config ∧
    cache w1 !! ("country-" ++ code)
    = Some {| mtimeMs := Date_now E; contents := ToJson.countryData d |} ∧
    CountryDataSchema (Some (ToJson.countryData d)) = Some d ∧
    (∀ config',
       fetchCountry E code config' w
       = (Returned (Some (filterCountryData d config')), w1)) ∧
    (∀ E' config',
       isRemoteRegistry (REGISTRY_BASE E') = true →
       Date_now E' - Date_now E < 24 * 60 * 60 * 1000 →
       ∃ w2, fetchCountry E' code config' w1
             = (Returned (Some (filterCountryData d config')), w2) ∧
             requests w2 = requests w1).
Proof.
  intros Hremote Hrun.
  destruct (fetchCountry_success E Hremote code config w r w1 Hrun)
    as (raw & d & w' & Hd & -> & -> & Hany).
  exists raw, d. split_and!; try done.
  - apply lookup_insert_eq.
  - apply CountryDataSchema_toJson.
  - intros E' config' Hremote' Hwindow.
    rewrite (refetch_country E E' Hremote' code config' w' d Hwindow). by eexists.
Qed.

(** The sample country resolved with Arabic only and no coordinates: the
    cache entry still parses back to the whole sample. *)
Lemma cache_holds_unfiltered_sample :
  let E := online 0 (ToJson.countryData makeSampleCountry) in
  let config := makeConfig ["ar"] false in
  let first := fetchCountry E "sa" config emptyWorld in
  ∃ raw d,
    CountryDataSchema (Some raw) = Some d ∧
    filterCountryData makeSampleCountry config = filterCountryData d config ∧
    cache first.2 !! "country-sa"
    = Some {| mtimeMs := 0; contents := ToJson.countryData d |} ∧
    CountryDataSchema (Some (ToJson.countryData d)) = Some d ∧
    (∀ config',
       fetchCountry E "sa" config' emptyWorld
       = (Returned (Some (filterCountryData d config')), first.2)) ∧
    (∀ E' config',
       isRemoteRegistry (REGISTRY_BASE E') = true →
       Date_now E' - 0 < 24 * 60 * 60 * 1000 →
       ∃ w2, fetchCountry E' "sa" config' first.2
             = (Returned (Some (filterCountryData d config')), w2) ∧
             requests w2 = requests first.2).
Proof.
  intros E config first.
  apply (cache_holds_unfiltered_dataset E "sa" config emptyWorld).
  - reflexivity.
  - vm_compute. reflexivity.
Defined.


(** ** The generator *)

Section code_order.

Lemma string_compare_trans_le s1 s2 s3 :
  String.compare s1 s2 ≠ Gt → String.compare s2 s3 ≠ Gt →
  String.compare s1 s3 ≠ Gt.
Proof.
  revert s2 s3. induction s1 as [|c1 s1 IH]; intros [|c2 s2] [|c3 s3];
    cbn [String.compare]; try done.
  unfold Ascii.compare.
  destruct (N.compare_spec (N_of_ascii c1) (N_of_ascii c2)) as [H12|H12|H12],
    (N.compare_spec (N_of_ascii c2) (N_of_ascii c3)) as [H23|H23|H23],
    (N.compare_spec (N_of_ascii c1) (N_of_ascii c3)) as [H13|H13|H13];
    try done; try lia.
  apply IH.
Qed.

Lemma code_le_spec a b : code_le a b ↔ String.compare a b ≠ Gt.
Proof. unfold code_le, String.leb. by destruct (String.compare a b). Qed.

#[global] Instance code_le_trans : Transitive code_le.
Proof.
  intros a b c. rewrite !code_le_spec. apply string_compare_trans_le.
Qed.

#[global] Instance code_le_total : Total code_le.
Proof.
  intros a b. unfold code_le.
  destruct (String.leb_total a b) as [H|H]; rewrite H; auto.
Qed.

#[global] Instance code_le_antisym : AntiSymm eq code_le.
Proof.
  intros a b Hab Hba. apply String.leb_antisym; by apply Is_true_true.
Qed.






End code_order.



(** ** The filter on the heap *)

Section heap_facts.
Local Open Scope nat_scope.
Local Open Scope list_scope.
Context (config : GeoDataConfig).

Lemma heap_bind {A B} (m : Heap.HeapM A) (k : A → Heap.HeapM B) h a h' :
  m h = Some (a, h') → (m ≫= k) h = k a h'.
Proof. intros Hm. unfold mbind, Heap.HeapM_bind. by rewrite Hm. Qed.

(** *** Representations survive allocation *)

Lemma is_name_mono lo lo' h new v m :
  lo' ≤ lo → Heap.is_name lo h v m → Heap.is_name lo' (h ++ new) v m.
Proof.
  intros Hlo (l & -> & Hl & Hobj). exists l. split_and!; [done|lia|].
  by apply lookup_app_l_Some.
Qed.

Lemma is_array_mono {A} (is_item : nat → list Heap.object → Heap.value → A → Prop)
    lo lo' h new v xs :
  (∀ v x, is_item lo h v x → is_item lo' (h ++ new) v x) →
  lo' ≤ lo →
  Heap.is_array is_item lo h v xs → Heap.is_array is_item lo' (h ++ new) v xs.
Proof.
  intros Hitem Hlo (l & items & -> & Hl & Harr & Hitems).
  exists l, items. split_and!; [done|lia|by apply lookup_app_l_Some|].
  eapply Forall2_impl; [exact Hitems|]. apply Hitem.
Qed.

Lemma is_city_mono lo lo' h new v c :
  lo' ≤ lo → Heap.is_city lo h v c → Heap.is_city lo' (h ++ new) v c.
Proof.
  intros Hlo (l & props & vname & -> & Hl & Hobj & Hn & Hname & Hlat & Hlon).
  exists l, props, vname.
  split_and!; [done|lia|by apply lookup_app_l_Some|done| |done|done].
  by apply (is_name_mono lo).
Qed.

Lemma is_region_mono lo lo' h new v r :
  lo' ≤ lo → Heap.is_region lo h v r → Heap.is_region lo' (h ++ new) v r.
Proof.
  intros Hlo (l & props & vname & vcities & -> & Hl & Hobj & Hc & Hn & Hname & Hcs & Hcities).
  exists l, props, vname, vcities.
  split_and!; [done|lia|by apply lookup_app_l_Some|done|done| |done|].
  - by apply (is_name_mono lo).
  - apply (is_array_mono Heap.is_city lo); [|done..].
    intros v x. by apply is_city_mono.
Qed.

Lemma is_country_mono lo lo' h new v d :
  lo' ≤ lo → Heap.is_country lo h v d → Heap.is_country lo' (h ++ new) v d.
Proof.
  intros Hlo (l & props & vname & vregions & -> & Hl & Hobj & Hc & Hi & Hn & Hname
              & Hp & Hcu & Htz & Hf & Hrs & Hregions).
  exists l, props, vname, vregions.
  split_and!; try done; [lia|by apply lookup_app_l_Some| |].
  - by apply (is_name_mono lo).
  - apply (is_array_mono Heap.is_region lo); [|done..].
    intros v x. by apply is_region_mono.
Qed.

(** *** Reads and writes *)

Lemma get_name lo h v m k :
  Heap.is_name lo h v m →
  Heap.get v k h = Some (default Heap.VUndefined (Heap.VStr <$> m !! k), h).
Proof.
  intros (l & -> & _ & Hobj). unfold Heap.get. by rewrite Hobj, lookup_fmap.
Qed.

Lemma get_last h props k :
  Heap.get (Heap.VRef (length h)) k (h ++ [Heap.Obj props])
  = Some (default Heap.VUndefined (props !! k), h ++ [Heap.Obj props]).
Proof. unfold Heap.get. by rewrite list_lookup_middle. Qed.

(** A write to the object allocated last touches nothing below it. *)
Lemma set_last h props k x :
  Heap.set (Heap.VRef (length h)) k x (h ++ [Heap.Obj props])
  = Some (tt, h ++ [Heap.Obj (<[k := x]> props)]).
Proof.
  unfold Heap.set. rewrite list_lookup_middle by done.
  rewrite insert_app_r_alt by done. by rewrite Nat.sub_diag.
Qed.

Lemma truthy_prop_value (o : option string) :
  Heap.truthy (default Heap.VUndefined (Heap.VStr <$> o)) = Js.truthy_prop o.
Proof. by destruct o. Qed.

(** *** [filterName] allocates one object and writes to it alone *)

Lemma filterName_loop h name m (langs : list string) (acc : gmap string string) :
  Heap.is_name 0 h name m →
  Heap.for_of langs (λ lang,
      v ← Heap.get name lang;
      if Heap.truthy v then Heap.set (Heap.VRef (length h)) lang v else mret tt)
    (h ++ [Heap.Obj (Heap.VStr <$> acc)])
  = Some (tt, h ++ [Heap.Obj (Heap.VStr <$>
      foldl (λ (filtered : gmap string string) lang,
               match m !! lang with
               | Some v => if Js.truthy v then <[lang := v]> filtered else filtered
               | None => filtered
               end) acc langs)]).
Proof.
  intros Hname. revert acc. induction langs as [|lang langs IH]; intros acc; [done|].
  cbn [Heap.for_of foldl].
  rewrite (heap_bind _ _ _ tt
             (h ++ [Heap.Obj (Heap.VStr <$>
                match m !! lang with
                | Some v => if Js.truthy v then <[lang := v]> acc else acc
                | None => acc
                end)])); [apply IH|].
  rewrite (heap_bind _ _ _ _ _
             (get_name 0 _ _ _ lang (is_name_mono 0 0 h _ _ _ (le_n 0) Hname))).
  destruct (m !! lang) as [s|];
    cbn [fmap option_fmap option_map default from_option id Heap.truthy];
    [|reflexivity].
  destruct (Js.truthy s); [|reflexivity].
  by rewrite set_last, fmap_insert.
Qed.

Lemma filterName_run h name m :
  Heap.is_name 0 h name m →
  Heap.filterName config name h
  = Some (Heap.VRef (length h), h ++ [Heap.Obj (Heap.VStr <$> filterName config m)]).
Proof.
  intros Hname. unfold Heap.filterName.
  rewrite (heap_bind _ _ h (Heap.VRef (length h)) (h ++ [Heap.Obj (Heap.VStr <$> ∅)]))
    by (by rewrite fmap_empty).
  rewrite (heap_bind _ _ _ _ _ (filterName_loop h name m (languages config) ∅ Hname)).
  rewrite (heap_bind _ _ _ _ _ (get_last _ _ "en")).
  rewrite (heap_bind _ _ _ _ _
             (get_name 0 _ _ _ "en" (is_name_mono 0 0 h _ _ _ (le_n 0) Hname))).
  rewrite lookup_fmap, !truthy_prop_value.
  unfold filterName.
  destruct (m !! "en") as [v|] eqn:Hen; cbn [Js.truthy_prop].
  - destruct (negb _ && Js.truthy v).
    + rewrite (heap_bind _ _ _ _ _ (set_last _ _ "en" _)).
      cbn [fmap option_fmap option_map default from_option id].
      by rewrite fmap_insert.
    + done.
  - by rewrite andb_false_r.
Qed.

Lemma get_obj h new l props k :
  h !! l = Some (Heap.Obj props) →
  Heap.get (Heap.VRef l) k (h ++ new)
  = Some (default Heap.VUndefined (props !! k), h ++ new).
Proof. intros Hobj. unfold Heap.get. by rewrite (lookup_app_l_Some _ _ _ _ Hobj). Qed.

Lemma spread_obj h l props :
  h !! l = Some (Heap.Obj props) →
  Heap.spread (Heap.VRef l) h = Some (props, h).
Proof. intros Hobj. unfold Heap.spread. by rewrite Hobj. Qed.

Lemma is_name_last lo h m :
  lo ≤ length h →
  Heap.is_name lo (h ++ [Heap.Obj (Heap.VStr <$> m)]) (Heap.VRef (length h)) m.
Proof. intros Hlo. exists (length h). by rewrite list_lookup_middle. Qed.

(** *** [filterCity] allocates two objects and writes to the second alone *)

Lemma filterCity_run h v c :
  Heap.is_city 0 h v c →
  ∃ v' new,
    Heap.filterCity config v h = Some (v', h ++ new) ∧
    Heap.is_city (length h) (h ++ new) v' (filterCity config c).
Proof.
  intros (l & props & vname & -> & _ & Hobj & Hn & Hname & Hlat & Hlon).
  unfold Heap.filterCity.
  rewrite (heap_bind _ _ h vname h) by (by unfold Heap.get; rewrite Hobj, Hn).
  rewrite (heap_bind _ _ _ _ _ (filterName_run h vname _ Hname)).
  set (named := h ++ [Heap.Obj (Heap.VStr <$> filterName config (city_name c))]).
  assert (length named = S (length h)) as Hlen
    by (unfold named; rewrite length_app; cbn; lia).
  rewrite (heap_bind _ _ named (Heap.VRef (length named))
             (named ++ [Heap.Obj {[ "name" := Heap.VRef (length h) ]}])) by done.
  assert (named !! l = Some (Heap.Obj props)) as Hobj'
    by (by apply lookup_app_l_Some).
  rewrite (heap_bind _ _ _ _ _ (get_obj named _ l props "latitude" Hobj')).
  rewrite (heap_bind _ _ _ _ _ (get_obj named _ l props "longitude" Hobj')).
  rewrite Hlat, Hlon.
  assert (Heap.is_name (length h) named (Heap.VRef (length h))
            (filterName config (city_name c))) as Hnew
    by (by apply is_name_last).
  unfold filterCity.
  destruct (includeCoordinates config), (latitude c) as [lat|], (longitude c) as [lon|];
    cbn [fmap option_fmap option_map default from_option id Heap.defined andb].
  1: rewrite (heap_bind _ _ _ tt
                (named ++ [Heap.Obj (<["longitude" := Heap.VNum lon]>
                                     (<["latitude" := Heap.VNum lat]>
                                        {[ "name" := Heap.VRef (length h) ]}))]))
       by (rewrite (heap_bind _ _ _ _ _ (set_last _ _ "latitude" _)); apply set_last).
  all: eexists _, ([Heap.Obj (Heap.VStr <$> filterName config (city_name c))] ++ [_]).
  all: rewrite (assoc_L (++) h); fold named; split; [reflexivity|].
  all: eexists (length named), _, (Heap.VRef (length h)).
  all: split_and!; [done|lia|apply list_lookup_middle; done| |
                    by apply (is_name_mono (length h))| |];
         by simplify_map_eq.
Qed.

(** *** [map] over an array of represented items *)

Section map_items.
Context {A : Type} (f : Heap.value → Heap.HeapM Heap.value) (g : A → A).
Context (is_item : nat → list Heap.object → Heap.value → A → Prop).
Context (is_item_mono : ∀ lo lo' h new v x,
           lo' ≤ lo → is_item lo h v x → is_item lo' (h ++ new) v x).
Context (f_run : ∀ h v x,
           is_item 0 h v x →
           ∃ v' new, f v h = Some (v', h ++ new) ∧
                     is_item (length h) (h ++ new) v' (g x)).

Lemma map_run h items xs :
  Forall2 (is_item 0 h) items xs →
  ∃ items' new,
    Heap.map_ f items h = Some (items', h ++ new) ∧
    Forall2 (is_item (length h) (h ++ new)) items' (g <$> xs).
Proof using is_item_mono f_run.
  revert xs h. induction items as [|v items IH]; intros xs h Hitems.
  { apply Forall2_nil_inv_l in Hitems as ->. exists [], [].
    rewrite app_nil_r. by split; [|constructor]. }
  apply Forall2_cons_inv_l in Hitems as (x & xs' & Hv & Hitems & ->).
  destruct (f_run h v x Hv) as (v' & new1 & Hrun1 & Hv').
  destruct (IH xs' (h ++ new1)) as (items' & new2 & Hrun2 & Hitems').
  { eapply Forall2_impl; [exact Hitems|]. intros w y. by apply is_item_mono. }
  exists (v' :: items'), (new1 ++ new2). split.
  - cbn [Heap.map_]. rewrite (heap_bind _ _ _ _ _ Hrun1).
    rewrite (heap_bind _ _ _ _ _ Hrun2). by rewrite (assoc_L (++)).
  - rewrite fmap_cons, (assoc_L (++)). constructor.
    + by apply (is_item_mono (length h)).
    + eapply Forall2_impl; [exact Hitems'|]. intros w y Hw.
      rewrite <- (app_nil_r (_ ++ new2)).
      apply (is_item_mono (length (h ++ new1))); [|done].
      rewrite length_app. lia.
Qed.

(** The body shared by [filterRegion] and [filterCountryData]: spread the
    node, replace its name by the filtered name and its array of children by
    the array of the filtered children. *)
Lemma node_run (field : string) h l props vname m vitems xs :
  field ≠ "name" →
  h !! l = Some (Heap.Obj props) →
  props !! "name" = Some vname → Heap.is_name 0 h vname m →
  props !! field = Some vitems → Heap.is_array is_item 0 h vitems xs →
  ∃ l' new vname' vitems',
    (props ← Heap.spread (Heap.VRef l);
     node_name ← Heap.get (Heap.VRef l) "name";
     filtered_name ← Heap.filterName config node_name;
     node_items ← Heap.get (Heap.VRef l) field;
     items ← Heap.elements node_items;
     filtered ← Heap.map_ f items;
     filtered_items ← Heap.alloc (Heap.Arr filtered);
     Heap.alloc (Heap.Obj (<[field := filtered_items]>
                             (<["name" := filtered_name]> props)))) h
    = Some (Heap.VRef l', h ++ new) ∧
    length h ≤ l' ∧
    (h ++ new) !! l'
    = Some (Heap.Obj (<[field := vitems']> (<["name" := vname']> props))) ∧
    Heap.is_name (length h) (h ++ new) vname' (filterName config m) ∧
    Heap.is_array is_item (length h) (h ++ new) vitems' (g <$> xs).
Proof using is_item_mono f_run.
  intros Hfield Hobj Hn Hname Hf (la & items & -> & _ & Harr & Hitems).
  rewrite (heap_bind _ _ _ _ _ (spread_obj h l props Hobj)).
  rewrite (heap_bind _ _ h vname h) by (by unfold Heap.get; rewrite Hobj, Hn).
  rewrite (heap_bind _ _ _ _ _ (filterName_run h vname m Hname)).
  set (named := h ++ [Heap.Obj (Heap.VStr <$> filterName config m)]).
  assert (named !! l = Some (Heap.Obj props)) as Hobj'
    by (by apply lookup_app_l_Some).
  assert (named !! la = Some (Heap.Arr items)) as Harr'
    by (by apply lookup_app_l_Some).
  rewrite (heap_bind _ _ named (Heap.VRef la) named)
    by (by unfold Heap.get; rewrite Hobj', Hf).
  rewrite (heap_bind _ _ named items named)
    by (by unfold Heap.elements; rewrite Harr').
  destruct (map_run named items xs) as (items' & new2 & Hrun & Hitems').
  { eapply Forall2_impl; [exact Hitems|]. intros w y. by apply is_item_mono. }
  rewrite (heap_bind _ _ _ _ _ Hrun).
  set (mapped := named ++ new2).
  rewrite (heap_bind _ _ mapped (Heap.VRef (length mapped))
             (mapped ++ [Heap.Arr items'])) by done.
  assert (length h ≤ length named) as Hlen1
    by (unfold named; rewrite length_app; lia).
  assert (length named ≤ length mapped) as Hlen2
    by (unfold mapped; rewrite length_app; lia).
  exists (length (mapped ++ [Heap.Arr items'])),
    ([Heap.Obj (Heap.VStr <$> filterName config m)] ++ new2 ++ [Heap.Arr items']
     ++ [Heap.Obj (<[field := Heap.VRef (length mapped)]>
                     (<["name" := Heap.VRef (length h)]> props))]),
    (Heap.VRef (length h)), (Heap.VRef (length mapped)).
  assert (h ++ [Heap.Obj (Heap.VStr <$> filterName config m)] ++ new2
            ++ [Heap.Arr items']
            ++ [Heap.Obj (<[field := Heap.VRef (length mapped)]>
                            (<["name" := Heap.VRef (length h)]> props))]
          = (mapped ++ [Heap.Arr items'])
              ++ [Heap.Obj (<[field := Heap.VRef (length mapped)]>
                              (<["name" := Heap.VRef (length h)]> props))]) as ->.
  { unfold mapped, named. by rewrite <- !(assoc_L (++)). }
  split_and!.
  - reflexivity.
  - rewrite length_app. lia.
  - by apply list_lookup_middle.
  - rewrite <- (assoc_L (++) mapped). unfold mapped. rewrite <- (assoc_L (++) named).
    apply (is_name_mono (length h)); [done|]. by apply is_name_last.
  - exists (length mapped), items'. split_and!; [done|lia| |].
    + apply lookup_app_l_Some. by apply list_lookup_middle.
    + eapply Forall2_impl; [exact Hitems'|]. intros w y Hw.
      rewrite <- (assoc_L (++) mapped).
      by apply (is_item_mono (length named)).
Qed.

End map_items.

(** *** Regions and the dataset *)

Lemma filterRegion_run h v r :
  Heap.is_region 0 h v r →
  ∃ v' new,
    Heap.filterRegion config v h = Some (v', h ++ new) ∧
    Heap.is_region (length h) (h ++ new) v' (filterRegion config r).
Proof.
  intros (l & props & vname & vcities & -> & _ & Hobj & Hc & Hn & Hname & Hcs & Hcities).
  destruct (node_run (Heap.filterCity config) (filterCity config) Heap.is_city
              is_city_mono filterCity_run "cities" h l props vname _ vcities _
              ltac:(done) Hobj Hn Hname Hcs Hcities)
    as (l' & new & vname' & vitems' & Hrun & Hl' & Hobj' & Hname' & Hitems').
  exists (Heap.VRef l'), new. split; [exact Hrun|].
  eexists l', _, vname', vitems'.
  split_and!; [done|done|exact Hobj'| | |exact Hname'| |exact Hitems'];
    by simplify_map_eq.
Qed.

Lemma filterCountryData_run h v d :
  Heap.is_country 0 h v d →
  ∃ v' new,
    Heap.filterCountryData v config h = Some (v', h ++ new) ∧
    Heap.is_country (length h) (h ++ new) v' (filterCountryData d config).
Proof.
  intros (l & props & vname & vregions & -> & _ & Hobj & Hc & Hi & Hn & Hname
          & Hp & Hcu & Htz & Hf & Hrs & Hregions).
  destruct (node_run (Heap.filterRegion config) (filterRegion config) Heap.is_region
              is_region_mono filterRegion_run "regions" h l props vname _ vregions _
              ltac:(done) Hobj Hn Hname Hrs Hregions)
    as (l' & new & vname' & vitems' & Hrun & Hl' & Hobj' & Hname' & Hitems').
  exists (Heap.VRef l'), new. split; [exact Hrun|].
  eexists l', _, vname', vitems'.
  split_and!; [done|done|exact Hobj'| | | |exact Hname'| | | | | |exact Hitems'];
    by simplify_map_eq.
Qed.

End heap_facts.

(** C8. [filterCountryData] is pure and does not mutate its input. Run on any
    heap in which [data] is a dataset [d], it returns; the heap afterwards is
    the heap before followed by newly allocated objects, so that no object of
    [d] (nor any other existing object) has been written to and [data] is
    still [d]; the result is made of new objects only and is the value
    [filterCountryData d config], which depends on nothing but [d] and
    [config]; and the same input can be filtered again with any other
    config. *)
Theorem filterCountryData_pure (h : list Heap.object) (data : Heap.value)
    (d : CountryData) (config : GeoDataConfig) :
  Heap.is_country 0 h data d →
  ∃ result new,
    Heap.filterCountryData data config h = Some (result, (h ++ new)%list) ∧
    Heap.is_country (length h) (h ++ new)%list result (filterCountryData d config) ∧
    Heap.is_country 0 (h ++ new)%list data d ∧
    ∀ config',
      ∃ result' new',
        Heap.filterCountryData data config' (h ++ new)%list
        = Some (result', ((h ++ new) ++ new')%list) ∧
        Heap.is_country (length (h ++ new)%list) ((h ++ new) ++ new')%list result'
          (filterCountryData d config').
Proof.
  intros Hdata.
  destruct (filterCountryData_run config h data d Hdata) as (result & new & Hrun & Hresult).
  assert (Heap.is_country 0 (h ++ new)%list data d) as Hdata'
    by (by apply (is_country_mono 0)).
  exists result, new. split_and!; [done..|].
  intros config'. by apply filterCountryData_run.
Qed.

Lemma zeroCityHeap_represents :
  Heap.is_country 0 zeroCityHeap (Heap.VRef 7) zeroCityCountry.
Proof.
  assert (∀ l m, zeroCityHeap !! l = Some (Heap.Obj (Heap.VStr <$> m)) →
                 Heap.is_name 0 zeroCityHeap (Heap.VRef l) m) as Hname.
  { intros l m Hl. exists l. split_and!; [done|lia|done]. }
  eexists 7%nat, _, (Heap.VRef 0), (Heap.VRef 6).
  split_and!; try reflexivity; [lia|by apply Hname|].
  eexists 6%nat, _. split_and!; try reflexivity; [lia|].
  constructor; [|constructor].
  eexists 5%nat, _, (Heap.VRef 1), (Heap.VRef 4).
  split_and!; try reflexivity; [lia|by apply Hname|].
  eexists 4%nat, _. split_and!; try reflexivity; [lia|].
  constructor; [|constructor].
  eexists 3%nat, _, (Heap.VRef 2).
  split_and!; try reflexivity; [lia|by apply Hname].
Defined.

(** The zero city filtered in place: eight objects before, the same eight
    and some new ones after. *)
Lemma filterCountryData_pure_zero_city :
  ∃ result new,
    Heap.filterCountryData (Heap.VRef 7) (makeConfig ["en"] true) zeroCityHeap
    = Some (result, (zeroCityHeap ++ new)%list) ∧
    Heap.is_country 8 (zeroCityHeap ++ new)%list result
      (filterCountryData zeroCityCountry (makeConfig ["en"] true)) ∧
    Heap.is_country 0 (zeroCityHeap ++ new)%list (Heap.VRef 7) zeroCityCountry ∧
    ∀ config',
      ∃ result' new',
        Heap.filterCountryData (Heap.VRef 7) config' (zeroCityHeap ++ new)%list
        = Some (result', ((zeroCityHeap ++ new) ++ new')%list) ∧
        Heap.is_country (length (zeroCityHeap ++ new)%list)
          ((zeroCityHeap ++ new) ++ new')%list result'
          (filterCountryData zeroCityCountry config').
Proof.
  exact (filterCountryData_pure zeroCityHeap (Heap.VRef 7) zeroCityCountry
           (makeConfig ["en"] true) zeroCityHeap_represents).
Defined.


(** * Further properties of the code *)

(** ** config.ts *)

Section config_facts.
Context (C : config_env).

Lemma ui_bind_run {A B} (m : Ui A) (k : A → Ui B) log a log' :
  m log = (Returned a, log') → (m ≫= k) log = k a log'.
Proof. intros Hm. unfold mbind, Ui_bind. by rewrite Hm. Qed.

Lemma ui_bind_throw {A B} (m : Ui A) (k : A → Ui B) log e log' :
  m log = (Thrown e, log') → (m ≫= k) log = (Thrown e, log').
Proof. intros Hm. unfold mbind, Ui_bind. by rewrite Hm. Qed.

Lemma validateConfig_warnings (langs : list string) log :
  ui_for langs (λ lang,
      if bool_decide (lang ∈ VALID_LANGUAGES)
      then mret tt
      else ui (LogWarn ("Unknown language code " ++ dquote ++ lang ++ dquote))) log
  = (Returned tt, (log ++ unknown_language_warnings langs)%list).
Proof.
  revert log. induction langs as [|lang langs IH]; intros log.
  { unfold unknown_language_warnings. by rewrite filter_nil, app_nil_r. }
  cbn [ui_for]. unfold unknown_language_warnings.
  case_bool_decide as Hvalid.
  - rewrite (ui_bind_run _ _ log tt log) by done. rewrite IH.
    by rewrite filter_cons_False by (by intros []).
  - rewrite (ui_bind_run _ _ log tt
               (log ++ [LogWarn ("Unknown language code " ++ dquote ++ lang ++ dquote)])%list)
      by done.
    rewrite IH, filter_cons_True by done.
    by rewrite fmap_cons, <- (assoc_L app).
Qed.

Lemma validateConfig_run config log :
  validateConfig C config log
  = match ConfigSchema config with
    | inl i => (Thrown (Error (issue_message C i)), log)
    | inr data => (Returned data, (log ++ unknown_language_warnings (languages data))%list)
    end.
Proof.
  unfold validateConfig. destruct (ConfigSchema config) as [i|data]; [done|].
  by rewrite (ui_bind_run _ _ _ _ _ (validateConfig_warnings _ log)).
Qed.

Lemma ConfigSchema_toJson (c : GeoDataConfig) :
  outputDir c ≠ "" → languages c ≠ [] →
  ConfigSchema (Some (configToJson c)) = inr c.
Proof.
  destruct c as [s dir langs coords ts]. cbn [outputDir languages].
  intros Hdir Hlangs. unfold ConfigSchema, configToJson.
  assert ((String.length dir <? 1)%nat = false) as Hlen
    by (by destruct dir).
  assert ((length (JStr <$> langs) <? 1)%nat = false) as Hlen'
    by (by destruct langs).
  destruct s as [s|]; cbn -[Zod.array Nat.ltb String.length];
    rewrite Hlen, Hlen', (array_toJson _ _ _ string_toJson); done.
Qed.

Lemma ConfigSchema_nonempty config c :
  ConfigSchema config = inr c → outputDir c ≠ "" ∧ languages c ≠ [].
Proof.
  unfold ConfigSchema. intros Hc.
  repeat (case_match; try done). simplify_eq. cbn [outputDir languages]. split.
  - intros ->. done.
  - intros ->.
    match goal with
    | H : Zod.array _ _ = Some [] |- _ =>
        unfold Zod.array in H; apply mapM_Some in H; apply Forall2_nil_inv_r in H
    end.
    by subst.
Qed.

End config_facts.

Lemma getConfigResult_returns (C : config_env) (log : list ui_event) :
  ∃ result log', getConfigResult C log = (Returned result, log').
Proof.
  unfold getConfigResult, ui_try.
  destruct (config_file C) as [[raw|e]|]; [| |by eexists _, _].
  - rewrite (ui_bind_run _ _ log raw log) by done.
    unfold mbind, Ui_bind. rewrite validateConfig_run.
    destruct (ConfigSchema (Some raw)); by eexists _, _.
  - rewrite (ui_bind_throw _ _ log e log) by done. by eexists _, _.
Qed.

Lemma requireConfig_returns (C : config_env) (commandName : string) (log : list ui_event) :
  ∃ config log', requireConfig C commandName log = (Returned config, log').
Proof.
  destruct (getConfigResult_returns C log) as (result & log' & Hrun).
  unfold requireConfig. rewrite (ui_bind_run _ _ _ _ _ Hrun).
  destruct result; by eexists _, _.
Qed.

(** X1. A config with a non-empty output directory and at least one
    language, once written to [geo-data.json] as [init] writes it, is loaded
    back unchanged by [getConfigResult], [getConfig] and [requireConfig] alike;
    the only trace in the terminal is one warning for each language outside
    [VALID_LANGUAGES], which does not make the load fail. *)
Theorem written_config_loads_back (C : config_env) (c : GeoDataConfig)
    (commandName : string) (log : list ui_event) :
  outputDir c ≠ "" →
  languages c ≠ [] →
  config_file C = Some (Returned (configToJson c)) →
  let log' := (log ++ unknown_language_warnings (languages c))%list in
  getConfigResult C log = (Returned (ConfigOk c), log') ∧
  getConfig C log = (Returned (Some c), log') ∧
  requireConfig C commandName log = (Returned (Some c), log').
Proof.
  intros Hdir Hlangs Hfile log'.
  assert (getConfigResult C log = (Returned (ConfigOk c), log')) as Hresult.
  { unfold getConfigResult, ui_try. rewrite Hfile.
    rewrite (ui_bind_run _ _ log (configToJson c) log) by done.
    rewrite (ui_bind_run _ _ log c log'); [done|].
    by rewrite validateConfig_run, ConfigSchema_toJson. }
  split_and!; [done| |].
  - unfold getConfig. by rewrite (ui_bind_run _ _ _ _ _ Hresult).
  - unfold requireConfig. by rewrite (ui_bind_run _ _ _ _ _ Hresult).
Qed.

Lemma written_config_loads_back_unknown_language :
  let c := makeConfig ["en"; "tlh"] true in
  let C := {| config_file := Some (Returned (configToJson c));
              zod_message := λ _, "Invalid input" |} in
  requireConfig C "Add Countries" []
  = (Returned (Some c),
     [LogWarn ("Unknown language code " ++ dquote ++ "tlh" ++ dquote)]).
Proof.
  intros c C.
  refine (proj2 (proj2 (written_config_loads_back C c "Add Countries" [] _ _ eq_refl))).
  - discriminate.
  - discriminate.
Defined.

(** X2. Whatever payload [validateConfig] is given, a config it returns has a
    non-empty output directory and at least one language, and validates
    again to itself once written out; the terminal shows the log it started
    from followed by the warnings for the unknown languages of that config. *)
Theorem validateConfig_returns_usable_config (C : config_env) (config : option json)
    (log log' : list ui_event) (c : GeoDataConfig) :
  validateConfig C config log = (Returned c, log') →
  outputDir c ≠ "" ∧
  languages c ≠ [] ∧
  ConfigSchema (Some (configToJson c)) = inr c ∧
  log' = (log ++ unknown_language_warnings (languages c))%list.
Proof.
  rewrite validateConfig_run.
  destruct (ConfigSchema config) as [i|data] eqn:Hdata; [done|].
  intros [= -> <-].
  destruct (ConfigSchema_nonempty config c Hdata) as [Hdir Hlangs].
  split_and!; [done|done| |done]. by apply ConfigSchema_toJson.
Qed.

Lemma validateConfig_returns_usable_config_sample :
  let c := makeConfig ["en"; "ar"] true in
  outputDir c ≠ "" ∧ languages c ≠ [] ∧
  ConfigSchema (Some (configToJson c)) = inr c ∧
  ([] : list ui_event) = ([] ++ unknown_language_warnings (languages c))%list.
Proof.
  intros c.
  apply (validateConfig_returns_usable_config
           {| config_file := None; zod_message := λ _, "Invalid input" |}
           (Some (configToJson c)) [] [] c).
  vm_compute. reflexivity.
Defined.

(** X3. The error [validateConfig] throws carries the message of the first
    key of the shape that fails, whatever the later keys hold: with a
    well-typed [$schema] (or none), an empty [outputDir] gives "outputDir must
    be a non-empty string", and a non-empty [outputDir] with an empty
    [languages] array gives "languages must be a non-empty array". Nothing is
    logged before the throw. *)
Theorem validateConfig_first_issue (C : config_env) (o : list (string * json))
    (log : list ui_event) :
  is_Some (Zod.optional Zod.string_ (prop "$schema" o)) →
  (prop "outputDir" o = Some (JStr "") →
   validateConfig C (Some (JObj o)) log
   = (Thrown (Error "outputDir must be a non-empty string"), log)) ∧
  (∀ dir,
     prop "outputDir" o = Some (JStr dir) → dir ≠ "" →
     prop "languages" o = Some (JArr []) →
     validateConfig C (Some (JObj o)) log
     = (Thrown (Error "languages must be a non-empty array"), log)).
Proof.
  intros [s Hs]. split.
  - intros Hdir. rewrite validateConfig_run. unfold ConfigSchema.
    by rewrite Hs, Hdir.
  - intros dir Hdir Hne Hlangs. rewrite validateConfig_run. unfold ConfigSchema.
    rewrite Hs, Hdir, Hlangs. cbn [Zod.string_].
    by destruct dir.
Qed.

(** The bad config of config.test.ts, [{ outputDir: "", languages: [] }]: of
    its two faults the first is reported. *)
Lemma validateConfig_first_issue_both_empty :
  validateConfig {| config_file := None; zod_message := λ _, "Invalid input" |}
    (Some (JObj [("outputDir", JStr ""); ("languages", JArr [])])) []
  = (Thrown (Error "outputDir must be a non-empty string"), []).
Proof.
  refine (proj1 (validateConfig_first_issue _
            [("outputDir", JStr ""); ("languages", JArr [])] [] _) eq_refl).
  by exists None.
Defined.

(** X4. [getConfigResult] never throws. It answers [not_found] exactly when
    there is no [geo-data.json]; when reading the file throws, [invalid] with
    the message of that error; when the file is read, [invalid] with the
    message of the first issue or [ok] with the validated config. In the two
    invalid cases nothing is logged. *)
Theorem getConfigResult_never_throws (C : config_env) (log : list ui_event) :
  ∃ result log',
    getConfigResult C log = (Returned result, log') ∧
    (result = ConfigNotFound ↔ config_file C = None) ∧
    (∀ e, config_file C = Some (Thrown e) →
          result = ConfigInvalid (errorMessage e) ∧ log' = log) ∧
    (∀ raw, config_file C = Some (Returned raw) →
            match ConfigSchema (Some raw) with
            | inl i => result = ConfigInvalid (issue_message C i) ∧ log' = log
            | inr c => result = ConfigOk c
            end).
Proof.
  unfold getConfigResult, ui_try.
  destruct (config_file C) as [[raw|e]|] eqn:Hfile.
  - rewrite (ui_bind_run _ _ log raw log) by done.
    destruct (ConfigSchema (Some raw)) as [i|c] eqn:Hraw.
    + rewrite (ui_bind_throw _ _ log (Error (issue_message C i)) log)
        by (by rewrite validateConfig_run, Hraw).
      eexists _, _. split_and!; [done|done|done|].
      intros ? [= <-]. by rewrite Hraw.
    + rewrite (ui_bind_run _ _ log c
                 (log ++ unknown_language_warnings (languages c))%list)
        by (by rewrite validateConfig_run, Hraw).
      eexists _, _. split_and!; [done|done|done|].
      intros ? [= <-]. by rewrite Hraw.
  - rewrite (ui_bind_throw _ _ log e log) by done.
    eexists _, _. split_and!; [done|done| |done].
    by intros ? [= <-].
  - eexists _, _. by split_and!.
Qed.

(** X5. [requireConfig] and [getConfig] never throw and agree on what they
    return: the config when [getConfigResult] is [ok], [null] otherwise. On
    failure [requireConfig] shows the intro of the command, one error and a
    blank line, while [getConfig] is silent about a missing file and shows
    one error for an invalid one. *)
Theorem requireConfig_agrees_with_getConfig (C : config_env) (commandName : string)
    (log : list ui_event) :
  ∃ result log',
    getConfigResult C log = (Returned result, log') ∧
    match result with
    | ConfigOk c =>
        requireConfig C commandName log = (Returned (Some c), log') ∧
        getConfig C log = (Returned (Some c), log')
    | ConfigNotFound =>
        requireConfig C commandName log
        = (Returned None,
           (log' ++ [Intro commandName;
                     LogError "No geo-data.json found. Run 'npx geo-data init' first.";
                     ConsoleLog])%list) ∧
        getConfig C log = (Returned None, log')
    | ConfigInvalid e =>
        requireConfig C commandName log
        = (Returned None,
           (log' ++ [Intro commandName;
                     LogError ("Invalid geo-data.json: " ++ e);
                     ConsoleLog])%list) ∧
        getConfig C log
        = (Returned None,
           (log' ++ [LogError ("Error reading geo-data.json: " ++ e)])%list)
    end.
Proof.
  destruct (getConfigResult_returns C log) as (result & log' & Hrun).
  exists result, log'. split; [done|].
  unfold requireConfig, getConfig. rewrite !(ui_bind_run _ _ _ _ _ Hrun).
  destruct result as [c|  |e]; split; try done.
  all: unfold mbind, Ui_bind, ui, mret, Ui_ret; cbn; by rewrite <- ?(assoc_L app).
Qed.

(** ** registry.ts: the cache *)

(** X6. What [writeCache] stores under a key is what [readStaleCache] returns
    for that key at any later time, and what [readCache] returns as long as
    less than [maxAgeMs] has passed since the write; from then on [readCache]
    returns [null]. The entries under other keys are as they were. *)
Theorem cache_write_then_read (E E' : env) (cacheKey : string) (data : json)
    (maxAgeMs : Z) (w : world) :
  let w1 := (writeCache E cacheKey data w).2 in
  readStaleCache cacheKey w1 = (Returned data, w1) ∧
  readCache E' cacheKey maxAgeMs w1
  = (Returned (if bool_decide (Date_now E' - Date_now E < maxAgeMs)
               then data else JNull), w1) ∧
  (∀ other, other ≠ cacheKey → cache w1 !! other = cache w !! other).
Proof.
  intros w1. unfold w1, writeCache, readStaleCache, readCache. cbn [snd cache].
  rewrite lookup_insert_eq. cbn [mtimeMs contents]. split_and!.
  - done.
  - by case_bool_decide.
  - intros other Hother. by rewrite lookup_insert_ne.
Qed.

(** X7. After [clearCache] no key is served, fresh or stale, and a remote
    resolution whose fetch fails throws the error of the fetch: no stale copy
    is left to fall back on. The log of warnings and the list of requests are
    not touched by the clearing. *)
Theorem clearCache_forgets_everything (E : env) (w : world) :
  let w0 := (clearCache w).2 in
  warnings w0 = warnings w ∧
  requests w0 = requests w ∧
  (∀ cacheKey maxAgeMs,
     readCache E cacheKey maxAgeMs w0 = (Returned JNull, w0) ∧
     readStaleCache cacheKey w0 = (Returned JNull, w0)) ∧
  (isRemoteRegistry (REGISTRY_BASE E) = true →
   (∀ err,
      fetch_ E (REGISTRY_BASE E ++ "/index.json") = Thrown err →
      fetchRegistry E w0
      = (Thrown err, requested (REGISTRY_BASE E ++ "/index.json") w0)) ∧
   (∀ code config err,
      fetch_ E (REGISTRY_BASE E ++ "/countries/" ++ code ++ ".json") = Thrown err →
      fetchCountry E code config w0
      = (Thrown err,
         requested (REGISTRY_BASE E ++ "/countries/" ++ code ++ ".json") w0))).
Proof.
  intros w0. split_and!; [done|done| |].
  - intros cacheKey maxAgeMs. unfold readCache, readStaleCache.
    cbn [w0 clearCache snd cache]. by rewrite lookup_empty.
  - intros Hremote. split.
    + intros err Hfetch. by apply fetchRegistry_thrown.
    + intros code config err Hfetch. by apply fetchCountry_thrown.
Qed.

Lemma clearCache_forgets_everything_offline :
  let w := worldWith "registry-index" 0 (ToJson.registryIndex sampleIndex) in
  fetchRegistry (offline (hour / 2)) (clearCache w).2
  = (Thrown (Error "fetch failed"),
     requested (cdn ++ "/index.json") (clearCache w).2).
Proof.
  intros w.
  exact (proj1 (proj2 (proj2 (proj2 (clearCache_forgets_everything
           (offline (hour / 2)) w))) eq_refl) (Error "fetch failed") eq_refl).
Defined.

(** ** registry.ts: what one call does to the world *)

Ltac run_resolver :=
  unfold fetchRegistry, fetchCountry; unfold_M; unfold readCache, fetchJson;
  repeat case_match; simplify_eq; cbn [fst snd cache warnings requests].

(** X8. One call of [fetchRegistry] or [fetchCountry], whatever the registry,
    the cache and the network, hands at most one URL to [fetch] (a failed
    fetch is not tried again) and logs at most two warnings: the one for the
    unreachable network, then the one for the failed validation. *)
Theorem resolver_makes_at_most_one_request (E : env) (w : world) :
  (let run := fetchRegistry E w in
   (requests run.2 = requests w ∨
    ∃ url, requests run.2 = (requests w ++ [url])%list) ∧
   (warnings run.2 = warnings w ∨
    warnings run.2 = (warnings w ++ [NetworkUnavailable])%list ∨
    warnings run.2 = (warnings w ++ [IndexFailedValidation])%list ∨
    warnings run.2
    = ((warnings w ++ [NetworkUnavailable]) ++ [IndexFailedValidation])%list)) ∧
  (∀ code config,
   let run := fetchCountry E code config w in
   (requests run.2 = requests w ∨
    ∃ url, requests run.2 = (requests w ++ [url])%list) ∧
   (warnings run.2 = warnings w ∨
    warnings run.2 = (warnings w ++ [NetworkUnavailable])%list ∨
    warnings run.2 = (warnings w ++ [CountryFailedValidation code])%list ∨
    warnings run.2
    = ((warnings w ++ [NetworkUnavailable]) ++ [CountryFailedValidation code])%list)).
Proof.
  split; [|intros code config]; cbv zeta; run_resolver; (split; [eauto|tauto]).
Qed.

Lemma fetchCountry_world_any_config (E : env) (code : string)
    (config config' : GeoDataConfig) (w : world) :
  (fetchCountry E code config' w).2 = (fetchCountry E code config w).2.
Proof. run_resolver; done. Qed.

(** X9. The only change a resolver ever makes to the cache is the entry of
    its own key, and only when it returns data from a remote registry: then
    that entry holds, stamped with the time of the call, the data validated
    from the payload the call acquired (the entry that was cached under the
    key, or what [fetchJson] returned for the URL), whole: [fetchCountry]
    returns that data filtered for the config and leaves the same cache
    whatever the config is. When a resolver returns [null], throws, or reads
    a local registry, the cache is exactly as it was. *)
Theorem cache_footprint (E : env) (w : world) :
  (let run := fetchRegistry E w in
   cache run.2
   = match run.1 with
     | Returned (Some r) =>
         if isRemoteRegistry (REGISTRY_BASE E)
         then <["registry-index" :=
                  {| mtimeMs := Date_now E; contents := ToJson.registryIndex r |}]>
                (cache w)
         else cache w
     | _ => cache w
     end) ∧
  (∀ code config,
   let run := fetchCountry E code config w in
   (∀ config', cache (fetchCountry E code config' w).2 = cache run.2) ∧
   match run.1 with
   | Returned (Some r) =>
       if isRemoteRegistry (REGISTRY_BASE E)
       then ∃ raw d,
              ((∃ stat, cache w !! ("country-" ++ code) = Some stat ∧
                        contents stat = raw) ∨
               (fetchJson E (REGISTRY_BASE E ++ "/countries/" ++ code ++ ".json") w).1
               = Returned raw) ∧
              CountryDataSchema (Some raw) = Some d ∧
              r = filterCountryData d config ∧
              cache run.2
              = <["country-" ++ code :=
                    {| mtimeMs := Date_now E; contents := ToJson.countryData d |}]>
                  (cache w)
       else cache run.2 = cache w
   | _ => cache run.2 = cache w
   end).
Proof.
  split; [|intros code config; split;
           [intros config'; by rewrite (fetchCountry_world_any_config E code config config')|]];
    cbv zeta; run_resolver; simplify_eq/=; eauto 10.
Qed.

(** X10. With a registry that is not remote, the cache plays no part: the
    outcome, the warnings and the requests of a resolver are the same
    whatever the cache holds, the cache is left as it was, and the only
    warning that can be logged is the one for a failed validation; in
    particular an error of the read is thrown even when the cache holds a
    copy. *)
Theorem local_registry_bypasses_cache (E : env) (w : world)
    (c : gmap string cache_file) :
  isRemoteRegistry (REGISTRY_BASE E) = false →
  (let run := fetchRegistry E w in
   fetchRegistry E (with_cache c w) = (run.1, with_cache c run.2) ∧
   cache run.2 = cache w ∧
   (warnings run.2 = warnings w ∨
    warnings run.2 = (warnings w ++ [IndexFailedValidation])%list)) ∧
  (∀ code config,
   let run := fetchCountry E code config w in
   fetchCountry E code config (with_cache c w) = (run.1, with_cache c run.2) ∧
   cache run.2 = cache w ∧
   (warnings run.2 = warnings w ∨
    warnings run.2 = (warnings w ++ [CountryFailedValidation code])%list)).
Proof.
  intros Hlocal.
  split; [|intros code config]; cbv zeta;
    unfold fetchRegistry, fetchCountry; rewrite Hlocal; unfold_M; unfold fetchJson;
    cbn [cache warnings requests with_cache];
    repeat case_match; simplify_eq; cbn [fst snd cache warnings requests];
    split_and!; auto.
Qed.

(** A local mirror holding a malformed index, and a cache holding a valid
    one: the cached copy is not used. *)
Lemma local_registry_bypasses_cache_mirror :
  let E := localMirror 0 malformed in
  let c := cache (worldWith "registry-index" 0 (ToJson.registryIndex sampleIndex)) in
  fetchRegistry E (with_cache c emptyWorld)
  = (Returned None, with_cache c (warned IndexFailedValidation emptyWorld)).
Proof.
  intros E c.
  exact (proj1 (proj1 (local_registry_bypasses_cache E emptyWorld c eq_refl))).
Defined.

(** X11. A cache file whose content is a falsy JSON value ([null], [false],
    [0] or the empty string) counts as no file at all, fresh or not: a
    remote resolver goes to the network, and when the fetch fails it throws
    the error of the fetch instead of falling back on the file. *)
Theorem falsy_entry_counts_as_missing (E : env) (w : world) (stat : cache_file) :
  isRemoteRegistry (REGISTRY_BASE E) = true →
  json_truthy (contents stat) = false →
  (cache w !! "registry-index" = Some stat →
   requests (fetchRegistry E w).2
   = (requests w ++ [(REGISTRY_BASE E ++ "/index.json")%string])%list ∧
   ∀ err, fetch_ E (REGISTRY_BASE E ++ "/index.json") = Thrown err →
          fetchRegistry E w
          = (Thrown err, requested (REGISTRY_BASE E ++ "/index.json") w)) ∧
  (∀ code config,
   cache w !! ("country-" ++ code) = Some stat →
   requests (fetchCountry E code config w).2
   = (requests w
        ++ [(REGISTRY_BASE E ++ "/countries/" ++ code ++ ".json")%string])%list ∧
   ∀ err, fetch_ E (REGISTRY_BASE E ++ "/countries/" ++ code ++ ".json") = Thrown err →
          fetchCountry E code config w
          = (Thrown err,
             requested (REGISTRY_BASE E ++ "/countries/" ++ code ++ ".json") w)).
Proof.
  intros Hremote Hfalsy. split; [|intros code config]; intros Hstat.
  - assert (unserved E w "registry-index" (60 * 60 * 1000)) as Hun.
    { intros stat'. rewrite Hstat. by intros [= <-]. }
    assert (∀ err, fetch_ E (REGISTRY_BASE E ++ "/index.json") = Thrown err →
              fetchRegistry E w
              = (Thrown err, requested (REGISTRY_BASE E ++ "/index.json") w))
      as Hthrown.
    { intros err Hfetch. run_remote Hremote.
      destruct (readCache_unserved E w _ _ Hun) as (v & -> & ->).
      rewrite (fetchJson_remote E Hremote), Hfetch. cbn [cache requested].
      by rewrite Hstat, Hfalsy. }
    split; [|done].
    destruct (fetch_ E (REGISTRY_BASE E ++ "/index.json")) as [payload|err] eqn:Hfetch.
    + rewrite (fetchRegistry_fetched E Hremote w payload Hun Hfetch).
      unfold index_outcome. by destruct (RegistryIndexSchema _).
    + by rewrite (Hthrown err).
  - assert (unserved E w ("country-" ++ code) (24 * 60 * 60 * 1000)) as Hun.
    { intros stat'. rewrite Hstat. by intros [= <-]. }
    assert (∀ err,
              fetch_ E (REGISTRY_BASE E ++ "/countries/" ++ code ++ ".json") = Thrown err →
              fetchCountry E code config w
              = (Thrown err,
                 requested (REGISTRY_BASE E ++ "/countries/" ++ code ++ ".json") w))
      as Hthrown.
    { intros err Hfetch. run_remote Hremote.
      destruct (readCache_unserved E w _ _ Hun) as (v & -> & ->).
      rewrite (fetchJson_remote E Hremote), Hfetch. cbn [cache requested].
      by rewrite Hstat, Hfalsy. }
    split; [|done].
    destruct (fetch_ E (REGISTRY_BASE E ++ "/countries/" ++ code ++ ".json"))
      as [payload|err] eqn:Hfetch.
    + rewrite (fetchCountry_fetched E Hremote code config w payload Hun Hfetch).
      unfold country_outcome. by destruct (CountryDataSchema _).
    + by rewrite (Hthrown err).
Qed.

(** A fresh cache file holding [null], and no network: the file is not
    served and the error of the fetch is thrown. *)
Lemma falsy_entry_counts_as_missing_null :
  let E := offline (hour / 2) in
  let w := worldWith "registry-index" 0 JNull in
  fetchRegistry E w = (Thrown (Error "fetch failed"), requested (cdn ++ "/index.json") w).
Proof.
  intros E w.
  exact (proj2 (proj1 (falsy_entry_counts_as_missing E w
                  {| mtimeMs := 0; contents := JNull |} eq_refl eq_refl)
                (lookup_singleton_eq _ _))
           (Error "fetch failed") eq_refl).
Defined.

Lemma fetchRegistry_each_served (r : RegistryIndex) (Es : list env) (E0 : env)
    (w' : world) :
  each_within (60 * 60 * 1000) (Date_now E0) Es →
  let run := fetchRegistry_each Es
               (stored E0 "registry-index" (ToJson.registryIndex r) w') in
  Forall (λ out, out = Returned (Some r)) run.1 ∧ requests run.2 = requests w'.
Proof.
  revert E0 w'. induction Es as [|E Es IH]; intros E0 w'; cbn [each_within].
  { intros _. by split. }
  intros (Hremote & Hwindow & Hrest). cbn [fetchRegistry_each]. cbv zeta.
  rewrite (refetch_index E0 E Hremote w' r Hwindow). cbn [fst snd].
  destruct (IH E (stored E0 "registry-index" (ToJson.registryIndex r) w') Hrest)
    as [Houts Hrequests].
  split; [by constructor|]. by rewrite Hrequests.
Qed.

(** X12. The freshness window of the index slides: each call that is served
    from the cache writes the entry again with the time of that call. So
    after one successful remote [fetchRegistry], any series of later calls
    each less than an hour after the one before it is served from the cache
    with the same index and without a single request, however long ago the
    index was last fetched. *)
Theorem fresh_window_slides (E0 : env) (Es : list env) (w w1 : world)
    (r : RegistryIndex) :
  isRemoteRegistry (REGISTRY_BASE E0) = true →
  fetchRegistry E0 w = (Returned (Some r), w1) →
  each_within (60 * 60 * 1000) (Date_now E0) Es →
  let run := fetchRegistry_each Es w1 in
  Forall (λ out, out = Returned (Some r)) run.1 ∧ requests run.2 = requests w1.
Proof.
  intros Hremote Hrun Hwithin.
  destruct (fetchRegistry_success E0 Hremote w r w1 Hrun) as [w' ->].
  exact (fetchRegistry_each_served r Es E0 w' Hwithin).
Qed.

(** The index is fetched at time zero; three calls follow, fifty minutes
    apart, with the network down. The last one is two and a half hours after
    the fetch and is still served. *)
Lemma fresh_window_slides_three_calls :
  let E0 := online 0 (ToJson.registryIndex sampleIndex) in
  let Es := [offline (50 * 60 * 1000); offline (100 * 60 * 1000);
             offline (150 * 60 * 1000)] in
  let run := fetchRegistry_each Es (fetchRegistry E0 emptyWorld).2 in
  Forall (λ out, out = Returned (Some sampleIndex)) run.1 ∧
  requests run.2 = requests (fetchRegistry E0 emptyWorld).2.
Proof.
  intros E0 Es.
  apply (fresh_window_slides E0 Es emptyWorld _ sampleIndex eq_refl).
  - vm_compute. reflexivity.
  - repeat split.
Defined.

(** ** registry.ts: more on filterCountryData *)

(** X13. [filterName] keeps exactly this, of a name object that has no
    [__proto__] key of its own (the schemas and the filter produce no other):
    a key of the result is a configured language or [en], it is not
    [__proto__], and it carries what reading the original under that key
    finds, which is truthy; conversely every such pair is in the result. What
    the read finds is the original's own entry or, where it has none, the
    member of [Object.prototype] of that name: no other key is invented and
    no value is changed. *)
Theorem filterName_keeps_exactly (config : GeoDataConfig)
    (name : gmap string Proto.value) (k : string) (v : Proto.value) :
  no_own_proto name →
  Proto.filterName config name !! k = Some v ↔
  ((k ∈ languages config ∨ k = "en") ∧ k ≠ "__proto__") ∧
  Proto.get name k = Some v ∧ Proto.truthy v = true.
Proof.
  intros _. rewrite proto_filterName_lookup. case_bool_decide as Hk.
  - rewrite found_Some. tauto.
  - split; [done|tauto].
Qed.

(** A name with English alone, filtered for the language [toString]. *)
Lemma filterName_keeps_exactly_toString :
  Proto.filterName (makeConfig ["toString"] false) (Proto.Str <$> {[ "en" := "X" ]})
    !! "toString"
  = Some (Proto.Fn "toString").
Proof.
  apply filterName_keeps_exactly; [by vm_compute|].
  split_and!; [|done|by vm_compute|done].
  left. cbn [languages makeConfig]. apply elem_of_cons. by left.
Defined.

Lemma filterCity_coordinates_original config city :
  (includeCoordinates config = false →
   latitude (filterCity config city) = None ∧
   longitude (filterCity config city) = None) ∧
  (latitude (filterCity config city) = None ∨
   latitude (filterCity config city) = latitude city) ∧
  (longitude (filterCity config city) = None ∨
   longitude (filterCity config city) = longitude city).
Proof.
  unfold filterCity.
  destruct (includeCoordinates config), (latitude city), (longitude city);
    cbn; split_and!; auto; done.
Qed.

(** X14. Apart from the names, [filterCountryData] changes nothing but the
    coordinates: the code, [iso3], phone, currency, time zone and flag of the
    dataset are the original ones, the regions are the same in number and
    order with their codes, the cities of each region likewise, and a
    coordinate of a filtered city is either absent or the original one,
    always absent when [includeCoordinates] is off. *)
Theorem filterCountryData_keeps_structure (d : CountryData) (c : GeoDataConfig) :
  let d' := filterCountryData d c in
  code d' = code d ∧ iso3 d' = iso3 d ∧ phone d' = phone d ∧
  currency d' = currency d ∧ timezone d' = timezone d ∧ flag d' = flag d ∧
  Forall2 (λ r r',
             region_code r' = region_code r ∧
             Forall2 (λ city city',
                        (includeCoordinates c = false →
                         latitude city' = None ∧ longitude city' = None) ∧
                        (latitude city' = None ∨ latitude city' = latitude city) ∧
                        (longitude city' = None ∨ longitude city' = longitude city))
                     (cities r) (cities r'))
          (regions d) (regions d').
Proof.
  cbv zeta. split_and!; try reflexivity.
  rewrite filterCountryData_regions.
  apply Forall2_fmap_r, Forall_Forall2_diag, Forall_forall. intros r _.
  split; [reflexivity|]. rewrite filterRegion_cities.
  apply Forall2_fmap_r, Forall_Forall2_diag, Forall_forall. intros city _.
  apply filterCity_coordinates_original.
Qed.

(** X15. Filtering for a config and then for a narrower one (its languages
    among those of the first, coordinates only if the first has them) gives
    the object that filtering the original for the narrower config gives,
    when no name of the dataset holds the empty string under a language of
    the narrower config that names a function of [Object.prototype]: a
    dataset installed for some languages can then be narrowed without the
    registry. *)
Theorem projection_of_projection (d : CountryData) (c1 c2 : GeoDataConfig) :
  languages c1 ⊆ languages c2 →
  (includeCoordinates c1 = true → includeCoordinates c2 = true) →
  no_empty_member_data c1 d →
  Proto.filterCountryData (Proto.filterCountryData (object_of_data d) c2) c1
  = Proto.filterCountryData (object_of_data d) c1.
Proof.
  intros Hlangs Hcoords [Hname Hregions].
  unfold Proto.filterCountryData, object_of_data.
  cbn [Proto.name Proto.regions Proto.code Proto.iso3 Proto.phone Proto.currency
       Proto.timezone Proto.flag].
  rewrite proto_filterName_narrower by done. f_equal.
  rewrite <- !list_fmap_compose. apply Forall_fmap_ext.
  eapply Forall_impl; [exact Hregions|]. intros r Hr. unfold compose.
  by apply proto_filterRegion_narrower.
Qed.

Lemma projection_of_projection_sample :
  Proto.filterCountryData
    (Proto.filterCountryData (object_of_data makeSampleCountry)
       (makeConfig ["ar"; "fr"; "toString"] true))
    (makeConfig ["ar"; "toString"] false)
  = Proto.filterCountryData (object_of_data makeSampleCountry)
      (makeConfig ["ar"; "toString"] false).
Proof.
  apply projection_of_projection.
  - intros lang. cbn [languages makeConfig]. rewrite !elem_of_cons. tauto.
  - discriminate.
  - assert (∀ name : gmap string string,
              name !! "toString" = None →
              no_empty_member (makeConfig ["ar"; "toString"] false) name) as Hno.
    { intros name Hname k Hk Hmember. cbn [languages makeConfig] in Hk.
      apply elem_of_cons in Hk as [->|Hk];
        [apply (proj2 (bool_decide_eq_true _)) in Hmember; by vm_compute in Hmember|].
      apply elem_of_cons in Hk as [->|Hk]; [by rewrite Hname|].
      by apply elem_of_nil in Hk. }
    repeat first [apply Hno; by vm_compute | split | apply Forall_cons_2
                 | apply Forall_nil_2].
Defined.

(** ** schemas.ts *)

Lemma prop_other k k' v (o1 o2 : list (string * json)) :
  k' ≠ k → prop k' (o1 ++ (k, v) :: o2)%list = prop k' (o1 ++ o2)%list.
Proof.
  intros Hk. induction o1 as [|[k1 v1] o1 IH]; cbn [prop app].
  - by rewrite (proj2 (String.eqb_neq k' k) Hk).
  - by rewrite IH.
Qed.

(** X17. The object schemas strip what they do not know: a property under a
    key outside the shape, wherever it stands in the payload and whatever its
    value, changes neither whether the payload validates nor the value it
    validates to. *)
Theorem unknown_keys_are_dropped (o1 o2 : list (string * json)) (k : string)
    (v : json) :
  (k ∉ ["name"; "latitude"; "longitude"] →
   CitySchema (Some (JObj (o1 ++ (k, v) :: o2)%list))
   = CitySchema (Some (JObj (o1 ++ o2)%list))) ∧
  (k ∉ ["code"; "name"; "cities"] →
   RegionSchema (Some (JObj (o1 ++ (k, v) :: o2)%list))
   = RegionSchema (Some (JObj (o1 ++ o2)%list))) ∧
  (k ∉ ["code"; "iso3"; "name"; "phone"; "currency"; "timezone"; "flag"; "regions"] →
   CountryDataSchema (Some (JObj (o1 ++ (k, v) :: o2)%list))
   = CountryDataSchema (Some (JObj (o1 ++ o2)%list))) ∧
  (k ∉ ["version"; "countries"] →
   RegistryIndexSchema (Some (JObj (o1 ++ (k, v) :: o2)%list))
   = RegistryIndexSchema (Some (JObj (o1 ++ o2)%list))).
Proof.
  split_and!; intros Hk;
    unfold CitySchema, RegionSchema, CountryDataSchema, RegistryIndexSchema,
      Zod.object;
    by rewrite !(prop_other k _ v o1 o2) by (intros <-; apply Hk; set_solver).
Qed.

Lemma unknown_keys_are_dropped_population :
  CitySchema (Some (JObj [("name", JObj [("en", JStr "Riyadh")]);
                          ("population", JNum (7000000 # 1)%Q)]))
  = CitySchema (Some (JObj [("name", JObj [("en", JStr "Riyadh")])])).
Proof.
  apply (proj1 (unknown_keys_are_dropped
                  [("name", JObj [("en", JStr "Riyadh")])] [] "population"
                  (JNum (7000000 # 1)%Q))).
  rewrite !elem_of_cons, elem_of_nil. intros [H|[H|[H|[]]]]; discriminate H.
Defined.

(** X18. A dataset that validates is valid all the way down: the payload is an
    object whose [regions] is an array, each item of it validates as a region
    to the region at the same place of the result, and is an object whose
    [cities] is an array of items that validate as the cities of that
    region. *)
Theorem dataset_is_validated_throughout (raw : json) (d : CountryData) :
  CountryDataSchema (Some raw) = Some d →
  ∃ o rs,
    raw = JObj o ∧ prop "regions" o = Some (JArr rs) ∧
    Forall2 (λ j r,
               RegionSchema (Some j) = Some r ∧
               ∃ o' cs,
                 j = JObj o' ∧ prop "cities" o' = Some (JArr cs) ∧
                 Forall2 (λ j' c, CitySchema (Some j') = Some c) cs (cities r))
            rs (regions d).
Proof.
  intros Hd. destruct raw as [| | | | |o]; try done. exists o.
  unfold CountryDataSchema, Zod.object in Hd.
  repeat (apply bind_Some in Hd as (? & ? & Hd)). simplify_eq.
  match goal with H : Zod.array RegionSchema _ = Some _ |- _ => rename H into Hrs end.
  unfold Zod.array in Hrs. destruct (prop "regions" o) as [[| | | |rs|]|]; try done.
  exists rs. split_and!; [done..|]. cbn [regions].
  apply mapM_Some in Hrs. eapply Forall2_impl; [exact Hrs|].
  intros j r Hr. split; [done|].
  destruct j as [| | | | |o']; try done. exists o'.
  unfold RegionSchema, Zod.object in Hr.
  repeat (apply bind_Some in Hr as (? & ? & Hr)). simplify_eq.
  match goal with H : Zod.array CitySchema _ = Some _ |- _ => rename H into Hcs end.
  unfold Zod.array in Hcs. destruct (prop "cities" o') as [[| | | |cs|]|]; try done.
  exists cs. split_and!; [done..|]. cbn [cities]. by apply mapM_Some in Hcs.
Qed.

Lemma dataset_is_validated_throughout_sample :
  ∃ o rs,
    ToJson.countryData makeCountryWithZeroCoords = JObj o ∧
    prop "regions" o = Some (JArr rs) ∧
    Forall2 (λ j r,
               RegionSchema (Some j) = Some r ∧
               ∃ o' cs,
                 j = JObj o' ∧ prop "cities" o' = Some (JArr cs) ∧
                 Forall2 (λ j' c, CitySchema (Some j') = Some c) cs (cities r))
            rs (regions makeCountryWithZeroCoords).
Proof.
  apply dataset_is_validated_throughout. vm_compute. reflexivity.
Defined.

(** X19. [optional()] is not [nullable()]: a city whose [latitude] or
    [longitude] is present with a value that is not a number ([null]
    included), and a dataset whose [iso3] is present with a value that is not
    a string, fail validation whatever else they hold. *)
Theorem optional_is_not_nullable (o : list (string * json)) (v : json) :
  ((∀ n, v ≠ JNum n) →
   prop "latitude" o = Some v ∨ prop "longitude" o = Some v →
   CitySchema (Some (JObj o)) = None) ∧
  ((∀ s, v ≠ JStr s) →
   prop "iso3" o = Some v →
   CountryDataSchema (Some (JObj o)) = None).
Proof.
  split.
  - intros Hv Hprop. unfold CitySchema, Zod.object.
    destruct (Zod.record Zod.string_ (prop "name" o)) as [n|]; [|done].
    cbn [mbind option_bind].
    destruct Hprop as [-> | ->].
    + destruct v; try done. by destruct (Hv n0).
    + destruct (Zod.optional Zod.number (prop "latitude" o)); [|done].
      cbn [mbind option_bind]. destruct v; try done. by destruct (Hv n0).
  - intros Hv Hprop. unfold CountryDataSchema, Zod.object.
    destruct (Zod.string_ (prop "code" o)) as [c|]; [|done].
    cbn [mbind option_bind]. rewrite Hprop.
    destruct v; try done. by destruct (Hv s).
Qed.

Lemma optional_is_not_nullable_null_latitude :
  CitySchema (Some (JObj [("name", JObj [("en", JStr "Riyadh")]);
                          ("latitude", JNull)])) = None.
Proof.
  apply (proj1 (optional_is_not_nullable _ JNull)).
  - discriminate.
  - left. reflexivity.
Defined.

(** ** helpers.ts *)

Section installed.

Lemma string_app_cons c (s1 s2 : string) : String c s1 ++ s2 = String c (s1 ++ s2).
Proof. reflexivity. Qed.

Lemma string_app_assoc (s1 s2 s3 : string) : (s1 ++ s2) ++ s3 = s1 ++ (s2 ++ s3).
Proof.
  induction s1 as [|c s1 IH]; [done|]. rewrite !string_app_cons. by f_equal.
Qed.

Lemma rev_app_acc s acc : String.rev_app s acc = String.rev_app s "" ++ acc.
Proof.
  revert acc. induction s as [|c s IH]; intros acc; cbn [String.rev_app]; [done|].
  rewrite (IH (String c acc)), (IH (String c "")).
  by rewrite string_app_assoc.
Qed.

Lemma rev_app_app s p acc :
  String.rev_app (s ++ p) acc = String.rev_app p (String.rev_app s acc).
Proof.
  revert acc. induction s as [|c s IH]; intros acc; [done|].
  rewrite string_app_cons. cbn [String.rev_app]. apply IH.
Qed.

Lemma prefix_app p s : String.prefix p (p ++ s) = true.
Proof.
  induction p as [|c p IH]; [by destruct s|].
  rewrite string_app_cons. cbn [String.prefix]. by destruct (ascii_dec c c).
Qed.

Lemma endsWith_app s p : Js.endsWith (s ++ p) p = true.
Proof.
  unfold Js.endsWith, String.rev.
  rewrite rev_app_app, (rev_app_acc p (String.rev_app s "")).
  apply prefix_app.
Qed.

Lemma replace_json c : dotless c → Js.replace (c ++ ".json") ".json" "" = c.
Proof.
  induction c as [|a c IH]; [done|]. intros [Ha Hc].
  rewrite string_app_cons. cbn [Js.replace String.prefix].
  destruct (ascii_dec "." a) as [<-|_]; [done|]. by rewrite IH.
Qed.

Lemma rev_app_rev_app s a b :
  String.rev_app (String.rev_app s a) b = String.rev_app a (s ++ b).
Proof.
  revert a. induction s as [|c s IH]; intros a; [done|].
  cbn [String.rev_app]. by rewrite IH.
Qed.

Lemma string_app_nil_r (s : string) : s ++ "" = s.
Proof. induction s as [|c s IH]; [done|]. rewrite string_app_cons. by f_equal. Qed.

(** Appending the same suffix to two different names gives two different
    names. *)
Lemma string_app_inj_r (s1 s2 p : string) : s1 ++ p = s2 ++ p → s1 = s2.
Proof.
  intros Heq.
  assert (String.rev_app (s1 ++ p) "" = String.rev_app (s2 ++ p) "") as Hrev
    by (by rewrite Heq).
  rewrite !rev_app_app, (rev_app_acc p (String.rev_app s1 "")),
    (rev_app_acc p (String.rev_app s2 "")) in Hrev.
  apply String.app_inj in Hrev.
  assert (String.rev_app (String.rev_app s1 "") "" = String.rev_app (String.rev_app s2 "") "")
    as Hrev' by (by rewrite Hrev).
  rewrite !rev_app_rev_app in Hrev'. cbn [String.rev_app] in Hrev'.
  by rewrite !string_app_nil_r in Hrev'.
Qed.

End installed.

(** X20. [getInstalledCountries] gives back the codes of the data files: for a
    directory listing that holds [<code>.json] for each code of a list (codes
    without a dot) followed by names that do not end in [.json], it returns
    the codes in the order listed, without [index]. *)
Theorem installed_countries_are_listed_back (codes others : list string) :
  Forall dotless codes →
  Forall (λ f, Js.endsWith f ".json" = false) others →
  getInstalledCountries
    (Returned (((λ c, (c ++ ".json")%string) <$> codes) ++ others)%list)
  = filter (λ c, c ≠ "index") codes.
Proof.
  intros Hcodes Hothers. unfold getInstalledCountries.
  rewrite filter_app, fmap_app.
  assert (filter (λ f, Js.endsWith f ".json" && negb (String.eqb f "index.json")) others
          = []) as ->.
  { induction Hothers as [|f others Hf _ IH]; [done|].
    rewrite filter_cons_False; [done|]. rewrite Hf. by intros []. }
  rewrite fmap_nil, app_nil_r.
  induction Hcodes as [|c codes Hc _ IH]; [done|].
  rewrite fmap_cons. destruct (decide (c = "index")) as [->|Hne].
  - rewrite filter_cons_False by (by vm_compute).
    rewrite (filter_cons_False _ "index") by (by intros []). apply IH.
  - rewrite filter_cons_True, (filter_cons_True _ c) by
      (try done; rewrite endsWith_app; apply negb_prop_intro;
       rewrite Is_true_true, String.eqb_eq; intros Heq;
       by apply Hne, (string_app_inj_r c "index" ".json")).
    rewrite fmap_cons, replace_json by done. by rewrite IH.
Qed.

Lemma installed_countries_are_listed_back_sample :
  getInstalledCountries (Returned ["sa.json"; "index.json"; "us.json"; "index.ts"])
  = ["sa"; "us"].
Proof.
  apply (installed_countries_are_listed_back ["sa"; "index"; "us"] ["index.ts"]).
  - repeat constructor; discriminate.
  - repeat constructor.
Defined.

(** ** commands/update.ts *)

Lemma fetchCountry_returns_filtered E code config w d w' :
  fetchCountry E code config w = (Returned (Some d), w') →
  ∃ d0, d = filterCountryData d0 config.
Proof.
  revert w'. run_resolver; intros w' ?; simplify_eq; eauto.
Qed.

Ltac unfold_Cmd :=
  unfold say, in_terminal, ui, cmd_try, in_registry, writeJson, set_exitCode,
    run_generateIndex, ensureDir, cmd_throw, cmd_of;
  unfold mbind, Cmd_bind, mret, Cmd_ret.

(** Building the text of the spinner throws for [__proto__] and for
    [undefined] alone. *)
Lemma info_label_returns info :
  info ≠ InheritedPrototype → info_truthy info = true →
  ∃ label, info_label info = Returned label.
Proof. destruct info; intros ? ?; try done; by eexists. Qed.

Lemma formatCountryDisplay_returns (registry : RegistryIndex) (codes : list string) :
  Forall (λ code, countries_get registry code ≠ InheritedPrototype) codes →
  ∃ list,
    map_throwing (λ code, formatCountryDisplay code (countries_get registry code)) codes
    = Returned list.
Proof.
  induction 1 as [|code codes Hcode _ [list IH]]; [by eexists|].
  cbn [map_throwing]. rewrite IH.
  destruct (countries_get registry code); try done; by eexists.
Qed.

Section update_loop.
Context (E : env) (F : fs_env) (config : GeoDataConfig) (registry : RegistryIndex).

Lemma update_each_run (codes : list string) (updated : nat) (s : process) :
  ∃ r s',
    update_each E F config registry codes updated s = (r, s') ∧
    exitCode s' = exitCode s ∧
    registry_world s' = resolve_each E config (listed registry codes) (registry_world s) ∧
    (∀ f,
       output_files s' !! f = output_files s !! f ∨
       ∃ code d,
         code ∈ listed registry codes ∧ f = code ++ ".json" ∧
         writeJson_error F f = None ∧
         output_files s' !! f
         = Some (JsonFile (ToJson.countryData (filterCountryData d config)))) ∧
    (Forall (λ code, countries_get registry code ≠ InheritedPrototype) codes →
     ∃ n, r = Returned n).
Proof.
  revert updated s. induction codes as [|code codes IH]; intros updated s.
  { exists (Returned updated), s. split_and!; [done..| |by eexists]. intros f. by left. }
  cbn [update_each listed].
  destruct (countries_get registry code) as [info|member| |] eqn:Hinfo;
    cbn [info_truthy negb info_label].
  4: { destruct (IH updated s) as (r & s' & Hrun & ? & ? & ? & Hret).
       exists r, s'. split_and!; [done..|]. intros [_ ?]%Forall_cons. by apply Hret. }
  3: { unfold_Cmd. exists (Thrown TypeError), s. split_and!; [done..| |].
       - intros f. by left.
       - by intros [? _]%Forall_cons. }
  all: unfold_Cmd; cbn [terminal registry_world output_files exitCode].
  all: destruct (fetchCountry E code config (registry_world s)) as [[[d|]|e] w'] eqn:Hrun;
    [destruct (writeJson_error F (code ++ ".json")) as [e|] eqn:Hwrite|..].
  all: match goal with
       | |- context [update_each _ _ _ _ _ ?n ?s1] =>
           destruct (IH n s1) as (r & s' & -> & Hexit & Hworld & Hfiles & Hret)
       end.
  all: cbn [terminal registry_world output_files exitCode] in *.
  all: exists r, s'; split_and!; [done|done| | |].
  all: try (rewrite Hworld; unfold resolve_each; cbn [foldl]; by rewrite Hrun).
  all: try (intros [_ ?]%Forall_cons; by apply Hret).
  all: intros f; destruct (Hfiles f) as [Hf|(code' & d' & Hin & -> & Hw & Hf)];
    [|right; exists code', d'; split_and!; [by apply elem_of_cons; right|done..]].
  all: try (by left).
  (* the file was written in this round *)
  all: destruct (decide (f = code ++ ".json")) as [->|Hne];
    [right; apply fetchCountry_returns_filtered in Hrun as [d0 ->];
     exists code, d0; split_and!; [by apply elem_of_cons; left|done|done|];
     by rewrite Hf, lookup_insert_eq
    |left; by rewrite Hf, lookup_insert_ne].
Qed.

Lemma update_each_writes (codes : list string) (updated : nat) (s : process)
    (l1 l2 : list string) (code : string) (d : CountryData) (w' : world) :
  listed registry codes = (l1 ++ code :: l2)%list →
  code ∉ l2 →
  fetchCountry E code config (resolve_each E config l1 (registry_world s))
  = (Returned (Some d), w') →
  writeJson_error F (code ++ ".json") = None →
  output_files (update_each E F config registry codes updated s).2 !! (code ++ ".json")
  = Some (JsonFile (ToJson.countryData d)).
Proof.
  revert updated s l1. induction codes as [|c codes IH]; intros updated s l1.
  { cbn [listed]. by destruct l1. }
  cbn [listed update_each].
  destruct (countries_get registry c) as [info|member| |] eqn:Hinfo;
    cbn [info_truthy negb info_label].
  4: { apply IH. }
  3: { by destruct l1. }
  all: intros Hlisted Hnotin Hrun Hwrite.
  all: unfold_Cmd; cbn [terminal registry_world output_files exitCode].
  all: destruct l1 as [|c' l1]; cbn [app] in Hlisted; injection Hlisted as -> Hlisted.
  1,3: (* this round writes the file, the later ones leave it *)
    unfold resolve_each in Hrun; cbn [foldl] in Hrun; rewrite Hrun, Hwrite;
    match goal with
    | |- context [update_each _ _ _ _ _ ?n ?s1] =>
        destruct (update_each_run codes n s1) as (r & s' & -> & _ & _ & Hfiles & _)
    end;
    cbn [snd terminal registry_world output_files exitCode] in *;
    destruct (Hfiles (code ++ ".json")) as [->|(code' & d' & Hin & Heq & _)];
    [by rewrite lookup_insert_eq
    |apply string_app_inj_r in Heq as <-; destruct Hnotin; by rewrite <- Hlisted].
  all: (* an earlier round *)
    unfold resolve_each in Hrun; cbn [foldl] in Hrun;
    fold (resolve_each E config l1 (fetchCountry E c' config (registry_world s)).2) in Hrun;
    destruct (fetchCountry E c' config (registry_world s)) as [[[d0|]|e] w0] eqn:Hrun0;
      [destruct (writeJson_error F (c' ++ ".json")) as [e|]|..];
      cbn [snd] in Hrun;
    (eapply IH; [done..| |done]);
    by cbn [terminal registry_world output_files exitCode].
Qed.

End update_loop.

Section update_run.
Context (C : config_env) (E : env) (F : fs_env) (options : CommandOptions) (s : process).

Lemma update_run :
  ∃ s',
    update C E F options s = (Returned tt, s') ∧
    ((∃ config installed registry w1,
        update_starts C E F s config installed registry w1 ∧
        (exitCode s' = exitCode s ∨ exitCode s' = Some 1) ∧
        (Forall (λ code, countries_get registry code ≠ InheritedPrototype) installed →
         dryRun options = true ∨ writeIndex_error F = None →
         exitCode s' = exitCode s) ∧
        if dryRun options
        then output_files s' = output_files s ∧ registry_world s' = w1
        else
          registry_world s'
          = resolve_each E config (listed registry (merge_sort code_le installed)) w1 ∧
          ∃ files1,
            (output_files s' = files1 ∨
             output_files s'
             = <[index_file config := ModuleFile (generateIndex config (readdir F files1))]>
                 files1) ∧
            ∀ f,
              files1 !! f = output_files s !! f ∨
              ∃ code d,
                code ∈ listed registry (merge_sort code_le installed) ∧
                f = code ++ ".json" ∧
                writeJson_error F f = None ∧
                files1 !! f
                = Some (JsonFile (ToJson.countryData (filterCountryData d config)))) ∨
     ((¬ ∃ config installed registry w1,
          update_starts C E F s config installed registry w1) ∧
      exitCode s' = Some 1 ∧
      output_files s' = output_files s ∧
      (registry_world s' = registry_world s ∨
       registry_world s' = (fetchRegistry E (registry_world s)).2))).
Proof.
  unfold update, update_starts.
  destruct (requireConfig_returns C "Update Countries" (terminal s))
    as (config & log' & Hconfig).
  unfold_Cmd. rewrite Hconfig.
  destruct config as [config|].
  2: { eexists. split; [done|]. right. split_and!; [|done|done|by left].
       intros (? & ? & ? & ? & [=] & _). }
  cbn [terminal registry_world output_files exitCode].
  destruct (getInstalledCountries (readdir F (output_files s))) as [|c installed] eqn:Hinst.
  { cbn. eexists. split; [done|]. right. split_and!; [|done|done|by left].
    by intros (? & ? & ? & ? & _ & -> & ? & _). }
  cbn [length Nat.eqb terminal registry_world output_files exitCode].
  destruct (fetchRegistry E (registry_world s)) as [[[registry|]|e] w1] eqn:Hreg.
  2,3: cbn; eexists; (split; [done|]); right; (split_and!; [|done|done|by right]);
       by intros (? & ? & ? & ? & _ & _ & _ & [=]).
  destruct (dryRun options) eqn:Hdry.
  { destruct (map_throwing _ (merge_sort code_le (c :: installed))) as [list|e] eqn:Hlist.
    - cbn. eexists. split; [done|]. left. exists config, (c :: installed), registry, w1.
      split_and!; auto.
    - cbn. eexists. split; [done|]. left. exists config, (c :: installed), registry, w1.
      split_and!; auto. intros Hall _.
      rewrite <- (merge_sort_Permutation code_le) in Hall.
      destruct (formatCountryDisplay_returns registry _ Hall) as [list Hlist'].
      by rewrite Hlist' in Hlist. }
  match goal with
  | |- context [update_each E F config registry ?codes 0%nat ?s1] =>
      destruct (update_each_run E F config registry codes 0%nat s1)
        as (r & s2 & -> & Hexit & Hworld & Hfiles & Hret)
  end.
  cbn [terminal registry_world output_files exitCode] in *.
  destruct r as [n|e].
  - destruct (writeIndex_error F) as [e|] eqn:Hindex.
    + cbn. eexists. split; [done|]. left. exists config, (c :: installed), registry, w1.
      split_and!; [done..|by right|by intros _ [?|?]|done|].
      exists (output_files s2). split; [by left|done].
    + cbn. eexists. split; [done|]. left. exists config, (c :: installed), registry, w1.
      split_and!; [done..|by left|done|done|].
      exists (output_files s2). split; [by right|done].
  - cbn. eexists. split; [done|]. left. exists config, (c :: installed), registry, w1.
    split_and!; [done..|by right| |done|].
    + intros Hall _. rewrite <- (merge_sort_Permutation code_le) in Hall.
      by destruct (Hret Hall).
    + exists (output_files s2). split; [by left|done].
Qed.

End update_run.

Lemma endsWith_index_file config : Js.endsWith (index_file config) ".json" = false.
Proof. unfold index_file. by destruct (typescript config). Qed.

Lemma elem_of_keys (files : gmap string file) f :
  f ∈ (map_to_list files).*1 ↔ is_Some (files !! f).
Proof.
  rewrite list_elem_of_fmap. split.
  - intros ([f' v] & -> & Hin). apply elem_of_map_to_list in Hin. by exists v.
  - intros [v Hv]. exists (f, v). split; [done|]. by apply elem_of_map_to_list.
Qed.

Lemma installed_file F files code :
  named_by_code files →
  code ∈ getInstalledCountries (readdir F files) →
  is_Some (files !! (code ++ ".json")).
Proof.
  intros Hnamed. unfold getInstalledCountries, readdir.
  destruct (readdir_error F); [by rewrite elem_of_nil|].
  rewrite list_elem_of_fmap. intros (f & -> & Hf).
  apply list_elem_of_filter in Hf as [Hjson Hf]. apply elem_of_keys in Hf.
  apply andb_True in Hjson as [Hjson _]. apply Is_true_true in Hjson.
  destruct (Hnamed f Hf Hjson) as (c & Hc & ->). by rewrite replace_json.
Qed.

Lemma installed_same F files files' :
  (∀ f, Js.endsWith f ".json" = true →
        (is_Some (files' !! f) ↔ is_Some (files !! f))) →
  getInstalledCountries (readdir F files') ≡ₚ getInstalledCountries (readdir F files).
Proof.
  intros Hsame. unfold getInstalledCountries, readdir.
  destruct (readdir_error F); [done|]. apply fmap_Permutation.
  apply NoDup_Permutation.
  - apply NoDup_filter, NoDup_fst_map_to_list.
  - apply NoDup_filter, NoDup_fst_map_to_list.
  - intros f. rewrite !list_elem_of_filter, !elem_of_keys.
    split; intros [Hjson Hf]; (split; [done|]);
      apply andb_True in Hjson as [Hjson' _]; apply Is_true_true in Hjson';
      by apply (Hsame f Hjson').
Qed.

Lemma listed_subseteq registry codes code :
  code ∈ listed registry codes → code ∈ codes.
Proof.
  induction codes as [|c codes IH]; cbn [listed]; [done|].
  destruct (countries_get registry c); rewrite ?elem_of_cons; try tauto.
  by intros ?%elem_of_nil.
Qed.

Lemma listed_installed registry installed code :
  code ∈ listed registry (merge_sort code_le installed) → code ∈ installed.
Proof. intros Hin%listed_subseteq. by rewrite merge_sort_Permutation in Hin. Qed.

Lemma countries_get_prototype registry code :
  countries_get registry code = InheritedPrototype → code = "__proto__".
Proof.
  unfold countries_get. destruct (countries registry !! code); [done|].
  destruct (String.eqb code "__proto__") eqn:Heq; [by apply String.eqb_eq in Heq|].
  by case_bool_decide.
Qed.

(** X21. [update] never throws, and the exit code it leaves is the one it found
    or 1. It is 1, with the output directory as it was and at most the index
    resolved, when the config does not load, no country is installed or the
    index is not resolved. Once these three succeed it is the one it found,
    whatever happens to the single countries (a fetch that fails, data that
    is invalid, a write that fails), provided no installed file is named
    [__proto__.json] and, unless the run is a dry run, the write of the
    accessor module does not fail. *)
Theorem update_exit_code (C : config_env) (E : env) (F : fs_env)
    (options : CommandOptions) (s : process) :
  ∃ s',
    update C E F options s = (Returned tt, s') ∧
    (∀ config installed registry w1,
       update_starts C E F s config installed registry w1 →
       (exitCode s' = exitCode s ∨ exitCode s' = Some 1) ∧
       ("__proto__" ∉ installed →
        dryRun options = true ∨ writeIndex_error F = None →
        exitCode s' = exitCode s)) ∧
    ((¬ ∃ config installed registry w1,
          update_starts C E F s config installed registry w1) →
     exitCode s' = Some 1 ∧
     output_files s' = output_files s ∧
     (registry_world s' = registry_world s ∨
      registry_world s' = (fetchRegistry E (registry_world s)).2)).
Proof.
  destruct (update_run C E F options s) as (s' & Hrun & Hcases).
  exists s'. split; [done|].
  destruct Hcases as [(config & installed & registry & w1 & Hstarts & Hexit & Hsame & _)
                     |(Hnot & Hexit & Hfiles & Hworld)].
  - split; [|intros []; by exists config, installed, registry, w1].
    intros config' installed' registry' w1' Hstarts'.
    destruct Hstarts as (Hc & -> & _ & Hr), Hstarts' as (Hc' & -> & _ & Hr').
    rewrite Hc in Hc'. rewrite Hr in Hr'. simplify_eq.
    split; [done|]. intros Hproto. apply Hsame.
    apply Forall_forall. intros code Hin Hcode.
    apply countries_get_prototype in Hcode as ->. done.
  - split; [|done]. intros config installed registry w1 Hstarts.
    destruct Hnot. by exists config, installed, registry, w1.
Qed.

(** X22. A dry run of [update] writes no file of the output directory and
    resolves no country: all it may have done to the cache, the warnings and
    the requests is one resolution of the index. *)
Theorem update_dry_run_writes_nothing (C : config_env) (E : env) (F : fs_env)
    (options : CommandOptions) (s : process) :
  dryRun options = true →
  let s' := (update C E F options s).2 in
  output_files s' = output_files s ∧
  (registry_world s' = registry_world s ∨
   registry_world s' = (fetchRegistry E (registry_world s)).2).
Proof.
  intros Hdry. destruct (update_run C E F options s) as (s' & Hrun & Hcases).
  rewrite Hrun. cbn [snd].
  destruct Hcases as [(config & installed & registry & w1 & Hstarts & _ & _ & Hrest)
                     |(_ & _ & Hfiles & Hworld)]; [|done].
  rewrite Hdry in Hrest. destruct Hrest as [-> ->].
  destruct Hstarts as (_ & _ & _ & ->). by split; [|right].
Qed.

Lemma update_dry_run_writes_nothing_sample :
  let s' := (update (project (makeConfig ["en"] false))
               (serving 0 sampleIndex "sa" makeSampleCountry) disk
               {| force := false; dryRun := true |} twoInstalled).2 in
  output_files s' = output_files twoInstalled ∧
  (registry_world s' = registry_world twoInstalled ∨
   registry_world s'
   = (fetchRegistry (serving 0 sampleIndex "sa" makeSampleCountry)
        (registry_world twoInstalled)).2).
Proof.
  apply update_dry_run_writes_nothing. reflexivity.
Defined.

(** X23. One country does not stop the others. Once [update] has started and
    is not a dry run, what it does to the cache, the warnings and the
    requests is to resolve, in sorted order and once each, the installed
    codes under which [registry.countries] holds something truthy (an entry
    of the index, or an inherited member of [Object.prototype]), whether
    the ones before threw, returned invalid data or could not be written;
    the other codes are not resolved. Only an installed [__proto__], for
    which building the text of the spinner throws, ends the loop. *)
Theorem update_resolves_every_listed_country (C : config_env) (E : env) (F : fs_env)
    (options : CommandOptions) (s : process) (config : GeoDataConfig)
    (installed : list string) (registry : RegistryIndex) (w1 : world) :
  update_starts C E F s config installed registry w1 →
  dryRun options = false →
  registry_world (update C E F options s).2
  = resolve_each E config (listed registry (merge_sort code_le installed)) w1.
Proof.
  intros Hstarts Hdry. destruct (update_run C E F options s) as (s' & Hrun & Hcases).
  rewrite Hrun. cbn [snd].
  destruct Hcases as [(config' & installed' & registry' & w1' & Hstarts' & _ & _ & Hrest)
                     |(Hnot & _)].
  2: { destruct Hnot. by exists config, installed, registry, w1. }
  rewrite Hdry in Hrest. destruct Hrest as [-> _].
  destruct Hstarts as (Hc & -> & _ & Hr), Hstarts' as (Hc' & -> & _ & Hr').
  rewrite Hc in Hc'. rewrite Hr in Hr'. by simplify_eq.
Qed.

Lemma update_resolves_every_listed_country_sample :
  let E := serving 0 sampleIndex "sa" makeSampleCountry in
  let config := makeConfig ["en"] false in
  let installed := getInstalledCountries (readdir disk (output_files twoInstalled)) in
  registry_world
    (update (project config) E disk {| force := false; dryRun := false |} twoInstalled).2
  = resolve_each E config (listed sampleIndex (merge_sort code_le installed))
      (fetchRegistry E emptyWorld).2.
Proof.
  intros E config installed.
  apply (update_resolves_every_listed_country (project config) E disk _ twoInstalled
           config installed sampleIndex (fetchRegistry E emptyWorld).2).
  - split_and!; [by vm_compute|done|by vm_compute|by vm_compute].
  - reflexivity.
Defined.

(** X24. [update] deletes no file, and a file that differs afterwards is one of
    two: the accessor module, or [<code>.json] for an installed code, written
    without error and holding a dataset filtered for the loaded config.
    Neither happens in a dry run or without a config. *)
Theorem update_writes_filtered_data_only (C : config_env) (E : env) (F : fs_env)
    (options : CommandOptions) (s : process) (f : string) :
  let s' := (update C E F options s).2 in
  (is_Some (output_files s !! f) → is_Some (output_files s' !! f)) ∧
  (output_files s' !! f = output_files s !! f ∨
   ∃ config,
     (requireConfig C "Update Countries" (terminal s)).1 = Returned (Some config) ∧
     dryRun options = false ∧
     ((f = index_file config ∧ ∃ m, output_files s' !! f = Some (ModuleFile m)) ∨
      ∃ code d,
        code ∈ getInstalledCountries (readdir F (output_files s)) ∧
        f = code ++ ".json" ∧
        writeJson_error F f = None ∧
        output_files s' !! f
        = Some (JsonFile (ToJson.countryData (filterCountryData d config))))).
Proof.
  destruct (update_run C E F options s) as (s' & Hrun & Hcases).
  rewrite Hrun. cbn [snd].
  destruct Hcases as [(config & installed & registry & w1 & Hstarts & _ & _ & Hrest)
                     |(_ & _ & -> & _)]; [|by split; [|left]].
  destruct (dryRun options) eqn:Hdry.
  { destruct Hrest as [-> _]. by split; [|left]. }
  destruct Hrest as (_ & files1 & Hfinal & Hfiles).
  destruct Hstarts as (Hconfig & -> & _).
  assert ((is_Some (output_files s !! f) → is_Some (files1 !! f)) ∧
          (files1 !! f = output_files s !! f ∨
           ∃ code d,
             code ∈ getInstalledCountries (readdir F (output_files s)) ∧
             f = code ++ ".json" ∧ writeJson_error F f = None ∧
             files1 !! f
             = Some (JsonFile (ToJson.countryData (filterCountryData d config)))))
    as [Hkeeps Hframe].
  { destruct (Hfiles f) as [->|(code & d & Hin & -> & Hwrite & Hf)].
    - by split; [|left].
    - rewrite Hf. split; [by eauto|]. right. exists code, d.
      apply listed_installed in Hin. by split_and!. }
  destruct Hfinal as [->| ->].
  { split; [done|]. destruct Hframe as [?|Hframe]; [by left|].
    right. exists config. split_and!; [done..|]. by right. }
  destruct (decide (f = index_file config)) as [->|Hne].
  { rewrite lookup_insert_eq. split; [by eauto|].
    right. exists config. split_and!; [done..|]. left. by eauto. }
  rewrite lookup_insert_ne by done. split; [done|].
  destruct Hframe as [?|Hframe]; [by left|].
  right. exists config. split_and!; [done..|]. by right.
Qed.

(** X25. In an output directory whose data files are named by codes without a
    dot, [update] creates no file but the accessor module, so the installed
    countries are the same afterwards. *)
Theorem update_keeps_the_installed_set (C : config_env) (E : env) (F : fs_env)
    (options : CommandOptions) (s : process) :
  named_by_code (output_files s) →
  let s' := (update C E F options s).2 in
  (∀ f, is_Some (output_files s' !! f) →
        is_Some (output_files s !! f) ∨ f = "index.ts" ∨ f = "index.js") ∧
  getInstalledCountries (readdir F (output_files s'))
  ≡ₚ getInstalledCountries (readdir F (output_files s)).
Proof.
  intros Hnamed. destruct (update_run C E F options s) as (s' & Hrun & Hcases).
  rewrite Hrun. cbn [snd].
  destruct Hcases as [(config & installed & registry & w1 & Hstarts & _ & _ & Hrest)
                     |(Hnot & _ & -> & _)]; [|by split; [left|]].
  destruct (dryRun options) eqn:Hdry.
  { destruct Hrest as [-> _]. by split; [left|]. }
  destruct Hrest as (_ & files1 & Hfinal & Hfiles).
  assert (∀ f, is_Some (files1 !! f) ↔ is_Some (output_files s !! f)) as Hdom.
  { intros f. destruct (Hfiles f) as [->|(code & d & Hin & -> & _ & Hf)]; [done|].
    rewrite Hf. split; [intros _|by eauto].
    apply listed_installed in Hin.
    destruct Hstarts as (_ & -> & _). by apply (installed_file F). }
  assert (getInstalledCountries (readdir F files1)
          ≡ₚ getInstalledCountries (readdir F (output_files s))) as Hperm.
  { apply installed_same. intros f _. apply Hdom. }
  destruct Hfinal as [->| ->].
  { split; [|done]. intros f Hf. left. by apply Hdom. }
  split.
  - intros f. destruct (decide (f = index_file config)) as [->|Hne].
    + intros _. right. unfold index_file. destruct (typescript config); auto.
    + rewrite lookup_insert_ne by done. intros Hf. left. by apply Hdom.
  - rewrite <- Hperm. apply installed_same. intros f Hjson.
    rewrite lookup_insert_ne; [done|].
    intros <-. by rewrite endsWith_index_file in Hjson.
Qed.

Lemma twoInstalled_named_by_code : named_by_code (output_files twoInstalled).
Proof.
  intros f [v Hf] Hjson.
  assert (f ∈ (map_to_list (output_files twoInstalled)).*1) as Hin
    by (apply elem_of_keys; by exists v).
  vm_compute in Hin.
  repeat (apply elem_of_cons in Hin as [->|Hin]); try by apply elem_of_nil in Hin.
  all: try discriminate Hjson.
  - exists "sa". by repeat split.
  - exists "xx". by repeat split.
Qed.

Lemma update_keeps_the_installed_set_sample :
  let s' := (update (project (makeConfig ["en"] false))
               (serving 0 sampleIndex "sa" makeSampleCountry) disk
               {| force := false; dryRun := false |} twoInstalled).2 in
  (∀ f, is_Some (output_files s' !! f) →
        is_Some (output_files twoInstalled !! f) ∨ f = "index.ts" ∨ f = "index.js") ∧
  getInstalledCountries (readdir disk (output_files s'))
  ≡ₚ getInstalledCountries (readdir disk (output_files twoInstalled)).
Proof.
  apply (update_keeps_the_installed_set (project (makeConfig ["en"] false))
           (serving 0 sampleIndex "sa" makeSampleCountry) disk
           {| force := false; dryRun := false |} twoInstalled).
  apply twoInstalled_named_by_code.
Defined.

(** X26. [update] installs what it resolves: once it has started and is not a
    dry run, if the resolution of an installed, listed code at its turn
    (after those of the codes sorted before it) returns a dataset and the
    write of its file does not fail, then [<code>.json] holds that dataset
    afterwards, provided the code is not listed a second time after it. *)
Theorem update_installs_what_it_resolves (C : config_env) (E : env) (F : fs_env)
    (options : CommandOptions) (s : process) (config : GeoDataConfig)
    (installed : list string) (registry : RegistryIndex) (w1 w' : world)
    (l1 l2 : list string) (code : string) (d : CountryData) :
  update_starts C E F s config installed registry w1 →
  dryRun options = false →
  listed registry (merge_sort code_le installed) = (l1 ++ code :: l2)%list →
  code ∉ l2 →
  fetchCountry E code config (resolve_each E config l1 w1) = (Returned (Some d), w') →
  writeJson_error F (code ++ ".json") = None →
  output_files (update C E F options s).2 !! (code ++ ".json")
  = Some (JsonFile (ToJson.countryData d)).
Proof.
  intros (Hconfig & -> & Hinst & Hreg) Hdry Hlisted Hnotin Hrun Hwrite.
  unfold update. unfold_Cmd.
  destruct (requireConfig C "Update Countries" (terminal s)) as [r log'].
  cbn [fst] in Hconfig. subst r.
  cbn [terminal registry_world output_files exitCode].
  destruct (getInstalledCountries (readdir F (output_files s))) as [|c installed] eqn:Hi;
    [done|].
  cbn [length Nat.eqb terminal registry_world output_files exitCode].
  rewrite Hreg, Hdry.
  match goal with
  | |- context [update_each E F config registry ?codes 0%nat ?s1] =>
      pose proof (update_each_writes E F config registry codes 0%nat s1 l1 l2 code d w'
                    Hlisted Hnotin Hrun Hwrite) as Hfile;
      destruct (update_each E F config registry codes 0%nat s1) as [[n|e] s2]
  end.
  all: cbn [snd terminal registry_world output_files exitCode] in *.
  2: done.
  destruct (writeIndex_error F); cbn; [done|].
  rewrite lookup_insert_ne; [done|].
  intros Heq. pose proof (endsWith_index_file config) as Hindex.
  fold (index_file config) in Heq. by rewrite Heq, endsWith_app in Hindex.
Qed.

Lemma update_installs_what_it_resolves_sample :
  let config := makeConfig ["en"] false in
  let E := serving 0 sampleIndex "sa" makeSampleCountry in
  output_files
    (update (project config) E disk {| force := false; dryRun := false |} twoInstalled).2
    !! "sa.json"
  = Some (JsonFile (ToJson.countryData (filterCountryData makeSampleCountry config))).
Proof.
  intros config E.
  apply (update_installs_what_it_resolves (project config) E disk _ twoInstalled config
           (getInstalledCountries (readdir disk (output_files twoInstalled)))
           sampleIndex (fetchRegistry E emptyWorld).2
           (fetchCountry E "sa" config (fetchRegistry E emptyWorld).2).2
           [] [] "sa").
  - split_and!; [by vm_compute|done|by vm_compute|by vm_compute].
  - reflexivity.
  - by vm_compute.
  - apply not_elem_of_nil.
  - by vm_compute.
  - reflexivity.
Defined.

Lemma update_exit_code_failed_fetch :
  let C := project (makeConfig ["en"] false) in
  let E := serving 0 sampleIndex "qa" makeSampleCountry in
  let options := {| force := false; dryRun := false |} in
  ∃ s',
    update C E disk options twoInstalled = (Returned tt, s') ∧
    exitCode s' = exitCode twoInstalled ∧
    output_files s' !! "sa.json" = output_files twoInstalled !! "sa.json".
Proof.
  intros C E options.
  destruct (update_exit_code C E disk options twoInstalled) as (s' & Hrun & Hstarted & _).
  exists s'. split; [done|]. split.
  - apply (Hstarted (makeConfig ["en"] false)
             (getInstalledCountries (readdir disk (output_files twoInstalled)))
             sampleIndex (fetchRegistry E emptyWorld).2).
    + split_and!; [by vm_compute|done|by vm_compute|by vm_compute].
    + apply (proj1 (bool_decide_eq_false _)). by vm_compute.
    + by right.
  - replace s' with (update C E disk options twoInstalled).2 by (by rewrite Hrun).
    by vm_compute.
Defined.

(** ** commands/add.ts *)

Lemma map_throwing_thrown {A B} (f : A → outcome B) (xs : list A) e :
  map_throwing f xs = Thrown e → ∃ x, x ∈ xs ∧ f x = Thrown e.
Proof.
  induction xs as [|x xs IH]; cbn [map_throwing]; [done|].
  destruct (f x) as [b|e'] eqn:Hx.
  - destruct (map_throwing f xs) as [bs|e'']; [done|]. intros [= ->].
    destruct IH as (x' & ? & ?); [done|]. exists x'. split; [by right|done].
  - intros [= ->]. exists x. split; [by left|done].
Qed.

Lemma formatCountryDisplay_thrown registry (codes : list string) e :
  map_throwing (λ code, formatCountryDisplay code (countries_get registry code)) codes
  = Thrown e →
  ∃ code, code ∈ codes ∧ countries_get registry code = InheritedPrototype.
Proof.
  intros (code & Hin & Hcode)%map_throwing_thrown. exists code. split; [done|].
  by destruct (countries_get registry code).
Qed.

Section add_loop.
Context (E : env) (F : fs_env) (config : GeoDataConfig) (registry : RegistryIndex).

Lemma add_each_run (codes : list string) (added failed : list string) (s : process) :
  ∃ r s',
    add_each E F config registry codes added failed s = (r, s') ∧
    exitCode s' = exitCode s ∧
    (∀ name,
       output_files s' !! name = output_files s !! name ∨
       ∃ code d,
         code ∈ codes ∧ name = code ++ ".json" ∧
         output_files s' !! name
         = Some (JsonFile (ToJson.countryData (filterCountryData d config)))) ∧
    (∀ a' f', r = Returned (a', f') →
       ∃ a f,
         a' = (added ++ a)%list ∧ f' = (failed ++ f)%list ∧
         registry_world s' = resolve_each E config codes (registry_world s) ∧
         ∀ code, code ∈ codes → code ∈ f ∨ is_Some (output_files s' !! (code ++ ".json"))) ∧
    (Forall (λ code, is_Some (countries registry !! code)) codes →
     ∃ x, r = Returned x).
Proof.
  revert added failed s. induction codes as [|code codes IH]; intros added failed s.
  { exists (Returned (added, failed)), s. split_and!; [done..| | |by eexists].
    - intros name. by left.
    - intros a' f' [= <- <-]. exists [], []. rewrite !app_nil_r.
      split_and!; [done..|]. intros code Hin. by apply elem_of_nil in Hin. }
  cbn [add_each].
  destruct (info_label (countries_get registry code)) as [label|e] eqn:Hlabel.
  2: { unfold_Cmd. exists (Thrown e), s. split_and!; [done..| | |].
       - intros name. by left.
       - done.
       - intros [[info Hinfo] _]%Forall_cons. unfold countries_get in Hlabel.
         by rewrite Hinfo in Hlabel. }
  unfold_Cmd. cbn [terminal registry_world output_files exitCode].
  destruct (fetchCountry E code config (registry_world s)) as [[[d|]|e] w'] eqn:Hrun;
    [destruct (ensureDir_error F) as [e|];
     [|destruct (writeJson_error F (code ++ ".json")) as [e|] eqn:Hwrite]|..].
  all: match goal with
       | |- context [add_each _ _ _ _ _ ?a0 ?f0 ?s1] =>
           destruct (IH a0 f0 s1) as (r & s' & -> & Hexit & Hfiles & Hret & Hall)
       end.
  all: cbn [terminal registry_world output_files exitCode] in *.
  1,2,4,5:
    exists r, s'; split_and!;
    [done|done
    |intros name; destruct (Hfiles name) as [Hf|(code' & d' & Hin & -> & Hf)];
       [by left|right; exists code', d'; split_and!; [by apply elem_of_cons; right|done..]]
    |intros a' f' Hr; destruct (Hret a' f' Hr) as (a & f & -> & -> & Hworld & Hin);
     exists a, (code :: f); rewrite <- ?(assoc_L app); split_and!;
       [done|done
       |rewrite Hworld; unfold resolve_each; cbn [foldl]; by rewrite Hrun
       |intros c [->|Hc]%elem_of_cons;
          [left; by apply elem_of_cons; left
          |destruct (Hin c Hc) as [?|?]; [left; by apply elem_of_cons; right|by right]]]
    |intros [_ ?]%Forall_cons; by apply Hall].
  exists r, s'. split_and!; [done|done| | |].
  - intros name. destruct (Hfiles name) as [Hf|(code' & d' & Hin & -> & Hf)].
    2: { right. exists code', d'. split_and!; [by apply elem_of_cons; right|done..]. }
    destruct (decide (name = code ++ ".json")) as [->|Hne].
    + right. apply fetchCountry_returns_filtered in Hrun as [d0 ->].
      exists code, d0. split_and!; [by apply elem_of_cons; left|done|].
      by rewrite Hf, lookup_insert_eq.
    + left. by rewrite Hf, lookup_insert_ne.
  - intros a' f' Hr. destruct (Hret a' f' Hr) as (a & f & -> & -> & Hworld & Hin).
    exists (code :: a), f. rewrite <- ?(assoc_L app). split_and!; [done|done| |].
    + rewrite Hworld. unfold resolve_each. cbn [foldl]. by rewrite Hrun.
    + intros c [->|Hc]%elem_of_cons; [|by apply Hin].
      right. destruct (Hfiles (code ++ ".json")) as [->|(? & ? & _ & _ & ->)]; [|done].
      by rewrite lookup_insert_eq.
  - intros [_ ?]%Forall_cons. by apply Hall.
Qed.

End add_loop.

Lemma cmd_for_run {A} (xs : list A) (body : A → Cmd unit) :
  (∀ x s0,
     registry_world (body x s0).2 = registry_world s0 ∧
     output_files (body x s0).2 = output_files s0 ∧
     exitCode (body x s0).2 = exitCode s0) →
  ∀ s0,
    registry_world (cmd_for xs body s0).2 = registry_world s0 ∧
    output_files (cmd_for xs body s0).2 = output_files s0 ∧
    exitCode (cmd_for xs body s0).2 = exitCode s0.
Proof.
  intros Hbody. induction xs as [|x xs IH]; intros s0; [done|].
  cbn [cmd_for]. unfold mbind, Cmd_bind.
  specialize (Hbody x s0). destruct (body x s0) as [[[]|e] s1]; cbn [snd] in *.
  - destruct (IH s1) as (-> & -> & ->). done.
  - done.
Qed.

Section add_run.
Context (C : config_env) (E : env) (F : fs_env) (P : prompt_env).
Context (countryCodes : list string) (options : CommandOptions) (s : process).

Lemma add_confirm_run (registry : RegistryIndex) (codes : list string) (s0 : process) :
  output_files s0 = output_files s →
  ∃ r s1,
    add_confirm P registry options codes (existing_codes s codes) s0 = (r, s1) ∧
    registry_world s1 = registry_world s0 ∧
    output_files s1 = output_files s0 ∧
    exitCode s1 = exitCode s0 ∧
    (∀ e, r = Thrown e →
          ∃ code, code ∈ codes ∧ countries_get registry code = InheritedPrototype) ∧
    (dryRun options = true → r = Returned (Some codes)) ∧
    (∀ result, r = Returned result →
       dryRun options = false →
       match result with
       | Some codes' => codes' = chosen_codes P options s codes
       | None => chosen_codes P options s codes = []
       end).
Proof.
  intros Hfiles. unfold add_confirm, chosen_codes.
  destruct (existing_codes s codes) as [|x existing] eqn:Hexisting.
  { cbn. eexists _, _. split_and!; [done..|]. intros ? [= <-] _.
    destruct (_ || _); [done|]. clear. induction codes as [|? ? IH]; [done|].
    rewrite filter_cons_True by apply not_elem_of_nil. by f_equal. }
  cbn [length Nat.ltb Nat.leb andb].
  destruct (force options);
    [cbn; eexists _, _; split_and!; [done..|]; by intros ? [= <-]|].
  destruct (dryRun options);
    [cbn; eexists _, _; split_and!; [done..|]; by intros ? [= <-]|].
  cbn [negb andb orb]. unfold_Cmd.
  destruct (map_throwing _ (x :: existing)) as [list|e] eqn:Hlist.
  2: { eexists _, _. split_and!; [done..| |done|done]. intros ? [= <-].
       apply formatCountryDisplay_thrown in Hlist as (code & Hin & Hcode).
       exists code. split; [|done]. rewrite <- Hexisting in Hin.
       by apply list_elem_of_filter in Hin as [_ ?]. }
  cbn [terminal registry_world output_files exitCode].
  destruct (confirm P "Overwrite existing countries?") as [[|]|].
  - cbn. eexists _, _. split_and!; [done..|]. by intros ? [= <-].
  - rewrite bool_decide_eq_false_2 by done.
    destruct (filter (λ c0, c0 ∉ x :: existing) codes); cbn; eexists _, _;
      (split_and!; [done..|]); by intros ? [= <-].
  - rewrite bool_decide_eq_false_2 by done.
    destruct (filter (λ c0, c0 ∉ x :: existing) codes); cbn; eexists _, _;
      (split_and!; [done..|]); by intros ? [= <-].
Qed.

Lemma add_run :
  let codes := toLowerCase <$> countryCodes in
  ∃ s',
    add C E F P countryCodes options s = (Returned tt, s') ∧
    (((¬ ∃ config registry w1, add_passes C E s countryCodes config registry w1) ∧
      exitCode s' = Some 1 ∧
      output_files s' = output_files s ∧
      (registry_world s' = registry_world s ∨
       registry_world s' = (fetchRegistry E (registry_world s)).2)) ∨
     ∃ config registry w1,
       add_passes C E s countryCodes config registry w1 ∧
       (((∃ code, code ∈ codes ∧ countries_get registry code = InheritedPrototype) ∧
         exitCode s' = Some 1 ∧
         output_files s' = output_files s ∧
         registry_world s' = w1) ∨
        (exitCode s' = exitCode s ∧
         output_files s' = output_files s ∧
         registry_world s' = w1 ∧
         (dryRun options = true ∨ chosen_codes P options s codes = [])) ∨
        (dryRun options = false ∧
         ∃ files1 : gmap string file,
           (output_files s' = files1 ∨
            output_files s'
            = <[index_file config := ModuleFile (generateIndex config (readdir F files1))]>
                files1) ∧
           (exitCode s' = exitCode s ∨ exitCode s' = Some 1) ∧
           (∀ name,
              files1 !! name = output_files s !! name ∨
              ∃ code d,
                code ∈ chosen_codes P options s codes ∧ name = code ++ ".json" ∧
                files1 !! name
                = Some (JsonFile (ToJson.countryData (filterCountryData d config)))) ∧
           (exitCode s' ≠ Some 1 →
            ∀ code, code ∈ chosen_codes P options s codes →
                    is_Some (files1 !! (code ++ ".json"))) ∧
           (Forall (λ code, is_Some (countries registry !! code))
              (chosen_codes P options s codes) →
            registry_world s'
            = resolve_each E config (chosen_codes P options s codes) w1)))).
Proof.
  intros codes. unfold add, add_passes.
  destruct (requireConfig_returns C "Add Countries" (terminal s))
    as (config & log' & Hconfig).
  unfold_Cmd. rewrite Hconfig.
  destruct config as [config|].
  2: { eexists. split; [done|]. left. split_and!; [|done|done|by left].
       intros (? & ? & ? & [=] & _). }
  cbn [terminal registry_world output_files exitCode fst].
  destruct (fetchRegistry E (registry_world s)) as [[[registry|]|e] w1] eqn:Hreg.
  2,3: cbn; eexists; (split; [done|]); left; (split_and!; [|done|done|by right]);
       by intros (? & ? & ? & _ & [=] & _).
  fold codes.
  destruct (filter (λ c, info_truthy (countries_get registry c) = false) codes)
    as [|c invalid] eqn:Hinvalid.
  2: { (* a code that is not listed *)
    cbn [length Nat.ltb Nat.leb].
    match goal with
    | |- context [cmd_for ?l ?body ?s1] =>
        assert (∀ x s0,
                  registry_world (body x s0).2 = registry_world s0 ∧
                  output_files (body x s0).2 = output_files s0 ∧
                  exitCode (body x s0).2 = exitCode s0) as Hbody;
        [|destruct (cmd_for_run l body Hbody s1) as (Hw & Hf & He);
          destruct (cmd_for l body s1) as [r s2]]
    end.
    { intros x s0. cbn [terminal registry_world output_files exitCode].
      destruct (findBestMatch P _ _) as [[suggested|]|e]; [|done..].
      by destruct (countries_get registry suggested). }
    cbn [snd terminal registry_world output_files exitCode] in *.
    assert (¬ Forall (λ code, info_truthy (countries_get registry code) = true) codes)
      as Hnot.
    { intros Hall. assert (c ∈ c :: invalid) as Hin by (by apply elem_of_cons; left).
      rewrite <- Hinvalid in Hin. apply list_elem_of_filter in Hin as [Hc Hin].
      apply (proj1 (Forall_forall _ _) Hall) in Hin. by rewrite Hc in Hin. }
    destruct r as [[]|e]; cbn; eexists; (split; [done|]); left;
      (split_and!; [|done|done|by right; rewrite Hw]);
      intros (? & ? & ? & _ & [= <- <-] & ?); by apply Hnot. }
  assert (Forall (λ code, info_truthy (countries_get registry code) = true) codes) as Hall.
  { apply Forall_forall. intros code Hin.
    destruct (info_truthy (countries_get registry code)) eqn:Hcode; [done|].
    assert (code ∈ filter (λ c, info_truthy (countries_get registry c) = false) codes)
      as Hin' by (by apply list_elem_of_filter).
    rewrite Hinvalid in Hin'. by apply elem_of_nil in Hin'. }
  cbn [length Nat.ltb Nat.leb].
  cbn [terminal registry_world output_files exitCode].
  fold (existing_codes s codes).
  match goal with
  | |- context [add_confirm P registry options codes _ ?s0] =>
      destruct (add_confirm_run registry codes s0 eq_refl)
        as (r & s1 & -> & Hw & Hf & He & Hthrown & Hdryrun & Hchosen)
  end.
  destruct s1 as [w1' files1' exit1' term1].
  cbn [terminal registry_world output_files exitCode] in *. subst w1' files1' exit1'.
  destruct r as [result|e].
  2: { cbn. eexists. split; [done|]. right. exists config, registry, w1.
       split; [done|]. left. split_and!; [by eapply Hthrown|done..]. }
  specialize (Hchosen result eq_refl).
  destruct (dryRun options) eqn:Hdry.
  { specialize (Hdryrun eq_refl) as [= ->].
    destruct (map_throwing _ codes) as [list|e] eqn:Hlist.
    - cbn. eexists. split; [done|]. right. exists config, registry, w1.
      split; [done|]. right. left. split_and!; auto.
    - cbn. eexists. split; [done|]. right. exists config, registry, w1.
      split; [done|]. left. split_and!; [|done..].
      apply formatCountryDisplay_thrown in Hlist as (code & Hin & Hcode).
      by exists code. }
  specialize (Hchosen eq_refl).
  destruct result as [codes'|].
  2: { cbn. eexists. split; [done|]. right. exists config, registry, w1.
       split; [done|]. right. left. split_and!; auto. }
  subst codes'.
  match goal with
  | |- context [add_each E F config registry ?l [] [] ?s1] =>
      destruct (add_each_run E F config registry l [] [] s1)
        as (r & s2 & -> & Hexit & Hfiles & Hret & Hreturns)
  end.
  cbn [app terminal registry_world output_files exitCode] in *.
  destruct r as [[a' f']|e].
  2: { cbn. eexists. split; [done|]. right. exists config, registry, w1.
       split; [done|]. right. right. split; [done|].
       exists (output_files s2). split_and!; [by left|by right|done|done|].
       intros Hlisted. by destruct (Hreturns Hlisted). }
  destruct (Hret a' f' eq_refl) as (a & f & -> & -> & Hworld & Hin).
  cbn [app] in *.
  destruct a as [|a0 a], f as [|f0 f]; cbn [length Nat.ltb Nat.leb].
  - cbn. eexists. split; [done|]. right. exists config, registry, w1.
    split; [done|]. right. right. split; [done|].
    exists (output_files s2). split_and!; [by left|by left|done| |done].
    intros _ code Hcode. by destruct (Hin code Hcode) as [?%elem_of_nil|?].
  - cbn. eexists. split; [done|]. right. exists config, registry, w1.
    split; [done|]. right. right. split; [done|].
    exists (output_files s2). split_and!; [by left|by right|done|done|done].
  - destruct (writeIndex_error F) as [e|].
    + cbn. eexists. split; [done|]. right. exists config, registry, w1.
      split; [done|]. right. right. split; [done|].
      exists (output_files s2). split_and!; [by left|by right|done|done|done].
    + cbn. eexists. split; [done|]. right. exists config, registry, w1.
      split; [done|]. right. right. split; [done|].
      exists (output_files s2). split_and!; [by right|by left|done| |done].
      intros _ code Hcode. by destruct (Hin code Hcode) as [?%elem_of_nil|?].
  - destruct (writeIndex_error F) as [e|].
    + cbn. eexists. split; [done|]. right. exists config, registry, w1.
      split; [done|]. right. right. split; [done|].
      exists (output_files s2). split_and!; [by left|by right|done|done|done].
    + cbn. eexists. split; [done|]. right. exists config, registry, w1.
      split; [done|]. right. right. split; [done|].
      exists (output_files s2). split_and!; [by right|by right|done|done|done].
Qed.

End add_run.

Lemma countries_get_listed (registry : RegistryIndex) (code : string) :
  is_Some (countries registry !! code) →
  ∃ info, countries_get registry code = Listed info.
Proof. intros [info Hinfo]. exists info. unfold countries_get. by rewrite Hinfo. Qed.

Lemma add_starts_passes (C : config_env) (E : env) (s : process)
    (countryCodes : list string) (config : GeoDataConfig) (registry : RegistryIndex)
    (w1 : world) :
  add_starts C E s countryCodes config registry w1 →
  add_passes C E s countryCodes config registry w1.
Proof.
  intros (Hc & Hr & Hall). split_and!; [done..|].
  eapply Forall_impl; [exact Hall|]. intros code Hcode.
  by destruct (countries_get_listed _ _ Hcode) as [info ->].
Qed.

Lemma chosen_codes_subseteq (P : prompt_env) (options : CommandOptions) (s : process)
    (codes : list string) code :
  code ∈ chosen_codes P options s codes → code ∈ codes.
Proof.
  unfold chosen_codes. destruct (_ || _); [done|].
  by intros [_ ?]%list_elem_of_filter.
Qed.

(** X27. [add] checks every code before it installs any: when the index is
    resolved and the lookup [registry.countries[code]] of one of the codes
    asked for, in lower case, finds nothing (the code is not listed and is no
    member of [Object.prototype] either), no country is resolved, no file of
    the output directory is written and the exit code is set to 1, whatever
    the other codes are and whether or not [findBestMatch] throws. *)
Theorem add_rejects_unknown_codes (C : config_env) (E : env) (F : fs_env)
    (P : prompt_env) (countryCodes : list string) (options : CommandOptions)
    (s : process) (registry : RegistryIndex) (w1 : world) (code : string) :
  fetchRegistry E (registry_world s) = (Returned (Some registry), w1) →
  code ∈ countryCodes →
  countries_get registry (toLowerCase code) = NotListed →
  let s' := (add C E F P countryCodes options s).2 in
  exitCode s' = Some 1 ∧
  output_files s' = output_files s ∧
  (registry_world s' = registry_world s ∨ registry_world s' = w1).
Proof.
  intros Hreg Hin Hcode.
  destruct (add_run C E F P countryCodes options s) as (s' & Hrun & Hcases).
  rewrite Hrun. cbn [snd].
  destruct Hcases as [(_ & Hexit & Hfiles & Hworld)
                     |(config & registry' & w1' & (_ & Hreg' & Hall) & _)].
  - by rewrite Hreg in Hworld.
  - rewrite Hreg in Hreg'. simplify_eq.
    apply (proj1 (Forall_forall _ _)) with (x := toLowerCase code) in Hall.
    + by rewrite Hcode in Hall.
    + by apply list_elem_of_fmap_2.
Qed.

Lemma add_rejects_unknown_codes_sample :
  let E := serving 0 sampleIndex "sa" makeSampleCountry in
  let s' := (add (project (makeConfig ["en"] false)) E disk declining ["sa"; "ZZ"]
               {| force := true; dryRun := false |} twoInstalled).2 in
  exitCode s' = Some 1 ∧
  output_files s' = output_files twoInstalled ∧
  (registry_world s' = registry_world twoInstalled ∨
   registry_world s' = (fetchRegistry E emptyWorld).2).
Proof.
  intros E.
  apply (add_rejects_unknown_codes _ E disk declining ["sa"; "ZZ"] _ twoInstalled
           sampleIndex (fetchRegistry E emptyWorld).2 "ZZ").
  - by vm_compute.
  - apply elem_of_cons. right. apply elem_of_cons. by left.
  - by vm_compute.
Defined.

(** X28. Without [force], [add] leaves every file that is in the output
    directory as it is, the accessor module apart, unless the user answers
    yes to the overwrite prompt: a cancelled or declined prompt, a dry run
    and a failure all keep what is installed. *)
Theorem add_overwrites_only_when_told (C : config_env) (E : env) (F : fs_env)
    (P : prompt_env) (countryCodes : list string) (options : CommandOptions)
    (s : process) (name : string) :
  force options = false →
  confirm P "Overwrite existing countries?" ≠ Some true →
  is_Some (output_files s !! name) →
  name ≠ "index.ts" → name ≠ "index.js" →
  output_files (add C E F P countryCodes options s).2 !! name = output_files s !! name.
Proof.
  intros Hforce Hconfirm Hname Hts Hjs.
  destruct (add_run C E F P countryCodes options s) as (s' & Hrun & Hcases).
  rewrite Hrun. cbn [snd].
  destruct Hcases as [(_ & _ & -> & _)
                     |(config & registry & w1 & _
                       & [(_ & _ & -> & _)|[(_ & -> & _)|Hloop]])]; [done..|].
  destruct Hloop as (_ & files1 & Hout & _ & Hfiles & _).
  assert (files1 !! name = output_files s !! name) as Hsame.
  { destruct (Hfiles name) as [Hf|(code & d & Hin & -> & _)]; [done|].
    unfold chosen_codes in Hin. rewrite Hforce, bool_decide_eq_false_2 in Hin by done.
    cbn [orb] in Hin. apply list_elem_of_filter in Hin as [Hnew Hin].
    destruct Hnew. by apply list_elem_of_filter. }
  destruct Hout as [-> | ->]; [done|]. rewrite lookup_insert_ne; [done|].
  unfold index_file. by destruct (typescript config).
Qed.

Lemma add_overwrites_only_when_told_sample :
  output_files
    (add (project (makeConfig ["en"] false))
       (serving 0 sampleIndex "sa" makeSampleCountry) disk declining ["SA"]
       {| force := false; dryRun := false |} twoInstalled).2 !! "sa.json"
  = output_files twoInstalled !! "sa.json".
Proof.
  apply add_overwrites_only_when_told.
  - reflexivity.
  - discriminate.
  - vm_compute. by eexists.
  - discriminate.
  - discriminate.
Defined.

(** X29. [add] never throws, and it reports every failure through the exit
    code: when a run that is not a dry run ends with an exit code other than
    1, the file [<code>.json] of every code asked for, in lower case, is in
    the output directory. *)
Theorem add_succeeds_only_when_all_are_installed (C : config_env) (E : env)
    (F : fs_env) (P : prompt_env) (countryCodes : list string)
    (options : CommandOptions) (s : process) :
  ∃ s',
    add C E F P countryCodes options s = (Returned tt, s') ∧
    (dryRun options = false →
     exitCode s' ≠ Some 1 →
     ∀ code, code ∈ countryCodes →
             is_Some (output_files s' !! (toLowerCase code ++ ".json"))).
Proof.
  destruct (add_run C E F P countryCodes options s) as (s' & Hrun & Hcases).
  exists s'. split; [done|]. intros Hdry Hexit code Hcode.
  apply (list_elem_of_fmap_2 toLowerCase) in Hcode.
  destruct Hcases as [(_ & ? & _)|(config & registry & w1 & _ & Hcases)]; [done|].
  assert (∀ files1 : gmap string file,
            (∀ name, is_Some (output_files s !! name) → is_Some (files1 !! name)) →
            (toLowerCase code ∈ chosen_codes P options s (toLowerCase <$> countryCodes) →
             is_Some (files1 !! (toLowerCase code ++ ".json"))) →
            is_Some (files1 !! (toLowerCase code ++ ".json"))) as Hinstalled.
  { intros files1 Hkeeps Hchosen. unfold chosen_codes in *.
    destruct (_ || _); [by apply Hchosen|].
    destruct (decide (toLowerCase code
                      ∈ existing_codes s (toLowerCase <$> countryCodes))) as [Hex|Hnew].
    - apply list_elem_of_filter in Hex as [Hex _]. by apply Hkeeps.
    - apply Hchosen. by apply list_elem_of_filter. }
  destruct Hcases as [(_ & ? & _)|[(_ & -> & _ & [Hdry'|Hnone])|Hloop]]; [done| | |].
  - by rewrite Hdry in Hdry'.
  - apply Hinstalled; [done|]. rewrite Hnone. by intros ?%elem_of_nil.
  - destruct Hloop as (_ & files1 & Hout & _ & Hfiles & Hin & _).
    assert (is_Some (files1 !! (toLowerCase code ++ ".json"))) as Hfile.
    { apply Hinstalled.
      - intros name Hname. by destruct (Hfiles name) as [->|(? & ? & _ & _ & ->)].
      - intros Hchosen. by apply Hin. }
    destruct Hout as [-> | ->]; [done|].
    destruct (decide (index_file config = toLowerCase code ++ ".json")) as [<-|Hne].
    + by rewrite lookup_insert_eq.
    + by rewrite lookup_insert_ne.
Qed.

(** X30. One country does not stop the others in [add] either: once the config
    is loaded, the index resolved and every code listed, a run that is not a
    dry run resolves each code it has chosen (all of them, or the new ones
    when the overwrite is not confirmed), in the order given and once each,
    whether the ones before it threw, returned invalid data or could not be
    written; the exit code is then the one before or 1. *)
Theorem add_resolves_every_chosen_code (C : config_env) (E : env) (F : fs_env)
    (P : prompt_env) (countryCodes : list string) (options : CommandOptions)
    (s : process) (config : GeoDataConfig) (registry : RegistryIndex) (w1 : world) :
  add_starts C E s countryCodes config registry w1 →
  dryRun options = false →
  let s' := (add C E F P countryCodes options s).2 in
  registry_world s'
  = resolve_each E config (chosen_codes P options s (toLowerCase <$> countryCodes)) w1 ∧
  (exitCode s' = exitCode s ∨ exitCode s' = Some 1).
Proof.
  intros Hstarts Hdry.
  destruct (add_run C E F P countryCodes options s) as (s' & Hrun & Hcases).
  rewrite Hrun. cbn [snd].
  destruct Hcases as [(Hnot & _)|(config' & registry' & w1' & Hpasses & Hcases)].
  { destruct Hnot. exists config, registry, w1. by apply add_starts_passes. }
  destruct Hstarts as (Hc & Hr & Hlisted), Hpasses as (Hc' & Hr' & _).
  rewrite Hc in Hc'. rewrite Hr in Hr'. simplify_eq.
  destruct Hcases as [((code & Hin & Hcode) & _)
                     |[(-> & _ & -> & [Hdry'| ->])|Hloop]].
  - apply (proj1 (Forall_forall _ _) Hlisted) in Hin.
    destruct (countries_get_listed _ _ Hin) as [info Hinfo]. by rewrite Hinfo in Hcode.
  - by rewrite Hdry in Hdry'.
  - by split; [|left].
  - destruct Hloop as (_ & files1 & _ & Hexit & _ & _ & Hworld). split; [|done].
    apply Hworld. apply Forall_forall. intros code Hin.
    apply (proj1 (Forall_forall _ _) Hlisted). by eapply chosen_codes_subseteq.
Qed.

Lemma add_resolves_every_chosen_code_sample :
  let C := project (makeConfig ["en"] false) in
  let E := serving 0 sampleIndex "sa" makeSampleCountry in
  let options := {| force := true; dryRun := false |} in
  let s' := (add C E disk declining ["SA"] options twoInstalled).2 in
  registry_world s'
  = resolve_each E (makeConfig ["en"] false)
      (chosen_codes declining options twoInstalled (toLowerCase <$> ["SA"]))
      (fetchRegistry E emptyWorld).2 ∧
  (exitCode s' = exitCode twoInstalled ∨ exitCode s' = Some 1).
Proof.
  intros C E options.
  apply (add_resolves_every_chosen_code C E disk declining ["SA"] options twoInstalled
           (makeConfig ["en"] false) sampleIndex (fetchRegistry E emptyWorld).2).
  - split_and!; [by vm_compute|by vm_compute|].
    apply Forall_cons. split; [|by apply Forall_nil]. vm_compute. by eexists.
  - reflexivity.
Defined.

Lemma add_succeeds_only_when_all_are_installed_sample :
  let C := project (makeConfig ["en"] false) in
  let E := serving 0 sampleIndex "sa" makeSampleCountry in
  let options := {| force := true; dryRun := false |} in
  ∃ s',
    add C E disk declining ["SA"] options twoInstalled = (Returned tt, s') ∧
    exitCode s' ≠ Some 1 ∧
    is_Some (output_files s' !! "sa.json").
Proof.
  intros C E options.
  destruct (add_succeeds_only_when_all_are_installed C E disk declining ["SA"] options
              twoInstalled) as (s' & Hrun & Hinstalled).
  assert (exitCode s' ≠ Some 1) as Hexit.
  { replace s' with (add C E disk declining ["SA"] options twoInstalled).2
      by (by rewrite Hrun).
    by vm_compute. }
  exists s'. split_and!; [done|done|].
  apply (Hinstalled eq_refl Hexit "SA"). apply elem_of_cons. by left.
Defined.
